(** * LQR actor-critic scripts: [LQR/1dim_PPO.py] and [LQR/1dim_SAC.py]

    A shallow embedding of the two training scripts.  Python floats and
    tensor entries are idealised as real numbers.  The tensor library, the
    random generators, the plotting library and [lqr_control] form an
    abstract interface ([Library]) whose operations may raise; the scripts
    are programs in a state-and-error monad over that interface, and every
    library operation they perform is recorded in a trace. *)

From Stdlib Require Import Reals Lra.
From stdpp Require Import gmap strings list.

Open Scope R_scope.

(** ** Exceptions and results *)

Inductive exn : Type :=
| ValueError
| RuntimeError
| NameError
| AttributeError
| ZeroDivisionError
| LibraryError (code : nat).

Definition result (A : Type) : Type := (exn + A)%type.

(** ** The NumPy fragment used by the scripts

    Two-dimensional arrays are lists of rows. *)

Abbreviation matrix := (list (list R)) (only parsing).

(** The scripts name two of their matrices [Q] and [R]; where those are
    in scope the numbers are called [real]. *)
Abbreviation real := R (only parsing).

Definition shape (m : matrix) : nat * nat :=
  (length m, match m with [] => 0%nat | r :: _ => length r end).

Definition dot (u v : list R) : R := foldr Rplus 0 (zip_with Rmult u v).

Definition column (j : nat) (b : matrix) : list R := map (fun r => nth j r 0) b.

(** [np.matmul(a, b)] and [a @ b]: every row of [a] must be as long as
    [b] has rows. *)
Definition matmul (a b : matrix) : result matrix :=
  if forallb (fun r => Nat.eqb (length r) (length b)) a
  then inr (map (fun r => map (fun j => dot r (column j b)) (seq 0 (snd (shape b)))) a)
  else inl ValueError.

(** [a + b] on arrays of one shape.  NumPy also adds arrays of different
    shapes, by broadcasting; that case is left out here and answered with
    [ValueError].  In a timestep of the scripts it does not arise: the
    cost is computed before the next state, and its products are defined
    on a 1x1 state and a one-entry action only, so both sums are taken on
    1x1 operands. *)
Definition madd (a b : matrix) : result matrix :=
  if forallb (fun p => Nat.eqb (length (fst p)) (length (snd p))) (zip a b)
     && Nat.eqb (length a) (length b)
  then inr (zip_with (zip_with Rplus) a b)
  else inl ValueError.

(** [x.item()]: the single entry of a one-element array. *)
Definition item (m : matrix) : result R :=
  match concat m with
  | [x] => inr x
  | _ => inl ValueError
  end.

(** [np.array(action).reshape(1,1)] *)
Definition reshape_1_1 (action : list R) : result matrix :=
  match action with
  | [a] => inr [[a]]
  | _ => inl ValueError
  end.

(** [state.reshape(1, -1)] *)
Definition reshape_1_any (state : matrix) : matrix := [concat state].

(** The truth value of [np.abs(state) > bound], as tested by [if]. *)
Definition abs_gt (state : matrix) (bound : R) : result bool :=
  match concat state with
  | [x] => inr (if Rlt_dec bound (Rabs x) then true else false)
  | _ => inl ValueError
  end.

(** [a % b] on non-negative integers. *)
Definition pymod (a b : nat) : result nat :=
  if Nat.eqb b 0 then inl ZeroDivisionError else inr (a mod b)%nat.

(** [torch.stack(tensors)] refuses an empty list. *)
Definition stack {A : Type} (tensors : list A) : result (list A) :=
  match tensors with
  | [] => inl RuntimeError
  | _ => inr tensors
  end.

(** [x.item()] on a one-dimensional array. *)
Definition item_v (v : list R) : result R :=
  match v with
  | [x] => inr x
  | _ => inl ValueError
  end.

(** [np.matmul(a, x)] with a one-dimensional [x]. *)
Definition matvec (a : matrix) (x : list R) : result (list R) :=
  if forallb (fun r => Nat.eqb (length r) (length x)) a
  then inr (map (fun r => dot r x) a)
  else inl ValueError.

(** [x + y] on one-dimensional arrays of one length; as for [madd],
    broadcasting is left out.  With the 1x1 [A] and [B] of the scripts
    both operands of the sum in [simulate] have one entry. *)
Definition vadd (x y : list R) : result (list R) :=
  if Nat.eqb (length x) (length y)
  then inr (zip_with Rplus x y)
  else inl ValueError.

#[global] Instance result_ret : MRet result := fun A (a : A) => inr a.

#[global] Instance result_bind : MBind result :=
  fun A B (f : A -> result B) (r : result A) =>
    match r with
    | inl e => inl e
    | inr a => f a
    end.

(** ** Discounted returns

    The loop that opens [PPO.update_actor], [PPO.update_critic] and
    [SAC.update]:
<<
    rewards = []
    discounted_reward = 0
    for reward, is_terminal in zip(reversed(memory.rewards), reversed(memory.is_terminals)):
        if is_terminal:
            discounted_reward = 0
        discounted_reward = reward + (self.gamma * discounted_reward)
        rewards.insert(0, discounted_reward)
>>
    One iteration acts on the pair [(discounted_reward, rewards)]. *)

Definition discount_step (gamma : R) (acc : R * list R) (p : R * bool) : R * list R :=
  let '(discounted_reward, rewards) := acc in
  let '(reward, is_terminal) := p in
  let discounted_reward := if is_terminal then 0 else discounted_reward in
  let discounted_reward := reward + gamma * discounted_reward in
  (discounted_reward, discounted_reward :: rewards).

(** The recurrence in the words of the specification: reward plus [gamma]
    times the running sum, the running sum reset to 0 at each terminal,
    built back to front. *)
Fixpoint returns_spec (gamma : R) (rewards : list R) (is_terminals : list bool) : list R :=
  match rewards, is_terminals with
  | reward :: rewards', is_terminal :: is_terminals' =>
      let rest := returns_spec gamma rewards' is_terminals' in
      (reward + gamma * (if is_terminal then 0 else hd 0 rest)) :: rest
  | _, _ => []
  end.

(** The same recurrence without any reset. *)
Fixpoint returns_no_reset (gamma : R) (costs : list R) : list R :=
  match costs with
  | cost :: costs' =>
      let rest := returns_no_reset gamma costs' in
      (cost + gamma * hd 0 rest) :: rest
  | [] => []
  end.

(** ** The clipped surrogate

    [torch.sign], [torch.clamp] and the textbook PPO objective. *)

Definition sign (x : R) : R :=
  if Rlt_dec 0 x then 1 else if Rlt_dec x 0 then -1 else 0.

Definition clamp (x lo hi : R) : R := Rmin (Rmax x lo) hi.

(** The per-sample loss in the words of the specification. *)
Definition textbook_surrogate (eps_clip ratio advantage : R) : R :=
  Rmin (ratio * advantage) (clamp ratio (1 - eps_clip) (1 + eps_clip) * advantage).

(** What the body of the epoch loop of [PPO.update_actor] computes for one
    ratio and one advantage:
<<
    surr1 = ratios * advantages
    surr2 = (torch.ones_like(advantages) - self.eps_clip * torch.sign(advantages)) * advantages
    actor_loss = torch.min(surr1, surr2)
>> *)
Definition surrogate (eps_clip ratio advantage : R) : R :=
  let surr1 := ratio * advantage in
  let surr2 := (1 - eps_clip * sign advantage) * advantage in
  Rmin surr1 surr2.

(** The tensors of that loop body.  [logprobs], [rewards] and
    [state_values] have shape (N,); [old_logprobs] is the stack of the
    stored log-probabilities, each of shape (1,), hence of shape (N,1) and
    given here by its single column.  [logprobs - old_logprobs] therefore
    broadcasts to shape (N,N): row [i] pairs the old log-probability of
    sample [i] with every new one. *)
Definition ratios (logprobs old_logprobs : list R) : matrix :=
  map (fun old => map (fun new => exp (new - old)) logprobs) old_logprobs.

Definition advantages (rewards state_values : list R) : list R :=
  zip_with Rminus rewards state_values.

Definition actor_loss (eps_clip : R) (logprobs old_logprobs rewards state_values : list R) : matrix :=
  map (fun row => zip_with (surrogate eps_clip) row (advantages rewards state_values))
      (ratios logprobs old_logprobs).

(** ** The library interface

    Every operation the scripts ask of torch, numpy.random, matplotlib
    and [lqr_control].  [OpSave] is [torch.save], the tensor library's
    serialisation. *)

Inductive op : Type :=
| OpCudaIsAvailable
| OpPrint
| OpManualSeed
| OpNpSeed
| OpDlqr
| OpSimulateDiscrete
| OpTrueLoss
| OpModule
| OpTorchRandn
| OpSetWeight
| OpAdam
| OpLoadStateDict
| OpUniform
| OpRandn
| OpRand
| OpActor
| OpCritic
| OpAgent
| OpSample
| OpLogProb
| OpLog
| OpMean
| OpStd
| OpMseLoss
| OpZeroGrad
| OpBackward
| OpStep
| OpLinspace
| OpPltClose
| OpSubplots
| OpPlot (label : string)
| OpSetLabel (text : string)
| OpLegend
| OpGrid
| OpShow
| OpSave (path : string).

(** Operations that write a file or other persistent state. *)
Definition persists (o : op) : bool :=
  match o with
  | OpSave _ => true
  | _ => false
  end.

(** Operations that draw a curve of a comparison figure. *)
Definition is_plot (o : op) : bool :=
  match o with
  | OpPlot _ => true
  | _ => false
  end.

Definition is_dlqr (o : op) : bool :=
  match o with
  | OpDlqr => true
  | _ => false
  end.

(** What a run leaves behind: the operations in the order they were
    called, and the exception a failing operation raised. *)
Inductive event : Type :=
| Call (o : op)
| Raise (e : exn).

(** The library answers an operation on the flat data of its arguments
    with the rows of the arrays it returns, or raises; its own state
    (generators, network weights, optimisers, figures) is [L]. *)
Class Library (L : Type) : Type :=
  lib_call : op -> list R -> L -> result matrix * L.

Record world (L : Type) : Type := World {
  lib_state : L;
  trace : list event
}.
Arguments World {L} _ _.
Arguments lib_state {L} _.
Arguments trace {L} _.

Definition emit {L : Type} (evs : list event) (w : world L) : world L :=
  World (lib_state w) (trace w ++ evs).

(** Programs over the library: state passing with exceptions.  There is
    no handler: the scripts contain no [try]. *)
Definition M (L A : Type) : Type := world L -> result A * world L.

#[global] Instance M_ret {L : Type} : MRet (M L) :=
  fun A (a : A) w => (inr a, w).

#[global] Instance M_bind {L : Type} : MBind (M L) :=
  fun A B (f : A -> M L B) (m : M L A) w =>
    match m w with
    | (inl e, w') => (inl e, w')
    | (inr a, w') => f a w'
    end.

Section Primitives.
Context {L : Type} `{!Library L}.

Definition call (o : op) (args : list R) : M L matrix :=
  fun w =>
    match lib_call o args (lib_state w) with
    | (inr rows, l) => (inr rows, World l (trace w ++ [Call o]))
    | (inl e, l) => (inl e, World l (trace w ++ [Call o; Raise e]))
    end.

(** A NumPy operation of the fragment above. *)
Definition lift {A : Type} (r : result A) : M L A :=
  fun w =>
    match r with
    | inr a => (inr a, w)
    | inl e => (inl e, emit [Raise e] w)
    end.

(** An operation whose result has a single entry. *)
Definition call1 (o : op) (args : list R) : M L R :=
  rows ← call o args; mret (hd 0 (concat rows)).

(** An operation called for its effect. *)
Definition call_ (o : op) (args : list R) : M L unit :=
  _ ← call o args; mret tt.

Fixpoint for_each {A B : Type} (f : A -> M L B) (l : list A) : M L (list B) :=
  match l with
  | [] => mret []
  | x :: l' => y ← f x; ys ← for_each f l'; mret (y :: ys)
  end.

(** [for _ in range(n): body] *)
Fixpoint repeatM (n : nat) (body : M L unit) : M L unit :=
  match n with
  | O => mret tt
  | S n' => _ ← body; repeatM n' body
  end.

(** A run starts with an empty trace. *)
Definition run {A : Type} (m : M L A) (l : L) : result A * world L :=
  m (World l []).

Definition outcome {A : Type} (m : M L A) (l : L) : result A := fst (run m l).
Definition events {A : Type} (m : M L A) (l : L) : list event := trace (snd (run m l)).
End Primitives.

(** ** Python instances as attribute dictionaries

    The attributes of a [Memory] instance are lists of floats, booleans
    and tensors; [del self.attr[:]] empties the list bound to [attr] in
    place and raises when the attribute is missing. *)

Inductive pyval : Type :=
| PyFloat (x : R)
| PyBool (b : bool)
| PyTensor (t : matrix).

Definition del_slice (attr : string) (self : gmap string (list pyval))
  : result (gmap string (list pyval)) :=
  match self !! attr with
  | Some _ => inr (<[attr := []]> self)
  | None => inl AttributeError
  end.

(** * [1dim_PPO.py] *)

Module PPO1d.

(** ** class Memory *)

Record Memory : Type := mkMemory {
  actions : list matrix;
  states : list matrix;
  logprobs : list R;
  rewards : list R;
  is_terminals : list bool
}.

(** [Memory.__init__] *)
Definition Memory_init : Memory := mkMemory [] [] [] [] [].

(** [Memory.clear_memory], one [del] after the other. *)
Definition clear_memory (self : Memory) : Memory :=
  let self := mkMemory [] (states self) (logprobs self) (rewards self) (is_terminals self) in
  let self := mkMemory (actions self) [] (logprobs self) (rewards self) (is_terminals self) in
  let self := mkMemory (actions self) (states self) [] (rewards self) (is_terminals self) in
  let self := mkMemory (actions self) (states self) (logprobs self) [] (is_terminals self) in
  mkMemory (actions self) (states self) (logprobs self) (rewards self) [].

(** The instance dictionary of a [Memory]. *)
Definition attrs (self : Memory) : gmap string (list pyval) :=
  <["actions" := PyTensor <$> actions self]>
  (<["states" := PyTensor <$> states self]>
  (<["logprobs" := PyFloat <$> logprobs self]>
  (<["rewards" := PyFloat <$> rewards self]>
  (<["is_terminals" := PyBool <$> is_terminals self]> ∅)))).

(** [Memory.clear_memory] on the instance dictionary. *)
Definition clear_memory_attrs (self : gmap string (list pyval))
  : result (gmap string (list pyval)) :=
  self ← del_slice "actions" self;
  self ← del_slice "states" self;
  self ← del_slice "logprobs" self;
  self ← del_slice "rewards" self;
  del_slice "is_terminals" self.

Definition append_action (action : matrix) (self : Memory) : Memory :=
  mkMemory (actions self ++ [action]) (states self) (logprobs self) (rewards self) (is_terminals self).
Definition append_state (state : matrix) (self : Memory) : Memory :=
  mkMemory (actions self) (states self ++ [state]) (logprobs self) (rewards self) (is_terminals self).
Definition append_logprob (logprob : R) (self : Memory) : Memory :=
  mkMemory (actions self) (states self) (logprobs self ++ [logprob]) (rewards self) (is_terminals self).
Definition append_reward (reward : R) (self : Memory) : Memory :=
  mkMemory (actions self) (states self) (logprobs self) (rewards self ++ [reward]) (is_terminals self).
Definition append_is_terminal (done : bool) (self : Memory) : Memory :=
  mkMemory (actions self) (states self) (logprobs self) (rewards self) (is_terminals self ++ [done]).

(** ** class ActorCritic and class PPO

    The networks and optimisers live in the library; the instances keep
    the Python-level attributes. *)

Record ActorCritic : Type := mkActorCritic {
  action_var : R
}.

Record PPO : Type := mkPPO {
  betas : R * R;
  gamma : R;
  alpha : R;
  eps_clip : R;
  K_epochs : nat;
  policy : ActorCritic;
  policy_old : ActorCritic
}.

(** The discounted rewards at the start of [PPO.update_actor] ... *)
Definition update_actor_rewards (self : PPO) (memory : Memory) : list R :=
  snd (fold_left (discount_step (gamma self))
                 (zip (rev (rewards memory)) (rev (is_terminals memory)))
                 (0, [])).

(** ... and at the start of [PPO.update_critic]. *)
Definition update_critic_rewards (self : PPO) (memory : Memory) : list R :=
  snd (fold_left (discount_step (gamma self))
                 (zip (rev (rewards memory)) (rev (is_terminals memory)))
                 (0, [])).

Section Classes.
Context {L : Type} `{!Library L}.

(** The weight doubling of [ActorCritic.__init__]: four times a random
    half and its mirrored copy. *)
Definition double_weights (rows cols : nat) : M L unit :=
  temp ← call OpTorchRandn [INR rows; INR cols];
  call_ OpSetWeight (concat temp).

Definition ActorCritic_init (state_dim action_dim n_latent_var : nat) (action_std : R)
    (double : bool) : M L ActorCritic :=
  _ ← call_ OpModule [INR state_dim; INR n_latent_var; INR action_dim];
  _ ← call_ OpModule [INR state_dim; INR n_latent_var; 1];
  _ ← (if double
       then
         _ ← double_weights (n_latent_var / 2) state_dim;
         _ ← double_weights 1 (n_latent_var / 2);
         _ ← double_weights (n_latent_var / 2) state_dim;
         double_weights action_dim (n_latent_var / 2)
       else mret tt);
  mret (mkActorCritic (action_std * action_std)).

Definition act (self : ActorCritic) (state : matrix) (memory : Memory)
  : M L (matrix * Memory) :=
  action_mean ← call OpActor (concat state);
  action ← call1 OpSample (concat action_mean ++ [action_var self]);
  action_logprob ← call1 OpLogProb (concat action_mean ++ [action_var self; action]);
  let memory := append_state state memory in
  let memory := append_action [[action]] memory in
  let memory := append_logprob action_logprob memory in
  mret ([[action]], memory).

Definition evaluate (self : ActorCritic) (state action : list matrix) (alpha : R)
  : M L (list R * list R) :=
  action_means ← call OpActor (concat (concat state));
  action_logprobs ←
    for_each (fun xmu : matrix * R =>
                call1 OpLogProb ([snd xmu; action_var self] ++ concat (fst xmu)))
             (zip action (concat action_means));
  state_value ← call OpCritic (concat (concat state));
  mret (action_logprobs, map (Rmult alpha) (concat state_value)).

Definition PPO_init (state_dim action_dim n_latent_var : nat)
    (action_std actor_lr critic_lr : R) (betas : R * R) (alpha gamma : R)
    (K_epochs : nat) (eps_clip : R) (double : bool) : M L PPO :=
  policy ← ActorCritic_init state_dim action_dim n_latent_var action_std double;
  _ ← call_ OpAdam [actor_lr; fst betas; snd betas];
  _ ← call_ OpAdam [critic_lr; fst betas; snd betas];
  policy_old ← ActorCritic_init state_dim action_dim n_latent_var action_std double;
  _ ← call_ OpLoadStateDict [];
  _ ← call_ OpModule [];
  mret (mkPPO betas gamma alpha eps_clip K_epochs policy policy_old).

Definition select_action (self : PPO) (state : matrix) (memory : Memory)
  : M L (list R * Memory) :=
  let state := reshape_1_any state in
  am ← act (policy_old self) state memory;
  mret (concat (fst am), snd am).

Definition update_actor (self : PPO) (memory : Memory) : M L unit :=
  let rewards := update_actor_rewards self memory in
  mean ← call1 OpMean rewards;
  std ← call1 OpStd rewards;
  let rewards := map (fun r => (r - mean) / (std + 1e-8)) rewards in
  old_states ← lift (stack (states memory));
  old_actions ← lift (stack (actions memory));
  old_logprobs ← lift (stack (logprobs memory));
  _ ← repeatM (K_epochs self)
        (lv ← evaluate (policy self) old_states old_actions (alpha self);
         let loss := actor_loss (eps_clip self) (fst lv) old_logprobs rewards (snd lv) in
         _ ← call_ OpZeroGrad [];
         loss_mean ← call1 OpMean (concat loss);
         _ ← call_ OpBackward [loss_mean];
         call_ OpStep []);
  call_ OpLoadStateDict [].

Definition update_critic (self : PPO) (memory : Memory) : M L unit :=
  states ← lift (stack (states memory));
  let rewards := update_critic_rewards self memory in
  mean ← call1 OpMean rewards;
  std ← call1 OpStd rewards;
  let rewards := map (fun r => alpha self * (r - mean) / (std + 1e-5)) rewards in
  repeatM (K_epochs self)
    (values ← call OpCritic (concat (concat states));
     let state_values := map (Rmult (alpha self)) (concat values) in
     mse ← call1 OpMseLoss (state_values ++ rewards);
     let critic_loss := 0.5 / (alpha self * alpha self) * mse in
     _ ← call_ OpZeroGrad [];
     loss_mean ← call1 OpMean [critic_loss];
     _ ← call_ OpBackward [loss_mean];
     call_ OpStep []).

End Classes.

(** ** The [__main__] block *)

Module Main.

(** *** Hyperparameters *)

Definition A : matrix := [[1]].
Definition B : matrix := [[1]].
Definition Q : matrix := [[1]].
Definition R : matrix := [[1]].

Definition state_dim : nat := 1.
Definition action_dim : nat := 1.
Definition log_interval : nat := 500.
Definition max_episodes : nat := 100 * 100.
Definition max_timesteps : nat := 100.

Definition n_latent_var : nat := 64.
Definition update_timestep : nat := 400.
Definition action_std : real := 0.1.
Definition K_epochs : nat := 10.
Definition eps_clip : real := 0.2.
Definition gamma : real := 0.99.
Definition alpha : real := 100.

Definition actor_lr : real := 0.001.
Definition critic_lr : real := 0.001.
Definition betas : real * real := (0.9, 0.999).

Definition random_seed : nat := 1.

(** *** One timestep of the environment *)

(** [np.matmul(state,np.matmul(Q,state)) +
     np.matmul(np.array(action).reshape(1,1),np.matmul(R,np.array(action).reshape(1,1)))] *)
Definition stage_cost (state : matrix) (action : list real) : result matrix :=
  qx ← matmul Q state;
  xqx ← matmul state qx;
  u ← reshape_1_1 action;
  u' ← reshape_1_1 action;
  ru ← matmul R u';
  uru ← matmul u ru;
  madd xqx uru.

(** [np.matmul(A,state) + np.matmul(B,np.array(action).reshape(1,1))] *)
Definition next_state (state : matrix) (action : list real) : result matrix :=
  ax ← matmul A state;
  u ← reshape_1_1 action;
  bu ← matmul B u;
  madd ax bu.

(** The variables of the training loop. *)
Record Vars : Type := mkVars {
  state : matrix;
  done : bool;
  t : option nat;
  time_step : nat;
  running_reward : real;
  avg_length : real;
  memory : Memory
}.

Section Script.
Context {L : Type} `{!Library L}.

(** *** simulate, compare_paths, compare_V *)

Fixpoint simulate_loop (A B : matrix) (T : nat) (x u x_data u_data : list real)
  : M L (list real * list real) :=
  match T with
  | O => mret (x_data, u_data)
  | S T' =>
      ui ← lift (item_v u);
      let u_data := u_data ++ [ui] in
      xi ← lift (item_v x);
      let x_data := x_data ++ [xi] in
      u' ← call OpActor x;
      let u := concat u' in
      ax ← lift (matvec A x);
      bu ← lift (matvec B u);
      x ← lift (vadd ax bu);
      simulate_loop A B T' x u x_data u_data
  end.

Definition simulate (A B : matrix) (x0 u0 : list real) (T : nat)
  : M L (list real * list real) :=
  simulate_loop A B T x0 u0 [] [].

Definition compare_paths (x_sim x_star : list real) (ylabel : string) : M L unit :=
  _ ← call_ OpSubplots [];
  _ ← call_ (OpPlot "Agent") x_sim;
  _ ← call_ (OpPlot "True") x_star;
  _ ← call_ (OpSetLabel "Time") [];
  _ ← call_ (OpSetLabel ylabel) [];
  _ ← call_ OpLegend [];
  _ ← call_ OpGrid [];
  call_ OpShow [].

Definition compare_V (A B Q R : matrix) (K : real) (T : nat) (gamma alpha low high : real)
  : M L unit :=
  _ ← call_ OpSubplots [];
  states ← call OpLinspace [low; high];
  critic ← call OpCritic (concat states);
  let values := map (Rmult alpha) (concat critic) in
  _ ← call_ (OpPlot "Approx. Loss Function") (concat states ++ values);
  loss ← call OpTrueLoss (concat A ++ concat B ++ concat Q ++ concat R
                           ++ [K] ++ concat states ++ [INR T; gamma]);
  _ ← call_ (OpPlot "Real Loss Function") (concat states ++ concat loss);
  _ ← call_ (OpSetLabel "x") [];
  _ ← call_ (OpSetLabel "y") [];
  _ ← call_ OpLegend [];
  _ ← call_ OpGrid [];
  call_ OpShow [].

(** *** The training loop *)

(** The body of [for t in range(max_timesteps)]. *)
Definition timestep (ppo : PPO) (t : nat) (v : Vars) : M L Vars :=
  let time_step := (time_step v + 1)%nat in
  am ← select_action ppo (state v) (memory v);
  let action := fst am in
  let memory := snd am in
  reward ← lift (stage_cost (state v) action);
  state ← lift (next_state (state v) action);
  far ← lift (abs_gt state 10);
  let done := if (far : bool) then true else done v in
  r ← lift (item reward);
  let memory := append_reward r memory in
  let memory := append_is_terminal done memory in
  rem ← lift (pymod time_step update_timestep);
  mt ← (if Nat.eqb rem 0
        then
          _ ← update_actor ppo memory;
          _ ← update_critic ppo memory;
          mret (clear_memory memory, O)
        else mret (memory, time_step));
  r' ← lift (item reward);
  let running_reward := running_reward v + r' in
  mret (mkVars state done (Some t) (snd mt) running_reward (avg_length v) (fst mt)).

(** [for t in range(max_timesteps): ...; if done: break], with [n]
    iterations left. *)
Fixpoint timesteps (ppo : PPO) (n t : nat) (v : Vars) : M L Vars :=
  match n with
  | O => mret v
  | S n' =>
      v ← timestep ppo t v;
      if done v then mret v else timesteps ppo n' (S t) v
  end.

(** The body of [for i_episode in range(1, max_episodes+1)]. *)
Definition episode (ppo : PPO) (i_episode : nat) (v : Vars) : M L Vars :=
  x ← call1 OpUniform [-5; 5];
  let v := mkVars [[x]] false (t v) (time_step v) (running_reward v) (avg_length v) (memory v) in
  v ← timesteps ppo max_timesteps 0 v;
  last_t ← lift (match t v with Some t => inr t | None => inl NameError end);
  let avg_length := avg_length v + INR last_t in
  rem ← lift (pymod i_episode log_interval);
  if Nat.eqb rem 0
  then
    _ ← call_ OpPltClose [];
    let avg_length := avg_length / INR log_interval in
    let running_reward := running_reward v / INR log_interval in
    _ ← call_ OpPrint [INR i_episode; avg_length; running_reward];
    mret (mkVars (state v) (done v) (t v) (time_step v) 0 0 (memory v))
  else
    mret (mkVars (state v) (done v) (t v) (time_step v) (running_reward v) avg_length (memory v)).

Fixpoint episodes (ppo : PPO) (n i_episode : nat) (v : Vars) : M L Vars :=
  match n with
  | O => mret v
  | S n' =>
      v ← episode ppo i_episode v;
      episodes ppo n' (S i_episode) v
  end.

(** *** The script, top to bottom *)

(** Everything before the training loop; its result is the optimal gain
    [K], the agent and the loop variables. *)
Definition setup : M L (real * PPO * Vars) :=
  _ ← call_ OpCudaIsAvailable [];
  _ ← (if Nat.eqb random_seed 0
       then mret tt
       else
         _ ← call_ OpPrint [INR random_seed];
         _ ← call_ OpManualSeed [INR random_seed];
         call_ OpNpSeed [INR random_seed]);
  K ← call1 OpDlqr (concat A ++ concat B ++ concat Q ++ concat R);
  let memory := Memory_init in
  ppo ← PPO_init state_dim action_dim n_latent_var action_std actor_lr critic_lr
                 betas alpha gamma K_epochs eps_clip true;
  _ ← call_ OpPrint [actor_lr; critic_lr; fst betas; snd betas];
  mret (K, ppo, mkVars [] false None 0 0 0 memory).

Definition training (ppo : PPO) (v : Vars) : M L Vars :=
  episodes ppo max_episodes 1 v.

(** Everything after the training loop. *)
Definition comparison (K : real) : M L unit :=
  x ← call1 OpRandn [1];
  let x0 : list real := [x] in
  let u0 : list real := [0] in
  let T := 50%nat in
  x0' ← lift (reshape_1_1 x0);
  u0' ← lift (reshape_1_1 u0);
  star ← call OpSimulateDiscrete (concat A ++ concat B ++ [K] ++ concat x0' ++ concat u0' ++ [INR T]);
  let x_star := nth 0 star [] in
  let u_star := nth 1 star [] in
  sim ← simulate A B x0 u0 T;
  _ ← compare_paths (fst sim) (removelast x_star) "state";
  _ ← compare_paths (snd sim) (removelast u_star) "action";
  compare_V A B Q R K T gamma alpha (-1) 1.

(** The script never looks at its command line or at the environment
    variables: [sys] and [os] are not even imported. *)
Definition main (argv : list string) (environ : list (string * string)) : M L unit :=
  kpv ← setup;
  _ ← training (snd (fst kpv)) (snd kpv);
  comparison (fst (fst kpv)).

End Script.
End Main.
End PPO1d.

(** * [1dim_SAC.py] *)

Module SAC1d.

(** ** class Memory *)

Record Memory : Type := mkMemory {
  actions : list matrix;
  states : list matrix;
  logprobs : list R;
  costs : list R;
  is_terminals : list bool
}.

(** [Memory.__init__] *)
Definition Memory_init : Memory := mkMemory [] [] [] [] [].

(** [Memory.clear_memory], one [del] after the other. *)
Definition clear_memory (self : Memory) : Memory :=
  let self := mkMemory [] (states self) (logprobs self) (costs self) (is_terminals self) in
  let self := mkMemory (actions self) [] (logprobs self) (costs self) (is_terminals self) in
  let self := mkMemory (actions self) (states self) [] (costs self) (is_terminals self) in
  let self := mkMemory (actions self) (states self) (logprobs self) [] (is_terminals self) in
  mkMemory (actions self) (states self) (logprobs self) (costs self) [].

(** The instance dictionary of a [Memory]. *)
Definition attrs (self : Memory) : gmap string (list pyval) :=
  <["actions" := PyTensor <$> actions self]>
  (<["states" := PyTensor <$> states self]>
  (<["logprobs" := PyFloat <$> logprobs self]>
  (<["costs" := PyFloat <$> costs self]>
  (<["is_terminals" := PyBool <$> is_terminals self]> ∅)))).

(** [Memory.clear_memory] on the instance dictionary. *)
Definition clear_memory_attrs (self : gmap string (list pyval))
  : result (gmap string (list pyval)) :=
  self ← del_slice "actions" self;
  self ← del_slice "states" self;
  self ← del_slice "logprobs" self;
  self ← del_slice "costs" self;
  del_slice "is_terminals" self.

Definition append_action (action : matrix) (self : Memory) : Memory :=
  mkMemory (actions self ++ [action]) (states self) (logprobs self) (costs self) (is_terminals self).
Definition append_state (state : matrix) (self : Memory) : Memory :=
  mkMemory (actions self) (states self ++ [state]) (logprobs self) (costs self) (is_terminals self).
Definition append_cost (cost : R) (self : Memory) : Memory :=
  mkMemory (actions self) (states self) (logprobs self) (costs self ++ [cost]) (is_terminals self).
Definition append_is_terminal (done : bool) (self : Memory) : Memory :=
  mkMemory (actions self) (states self) (logprobs self) (costs self) (is_terminals self ++ [done]).

(** ** class Model and class SAC *)

Record Model : Type := mkModel {
  Model_tau : R;
  Model_state_dim : nat;
  Model_action_dim : nat
}.

Record SAC : Type := mkSAC {
  betas : R * R;
  gamma : R;
  tau : R;
  K_epochs : nat;
  policy : Model;
  policy_old : Model
}.

(** The discounted costs at the start of [SAC.update]. *)
Definition update_costs (self : SAC) (memory : Memory) : list R :=
  snd (fold_left (discount_step (gamma self))
                 (zip (rev (costs memory)) (rev (is_terminals memory)))
                 (0, [])).

Section Classes.
Context {L : Type} `{!Library L}.

Definition Model_init (state_dim action_dim n_latent_var : nat) (tau : R) : M L Model :=
  _ ← call_ OpModule [INR (state_dim + action_dim); INR n_latent_var; 1];
  mret (mkModel tau state_dim action_dim).

Definition act (self : Model) (state : matrix) (memory : Memory) : M L (matrix * Memory) :=
  noise ← call OpRand [INR (Model_action_dim self); 1];
  value ← call1 OpAgent (concat state ++ concat noise);
  let action : matrix := [[exp (- value / Model_tau self)]] in
  let memory := append_state state memory in
  let memory := append_action action memory in
  mret (action, memory).

Definition evaluate (self : Model) (states actions : list matrix) : M L (list R) :=
  action_values ← call OpAgent (concat (concat states) ++ concat (concat actions));
  mret (concat action_values).

Definition SAC_init (state_dim action_dim n_latent_var : nat) (tau lr : R)
    (betas : R * R) (gamma : R) (K_epochs : nat) : M L SAC :=
  policy ← Model_init state_dim action_dim n_latent_var tau;
  _ ← call_ OpAdam [lr; fst betas; snd betas];
  policy_old ← Model_init state_dim action_dim n_latent_var tau;
  _ ← call_ OpLoadStateDict [];
  _ ← call_ OpModule [];
  mret (mkSAC betas gamma tau K_epochs policy policy_old).

Definition select_action (self : SAC) (state : matrix) (memory : Memory)
  : M L (list R * Memory) :=
  let state := reshape_1_any state in
  am ← act (policy_old self) state memory;
  mret (concat (fst am), snd am).

Definition update (self : SAC) (memory : Memory) : M L unit :=
  let costs := update_costs self memory in
  old_states ← lift (stack (states memory));
  old_actions ← lift (stack (actions memory));
  _ ← repeatM (K_epochs self)
        (action_values ← evaluate (policy self) old_states old_actions;
         logs ← call OpLog (concat (concat old_actions));
         let actor_loss := map (fun l => - tau self * l) (concat logs) in
         mse ← call1 OpMseLoss (action_values ++ costs);
         let critic_loss := 0.5 * mse in
         let loss := map (fun l => l + critic_loss) actor_loss in
         _ ← call_ OpZeroGrad [];
         loss_mean ← call1 OpMean loss;
         _ ← call_ OpBackward [loss_mean];
         call_ OpStep []);
  call_ OpLoadStateDict [].

(** ** simulate, compare_paths, compare_V, compare_P

    Defined by the script and called nowhere in it. *)

Fixpoint simulate_loop (A B : matrix) (T : nat) (x u x_data u_data : list R)
  : M L (list R * list R) :=
  match T with
  | O => mret (x_data, u_data)
  | S T' =>
      ui ← lift (item_v u);
      let u_data := u_data ++ [ui] in
      xi ← lift (item_v x);
      let x_data := x_data ++ [xi] in
      u' ← call OpAgent x;
      let u := concat u' in
      ax ← lift (matvec A x);
      bu ← lift (matvec B u);
      x ← lift (vadd ax bu);
      simulate_loop A B T' x u x_data u_data
  end.

Definition simulate (A B : matrix) (x0 : list R) (T : nat) : M L (list R * list R) :=
  u ← call OpAgent x0;
  simulate_loop A B T x0 (concat u) [] [].

Definition compare_paths (x_sim x_star : list R) (ylabel : string) : M L unit :=
  _ ← call_ OpSubplots [];
  _ ← call_ (OpPlot "Agent") x_sim;
  _ ← call_ (OpPlot "True") x_star;
  _ ← call_ (OpSetLabel "Time") [];
  _ ← call_ (OpSetLabel ylabel) [];
  _ ← call_ OpLegend [];
  _ ← call_ OpGrid [];
  call_ OpShow [].

Definition compare_V (A B Q R' : matrix) (K : R) (T : nat) (gamma alpha low high : R)
  : M L unit :=
  _ ← call_ OpSubplots [];
  states ← call OpLinspace [low; high];
  critic ← call OpCritic (concat states);
  let values := map (Rmult alpha) (concat critic) in
  _ ← call_ (OpPlot "Approx. Loss Function") (concat states ++ values);
  loss ← call OpTrueLoss (concat A ++ concat B ++ concat Q ++ concat R'
                           ++ [K] ++ concat states ++ [INR T; gamma]);
  _ ← call_ (OpPlot "Real Loss Function") (concat states ++ concat loss);
  _ ← call_ (OpSetLabel "x") [];
  _ ← call_ (OpSetLabel "y") [];
  _ ← call_ OpLegend [];
  _ ← call_ OpGrid [];
  call_ OpShow [].

Definition compare_P (K low high : R) : M L unit :=
  _ ← call_ OpSubplots [];
  states ← call OpLinspace [low; high];
  actor ← call OpActor (concat states);
  let optimal := map (fun x => - K * x) (concat states) in
  _ ← call_ (OpPlot "Approx. Policy") (concat states ++ concat actor);
  _ ← call_ (OpPlot "Optimal Policy") (concat states ++ optimal);
  _ ← call_ (OpSetLabel "x") [];
  _ ← call_ (OpSetLabel "y") [];
  _ ← call_ OpLegend [];
  _ ← call_ OpGrid [];
  call_ OpShow [].

End Classes.

(** ** The module level of the script *)

Module Main.

(** *** Hyperparameters *)

Definition A : matrix := [[1]].
Definition B : matrix := [[1]].
Definition Q : matrix := [[1]].
Definition R : matrix := [[1]].

Definition state_dim : nat := 1.
Definition action_dim : nat := 1.
Definition log_interval : nat := 100.
Definition max_episodes : nat := 100 * 1000.
Definition max_timesteps : nat := 10.

Definition n_latent_var : nat := 10.
Definition tau : real := 0.05.
Definition K_epochs : nat := 10.
Definition gamma : real := 1.00.

Definition lr : real := 0.001.
Definition betas : real * real := (0.9, 0.999).

Definition random_seed : nat := 1.

(** *** One timestep of the environment *)

(** [state@Q@state + np.array(action).reshape(1, 1)@R@np.array(action).reshape(1,1)] *)
Definition stage_cost (state : matrix) (action : list real) : result matrix :=
  xq ← matmul state Q;
  xqx ← matmul xq state;
  u ← reshape_1_1 action;
  ur ← matmul u R;
  u' ← reshape_1_1 action;
  uru ← matmul ur u';
  madd xqx uru.

(** [A@state + B@np.array(action).reshape(1,1)] *)
Definition next_state (state : matrix) (action : list real) : result matrix :=
  ax ← matmul A state;
  u ← reshape_1_1 action;
  bu ← matmul B u;
  madd ax bu.

(** The variables of the training loop. *)
Record Vars : Type := mkVars {
  state : matrix;
  done : bool;
  cost : option matrix;
  running_cost : real;
  memory : Memory
}.

Section Script.
Context {L : Type} `{!Library L}.

(** The body of [for t in range(max_timesteps)], up to the [break]. *)
Definition timestep (sac : SAC) (v : Vars) : M L Vars :=
  am ← select_action sac (state v) (memory v);
  let action := fst am in
  let memory := snd am in
  cost ← lift (stage_cost (state v) action);
  state ← lift (next_state (state v) action);
  c ← lift (item cost);
  let memory := append_cost c memory in
  let memory := append_is_terminal (done v) memory in
  mret (mkVars state (done v) (Some cost) (running_cost v) memory).

Fixpoint timesteps (sac : SAC) (n : nat) (v : Vars) : M L Vars :=
  match n with
  | O => mret v
  | S n' =>
      v ← timestep sac v;
      if done v then mret v else timesteps sac n' v
  end.

(** The body of [for i_episode in range(1, max_episodes+1)]. *)
Definition episode (sac : SAC) (i_episode : nat) (v : Vars) : M L Vars :=
  x ← call1 OpRandn [1; 1];
  let v := mkVars [[10 * x]] false (cost v) (running_cost v) (memory v) in
  v ← timesteps sac max_timesteps v;
  _ ← update sac (memory v);
  let memory := clear_memory (memory v) in
  last_cost ← lift (match cost v with Some c => inr c | None => inl NameError end);
  c ← lift (item last_cost);
  let running_cost := running_cost v + c in
  rem ← lift (pymod i_episode log_interval);
  if Nat.eqb rem 0
  then
    let running_cost := running_cost / INR log_interval in
    _ ← call_ OpPrint [INR i_episode; running_cost];
    mret (mkVars (state v) (done v) (cost v) 0 memory)
  else
    mret (mkVars (state v) (done v) (cost v) running_cost memory).

Fixpoint episodes (sac : SAC) (n i_episode : nat) (v : Vars) : M L Vars :=
  match n with
  | O => mret v
  | S n' =>
      v ← episode sac i_episode v;
      episodes sac n' (S i_episode) v
  end.

(** Everything before the training loop. *)
Definition setup : M L (SAC * Vars) :=
  _ ← call_ OpCudaIsAvailable [];
  _ ← (if Nat.eqb random_seed 0
       then mret tt
       else
         _ ← call_ OpPrint [INR random_seed];
         _ ← call_ OpManualSeed [INR random_seed];
         call_ OpNpSeed [INR random_seed]);
  let memory := Memory_init in
  sac ← SAC_init state_dim action_dim n_latent_var tau lr betas gamma K_epochs;
  _ ← call_ OpPrint [lr; tau; fst betas; snd betas];
  mret (sac, mkVars [] false None 0 memory).

Definition training (sac : SAC) (v : Vars) : M L Vars :=
  episodes sac max_episodes 1 v.

(** Everything after the training loop; the comparison itself is
    commented out in the script. *)
Definition optimal_control : M L (real * real) :=
  x ← call1 OpUniform [-5; 5; 1];
  let x0 : list real := [x] in
  let u0 : list real := [0] in
  let T := 50%nat in
  kp ← call OpDlqr (concat A ++ concat B ++ concat Q ++ concat R);
  mret (hd 0 (nth 0 kp []), hd 0 (nth 1 kp [])).

(** The script never looks at its command line or at the environment
    variables. *)
Definition main (argv : list string) (environ : list (string * string)) : M L unit :=
  sv ← setup;
  _ ← training (fst sv) (snd sv);
  _ ← optimal_control;
  mret tt.

End Script.
End Main.
End SAC1d.

(** * Observing runs

    [behaves allowed m]: whatever the library does, a run of [m] extends
    the trace by calls of allowed operations only, followed, exactly when
    the run ends in an exception, by the raising of that exception. *)

Definition behaves {L : Type} `{!Library L} (allowed : op -> bool) {A : Type}
    (m : M L A) : Prop :=
  forall w : world L, exists ops : list op,
    forallb allowed ops = true
    /\ match m w with
       | (inr _, w') => trace w' = trace w ++ map Call ops
       | (inl e, w') => trace w' = trace w ++ map Call ops ++ [Raise e]
       end.

(** [emits ops m]: a run of [m] that returns has called exactly [ops]. *)
Definition emits {L : Type} `{!Library L} (ops : list op) {A : Type}
    (m : M L A) : Prop :=
  forall (w : world L) (a : A) (w' : world L),
    m w = (inr a, w') -> trace w' = trace w ++ map Call ops.

(** [succeeds P m]: every run of [m] returns, with a value in [P]. *)
Definition succeeds {L : Type} `{!Library L} {A : Type} (P : A -> Prop)
    (m : M L A) : Prop :=
  forall w : world L, exists (a : A) (w' : world L), m w = (inr a, w') /\ P a.

(** [returns P m]: the value of a run of [m] that returns is in [P]. *)
Definition returns {L : Type} `{!Library L} {A : Type} (P : A -> Prop)
    (m : M L A) : Prop :=
  forall (w : world L) (a : A) (w' : world L), m w = (inr a, w') -> P a.

(** What the loop variables of the SAC script satisfy as long as [done]
    is [False]: every flag stored so far is [False], one per stored cost. *)
Definition never_done (v : SAC1d.Main.Vars) : Prop :=
  SAC1d.Main.done v = false
  /\ length (SAC1d.costs (SAC1d.Main.memory v))
     = length (SAC1d.is_terminals (SAC1d.Main.memory v))
  /\ Forall (eq false) (SAC1d.is_terminals (SAC1d.Main.memory v)).

(** What the loop variables of the PPO script satisfy once a timestep has
    run: the state is a 1x1 array and [t] is bound. *)
Definition stepped (v : PPO1d.Main.Vars) : Prop :=
  (exists x : R, PPO1d.Main.state v = [[x]]) /\ is_Some (PPO1d.Main.t v).

(** The same for the SAC script: the state and the last cost are 1x1
    arrays, and the memory holds states and actions. *)
Definition costed (v : SAC1d.Main.Vars) : Prop :=
  (exists x : R, SAC1d.Main.state v = [[x]])
  /\ (exists c : R, SAC1d.Main.cost v = Some [[c]])
  /\ SAC1d.states (SAC1d.Main.memory v) <> []
  /\ SAC1d.actions (SAC1d.Main.memory v) <> [].

(** A library whose actor network answers with one number. *)
Definition actor_answers_one (L : Type) `{!Library L} : Prop :=
  forall (args : list R) (l : L),
    exists (x : R) (l' : L), lib_call OpActor args l = (inr [[x]], l').

(** What the loop variables of the PPO script satisfy between two
    timesteps: the five lists of the memory have one length, which is
    [time_step], and [time_step] is below [update_timestep]. *)
Definition batch_invariant (v : PPO1d.Main.Vars) : Prop :=
  let memory := PPO1d.Main.memory v in
  length (PPO1d.states memory) = PPO1d.Main.time_step v
  /\ length (PPO1d.actions memory) = PPO1d.Main.time_step v
  /\ length (PPO1d.logprobs memory) = PPO1d.Main.time_step v
  /\ length (PPO1d.rewards memory) = PPO1d.Main.time_step v
  /\ length (PPO1d.is_terminals memory) = PPO1d.Main.time_step v
  /\ (PPO1d.Main.time_step v < PPO1d.Main.update_timestep)%nat.

(** [library_raises e]: the library has an operation, arguments and a
    state on which it raises [e]. *)
Definition library_raises {L : Type} `{!Library L} (e : exn) : Prop :=
  exists (o : op) (args : list R) (l l' : L), lib_call o args l = (inl e, l').

(** [safe P m]: a run of [m] either returns a value in [P] or ends with an
    exception the library raised; the NumPy operations and the name
    lookups of [m] itself never fail. *)
Definition safe {L : Type} `{!Library L} {A : Type} (P : A -> Prop)
    (m : M L A) : Prop :=
  forall w : world L,
    match m w with
    | (inr a, _) => P a
    | (inl e, _) => library_raises e
    end.

(** [optimizer.step()] *)
Definition is_step (o : op) : bool :=
  match o with
  | OpStep => true
  | _ => false
  end.

(** [policy_old.load_state_dict(policy.state_dict())] *)
Definition is_sync (o : op) : bool :=
  match o with
  | OpLoadStateDict => true
  | _ => false
  end.

(** [counts f n m]: a run of [m] that returns has called exactly [n]
    operations in [f]. *)
Definition counts {L : Type} `{!Library L} (f : op -> bool) (n : nat) {A : Type}
    (m : M L A) : Prop :=
  forall (w : world L) (a : A) (w' : world L),
    m w = (inr a, w') ->
    exists ops : list op,
      trace w' = trace w ++ map Call ops /\ length (List.filter f ops) = n.

(** ** The device

    The first statement of either script after its imports:
<<
    device = torch.device("cuda:0" if torch.cuda.is_available() else "cpu")
>>
    [torch.cuda.is_available()] is the one place where a script asks
    about the machine it runs on.  Its answer is a truth value, given by
    the library as a number. *)

Definition is_probe (o : op) : bool :=
  match o with
  | OpCudaIsAvailable => true
  | _ => false
  end.

Definition truth (answer : R) : bool :=
  if Req_dec_T answer 0 then false else true.

Definition device_name (cuda_is_available : bool) : string :=
  if cuda_is_available then "cuda:0" else "cpu".

Definition device {L : Type} `{!Library L} : M L string :=
  answer ← call1 OpCudaIsAvailable [];
  mret (device_name (truth answer)).

(** A library whose state is the one external setting the scripts
    consult: whether CUDA is available.  Every other operation answers
    [[0]] in either state. *)
#[global] Instance configured : Library bool :=
  fun o _ cuda_is_available =>
    (inr [[if is_probe o && cuda_is_available then 1 else 0]], cuda_is_available).

(** [agree rel]: library states related by [rel] answer every operation
    alike, except that [torch.cuda.is_available()] may give different
    answers, and lead to states related by [rel] again. *)
Definition agree {L : Type} `{!Library L} (rel : L -> L -> Prop) : Prop :=
  forall (o : op) (args : list R) (l1 l2 : L),
    rel l1 l2 ->
    match lib_call o args l1, lib_call o args l2 with
    | (inr rows1, l1'), (inr rows2, l2') =>
        rel l1' l2' /\ (is_probe o = false -> rows1 = rows2)
    | (inl e1, l1'), (inl e2, l2') => rel l1' l2' /\ e1 = e2
    | _, _ => False
    end.

(** [stable rel m]: from library states related by [rel], two runs of
    [m] have the same result, add the same events to the trace, and end
    in library states related by [rel]. *)
Definition stable {L : Type} `{!Library L} (rel : L -> L -> Prop) {A : Type}
    (m : M L A) : Prop :=
  forall w1 w2 : world L,
    rel (lib_state w1) (lib_state w2) ->
    fst (m w1) = fst (m w2)
    /\ rel (lib_state (snd (m w1))) (lib_state (snd (m w2)))
    /\ exists evs : list event,
         trace (snd (m w1)) = trace w1 ++ evs
         /\ trace (snd (m w2)) = trace w2 ++ evs.

(** A library none of whose operations ever raises. *)
Definition never_raises (L : Type) `{!Library L} : Prop :=
  forall (o : op) (args : list R) (l : L),
    exists (rows : list (list R)) (l' : L), lib_call o args l = (inr rows, l').

(** Operations of the training phase: no file is written, nothing is
    plotted, [control.dlqr] is not called. *)
Definition training_op (o : op) : bool :=
  negb (persists o || is_plot o || is_dlqr o).

Definition plot_free (o : op) : bool := negb (persists o || is_plot o).

Definition not_persisting (o : op) : bool := negb (persists o).

Definition any_op (o : op) : bool := true.

(** The attributes set by [Memory.__init__]. *)
Definition PPO_Memory_attrs : list string :=
  ["actions"; "states"; "logprobs"; "rewards"; "is_terminals"].

Definition SAC_Memory_attrs : list string :=
  ["actions"; "states"; "logprobs"; "costs"; "is_terminals"].

(** * A library that never raises

    Every operation answers with the one-entry array [[0]]. *)

#[global] Instance quiet : Library unit :=
  fun _ _ l => (inr [[0]], l).

(** A library whose state counts the operations that still succeed: the
    next one after those raises. *)
#[global] Instance countdown : Library nat :=
  fun _ _ l =>
    match l with
    | O => (inl (LibraryError 0), O)
    | S l' => (inr [[0]], l')
    end.

(** [propagates m]: an exception raised during a run of [m] is the
    outcome of that run, and nothing happens after it. *)
Definition propagates {L : Type} `{!Library L} {A : Type} (m : M L A) : Prop :=
  forall (l : L) (e : exn),
    Raise e ∈ events m l ->
    outcome m l = inl e /\ last (events m l) = Some (Raise e).

(** [writes_nothing m]: no run of [m] calls an operation that persists
    state. *)
Definition writes_nothing {L : Type} `{!Library L} {A : Type} (m : M L A) : Prop :=
  forall (l : L) (o : op), Call o ∈ events m l -> persists o = false.

(** The operations of the straight-line parts of the scripts, in the
    order of the source. *)
Definition compare_paths_ops (ylabel : string) : list op :=
  [OpSubplots; OpPlot "Agent"; OpPlot "True"; OpSetLabel "Time"; OpSetLabel ylabel;
   OpLegend; OpGrid; OpShow].

Definition compare_V_ops : list op :=
  [OpSubplots; OpLinspace; OpCritic; OpPlot "Approx. Loss Function"; OpTrueLoss;
   OpPlot "Real Loss Function"; OpSetLabel "x"; OpSetLabel "y"; OpLegend; OpGrid; OpShow].

Definition ActorCritic_init_ops : list op :=
  [OpModule; OpModule; OpTorchRandn; OpSetWeight; OpTorchRandn; OpSetWeight;
   OpTorchRandn; OpSetWeight; OpTorchRandn; OpSetWeight].

Definition PPO_setup_ops : list op :=
  [OpCudaIsAvailable; OpPrint; OpManualSeed; OpNpSeed; OpDlqr]
  ++ ActorCritic_init_ops ++ [OpAdam; OpAdam] ++ ActorCritic_init_ops
  ++ [OpLoadStateDict; OpModule; OpPrint].

Definition PPO_comparison_ops : list op :=
  [OpRandn; OpSimulateDiscrete] ++ repeat OpActor 50
  ++ compare_paths_ops "state" ++ compare_paths_ops "action" ++ compare_V_ops.

Definition SAC_setup_ops : list op :=
  [OpCudaIsAvailable; OpPrint; OpManualSeed; OpNpSeed;
   OpModule; OpAdam; OpModule; OpLoadStateDict; OpModule; OpPrint].

Definition SAC_optimal_control_ops : list op := [OpUniform; OpDlqr].

(** The claim about the comparison, in the words of the specification, as
    a property of the events of a run: [control.dlqr] is called once the
    training operations are over, and curves are plotted after it. *)
Definition compares_after_training (evs : list event) : Prop :=
  exists (before after : list event) (label : string),
    evs = before ++ Call OpDlqr :: after
    /\ Call (OpPlot label) ∈ after.

(** * Properties *)

(** ** Discounted returns *)

Lemma zip_rev_snoc {A B : Type} (l : list A) (k : list B) (a : A) (b : B) :
  length l = length k ->
  zip (rev l ++ [a]) (rev k ++ [b]) = zip (rev l) (rev k) ++ [(a, b)].
Proof.
  intros Hlen.
  rewrite zip_with_app; [reflexivity|].
  rewrite !length_rev. exact Hlen.
Qed.

Lemma discount_fold_returns_spec (gamma : R) (rewards : list R) :
  forall is_terminals : list bool,
    length rewards = length is_terminals ->
    fold_left (discount_step gamma) (zip (rev rewards) (rev is_terminals)) (0, [])
    = (hd 0 (returns_spec gamma rewards is_terminals),
       returns_spec gamma rewards is_terminals).
Proof.
  induction rewards as [|reward rewards IH]; intros [|is_terminal is_terminals] Hlen;
    simpl in Hlen; try discriminate; [reflexivity|].
  injection Hlen as Hlen.
  simpl rev. rewrite zip_rev_snoc by exact Hlen.
  rewrite fold_left_app, IH by exact Hlen.
  reflexivity.
Qed.

Lemma returns_spec_no_reset (gamma : R) (costs : list R) :
  forall is_terminals : list bool,
    length costs = length is_terminals ->
    Forall (eq false) is_terminals ->
    returns_spec gamma costs is_terminals = returns_no_reset gamma costs.
Proof.
  induction costs as [|cost costs IH]; intros [|is_terminal is_terminals] Hlen Hall;
    simpl in Hlen; try discriminate; [reflexivity|].
  injection Hlen as Hlen.
  inversion Hall as [|? ? Hhd Htl]; subst.
  simpl. rewrite IH by assumption. reflexivity.
Qed.

Example discount_loop_example :
  snd (fold_left (discount_step 1) (zip (rev [1; 2; 3]) (rev [false; true; false])) (0, []))
  = [1 + 1 * (2 + 1 * 0); 2 + 1 * 0; 3 + 1 * 0].
Proof. reflexivity. Qed.

(** C8: for a memory whose [rewards] and [is_terminals] have equal
    length, the discounted rewards computed at the start of
    [PPO.update_actor] and of [PPO.update_critic] are the same sequence,
    entry by entry, and both are the recurrence "reward + gamma * running
    sum, reset at each terminal, built back to front". *)
Theorem update_actor_critic_same_rewards (self : PPO1d.PPO) (memory : PPO1d.Memory) :
  length (PPO1d.rewards memory) = length (PPO1d.is_terminals memory) ->
  PPO1d.update_actor_rewards self memory
  = returns_spec (PPO1d.gamma self) (PPO1d.rewards memory) (PPO1d.is_terminals memory)
  /\ PPO1d.update_critic_rewards self memory
     = returns_spec (PPO1d.gamma self) (PPO1d.rewards memory) (PPO1d.is_terminals memory)
  /\ forall i : nat,
       PPO1d.update_actor_rewards self memory !! i
       = PPO1d.update_critic_rewards self memory !! i.
Proof.
  intros Hlen.
  assert (Ha : PPO1d.update_actor_rewards self memory
               = returns_spec (PPO1d.gamma self) (PPO1d.rewards memory)
                              (PPO1d.is_terminals memory)).
  { unfold PPO1d.update_actor_rewards.
    rewrite discount_fold_returns_spec by exact Hlen. reflexivity. }
  assert (Hc : PPO1d.update_critic_rewards self memory
               = returns_spec (PPO1d.gamma self) (PPO1d.rewards memory)
                              (PPO1d.is_terminals memory)).
  { unfold PPO1d.update_critic_rewards.
    rewrite discount_fold_returns_spec by exact Hlen. reflexivity. }
  split; [exact Ha|]. split; [exact Hc|].
  intros i. rewrite Ha, Hc. reflexivity.
Qed.

Lemma update_actor_critic_same_rewards_witness :
  let self := PPO1d.mkPPO (0.9, 0.999) 0.99 100 0.2 10
                          (PPO1d.mkActorCritic 0.01) (PPO1d.mkActorCritic 0.01) in
  let memory := PPO1d.mkMemory [] [] [] [1; 4; 9] [false; true; false] in
  PPO1d.update_actor_rewards self memory !! 0%nat
  = PPO1d.update_critic_rewards self memory !! 0%nat.
Proof.
  intros self memory.
  apply (update_actor_critic_same_rewards self memory).
  reflexivity.
Defined.

(** ** The surrogate loss *)

Lemma surrogate_at_ratio_one :
  surrogate 0.2 (exp (0 - 0)) (1 - 0) = 0.8.
Proof.
  replace (0 - 0) with 0 by lra. rewrite exp_0.
  unfold surrogate, sign.
  destruct (Rlt_dec 0 (1 - 0)) as [_|Hn]; [|lra].
  unfold Rmin. destruct (Rle_dec _ _); lra.
Qed.

Lemma textbook_at_ratio_one :
  textbook_surrogate 0.2 (exp (0 - 0)) (1 - 0) = 1.
Proof.
  replace (0 - 0) with 0 by lra. rewrite exp_0.
  unfold textbook_surrogate, clamp, Rmin, Rmax.
  repeat (destruct (Rle_dec _ _)); lra.
Qed.


Lemma lookup_map {A B : Type} (f : A -> B) (l : list A) (i : nat) :
  map f l !! i = f <$> l !! i.
Proof.
  revert i. induction l as [|a l IH]; intros [|i]; simpl; auto.
Qed.

(** Entry [(i, j)] of the loss tensor pairs the old log-probability of
    sample [i] with the new log-probability and the advantage of sample
    [j]. *)
Lemma actor_loss_entry (eps_clip : R) (logprobs old_logprobs rewards state_values : list R)
    (i j : nat) (lp olp r v : R) :
  old_logprobs !! i = Some olp ->
  logprobs !! j = Some lp ->
  rewards !! j = Some r ->
  state_values !! j = Some v ->
  actor_loss eps_clip logprobs old_logprobs rewards state_values !! i ≫= (.!! j)
  = Some (surrogate eps_clip (exp (lp - olp)) (r - v)).
Proof.
  intros Ho Hl Hr Hv.
  unfold actor_loss, ratios, advantages.
  rewrite !lookup_map, Ho. simpl.
  rewrite lookup_zip_with, lookup_map, Hl. simpl.
  rewrite lookup_zip_with, Hr. simpl. rewrite Hv. reflexivity.
Qed.



(** ** The one-dimensional LQR problem *)

Lemma matmul_1x1 (a b : R) : matmul [[a]] [[b]] = inr [[a * b + 0]].
Proof. reflexivity. Qed.

Lemma madd_1x1 (a b : R) : madd [[a]] [[b]] = inr [[a + b]].
Proof. reflexivity. Qed.

Lemma PPO_stage_cost_1x1 (x u : R) :
  PPO1d.Main.stage_cost [[x]] [u] = inr [[x * 1 * x + u * 1 * u]].
Proof.
  unfold PPO1d.Main.stage_cost, PPO1d.Main.Q, PPO1d.Main.R. simpl.
  unfold madd, dot. simpl. do 3 f_equal. ring.
Qed.

Lemma PPO_next_state_1x1 (x u : R) :
  PPO1d.Main.next_state [[x]] [u] = inr [[1 * x + 1 * u]].
Proof.
  unfold PPO1d.Main.next_state, PPO1d.Main.A, PPO1d.Main.B. simpl.
  unfold madd, dot. simpl. do 3 f_equal. ring.
Qed.

Lemma SAC_stage_cost_1x1 (x u : R) :
  SAC1d.Main.stage_cost [[x]] [u] = inr [[x * 1 * x + u * 1 * u]].
Proof.
  unfold SAC1d.Main.stage_cost, SAC1d.Main.Q, SAC1d.Main.R. simpl.
  unfold madd, dot. simpl. do 3 f_equal. ring.
Qed.

Lemma SAC_next_state_1x1 (x u : R) :
  SAC1d.Main.next_state [[x]] [u] = inr [[1 * x + 1 * u]].
Proof.
  unfold SAC1d.Main.next_state, SAC1d.Main.A, SAC1d.Main.B. simpl.
  unfold madd, dot. simpl. do 3 f_equal. ring.
Qed.


(** ** Memory.clear_memory *)

Lemma PPO_clear_memory_fields (self : PPO1d.Memory) :
  PPO1d.clear_memory self = PPO1d.Memory_init.
Proof. reflexivity. Qed.

Lemma SAC_clear_memory_fields (self : SAC1d.Memory) :
  SAC1d.clear_memory self = SAC1d.Memory_init.
Proof. reflexivity. Qed.

Lemma del_slice_present (attr : string) (self : gmap string (list pyval)) :
  is_Some (self !! attr) -> del_slice attr self = inr (<[attr := []]> self).
Proof. intros [l Hl]. unfold del_slice. rewrite Hl. reflexivity. Qed.

Lemma clear_five (a b c d e : string) (self : gmap string (list pyval)) :
  Forall (fun attr => is_Some (self !! attr)) [a; b; c; d; e] ->
  exists self' : gmap string (list pyval),
    (self ← del_slice a self;
     self ← del_slice b self;
     self ← del_slice c self;
     self ← del_slice d self;
     del_slice e self) = inr self'
    /\ Forall (fun attr => self' !! attr = Some []) [a; b; c; d; e]
    /\ forall attr : string, attr ∉ [a; b; c; d; e] -> self' !! attr = self !! attr.
Proof.
  intros Hall.
  apply Forall_cons in Hall as [Ha Hall].
  apply Forall_cons in Hall as [Hb Hall].
  apply Forall_cons in Hall as [Hc Hall].
  apply Forall_cons in Hall as [Hd Hall].
  apply Forall_cons in Hall as [He _].
  assert (Hkeep : forall (k : string) (m : gmap string (list pyval)) (attr : string),
             is_Some (m !! attr) -> is_Some (<[k := []]> m !! attr)).
  { intros k m attr Hs. destruct (decide (k = attr)) as [->|Hne].
    - rewrite lookup_insert_eq. eauto.
    - rewrite lookup_insert_ne by exact Hne. exact Hs. }
  exists (<[e := []]> (<[d := []]> (<[c := []]> (<[b := []]> (<[a := []]> self))))).
  split; [|split].
  - rewrite (del_slice_present a) by exact Ha. simpl.
    rewrite (del_slice_present b) by auto. simpl.
    rewrite (del_slice_present c) by auto. simpl.
    rewrite (del_slice_present d) by auto. simpl.
    rewrite (del_slice_present e) by auto. reflexivity.
  - assert (Hemp : forall (k : string) (m : gmap string (list pyval)) (attr : string),
               m !! attr = Some [] -> <[k := []]> m !! attr = Some []).
    { intros k m attr Hs. destruct (decide (k = attr)) as [->|Hne].
      - apply lookup_insert_eq.
      - rewrite lookup_insert_ne by exact Hne. exact Hs. }
    repeat apply Forall_cons_2; try apply Forall_nil_2;
      repeat first [apply lookup_insert_eq | apply Hemp].
  - intros attr Hnot.
    repeat (apply not_elem_of_cons in Hnot as [? Hnot]).
    rewrite !lookup_insert_ne by congruence. reflexivity.
Qed.

Lemma PPO_clear_memory_attrs_agree (self : PPO1d.Memory) :
  PPO1d.clear_memory_attrs (PPO1d.attrs self)
  = inr (PPO1d.attrs (PPO1d.clear_memory self)).
Proof.
  unfold PPO1d.clear_memory_attrs, PPO1d.attrs, del_slice.
  repeat (rewrite ?lookup_insert_eq, ?lookup_insert_ne by discriminate; simpl).
  reflexivity.
Qed.

Lemma SAC_clear_memory_attrs_agree (self : SAC1d.Memory) :
  SAC1d.clear_memory_attrs (SAC1d.attrs self)
  = inr (SAC1d.attrs (SAC1d.clear_memory self)).
Proof.
  unfold SAC1d.clear_memory_attrs, SAC1d.attrs, del_slice.
  repeat (rewrite ?lookup_insert_eq, ?lookup_insert_ne by discriminate; simpl).
  reflexivity.
Qed.

(** C10: in either script [clear_memory] leaves the five lists of a
    [Memory] empty and touches no other attribute of the instance. *)
Theorem clear_memory_empties_the_five_lists :
  (forall self : gmap string (list pyval),
      Forall (fun attr => is_Some (self !! attr)) PPO_Memory_attrs ->
      exists self' : gmap string (list pyval),
        PPO1d.clear_memory_attrs self = inr self'
        /\ Forall (fun attr => self' !! attr = Some []) PPO_Memory_attrs
        /\ forall attr : string, attr ∉ PPO_Memory_attrs -> self' !! attr = self !! attr)
  /\ (forall self : gmap string (list pyval),
         Forall (fun attr => is_Some (self !! attr)) SAC_Memory_attrs ->
         exists self' : gmap string (list pyval),
           SAC1d.clear_memory_attrs self = inr self'
           /\ Forall (fun attr => self' !! attr = Some []) SAC_Memory_attrs
           /\ forall attr : string, attr ∉ SAC_Memory_attrs -> self' !! attr = self !! attr)
  /\ (forall self : PPO1d.Memory,
         PPO1d.clear_memory self = PPO1d.mkMemory [] [] [] [] []
         /\ PPO1d.clear_memory_attrs (PPO1d.attrs self)
            = inr (PPO1d.attrs (PPO1d.clear_memory self)))
  /\ (forall self : SAC1d.Memory,
         SAC1d.clear_memory self = SAC1d.mkMemory [] [] [] [] []
         /\ SAC1d.clear_memory_attrs (SAC1d.attrs self)
            = inr (SAC1d.attrs (SAC1d.clear_memory self))).
Proof.
  split; [|split; [|split]].
  - intros self Hall. apply clear_five. exact Hall.
  - intros self Hall. apply clear_five. exact Hall.
  - intros self. split; [reflexivity|apply PPO_clear_memory_attrs_agree].
  - intros self. split; [reflexivity|apply SAC_clear_memory_attrs_agree].
Qed.

Lemma clear_memory_empties_the_five_lists_witness :
  let self : gmap string (list pyval) :=
    <["note" := [PyBool true]]>
      (PPO1d.attrs (PPO1d.mkMemory [[[1]]] [[[2]]] [3] [4] [false])) in
  exists self' : gmap string (list pyval),
    PPO1d.clear_memory_attrs self = inr self'
    /\ Forall (fun attr => self' !! attr = Some []) PPO_Memory_attrs
    /\ forall attr : string, attr ∉ PPO_Memory_attrs -> self' !! attr = self !! attr.
Proof.
  intros self.
  apply (proj1 clear_memory_empties_the_five_lists self).
  repeat constructor; eexists; reflexivity.
Defined.

(** ** Traces of runs *)

Section Behaves.
Context {L : Type} `{!Library L}.

Lemma behaves_ret (allowed : op -> bool) {A : Type} (a : A) :
  behaves allowed (mret a : M L A).
Proof.
  intros w. exists []. split; [reflexivity|].
  simpl. rewrite app_nil_r. reflexivity.
Qed.

Lemma behaves_bind (allowed : op -> bool) {A B : Type} (m : M L A) (f : A -> M L B) :
  behaves allowed m ->
  (forall a : A, behaves allowed (f a)) ->
  behaves allowed (m ≫= f).
Proof.
  intros Hm Hf w.
  destruct (Hm w) as (ops1 & Hall1 & Hrun1).
  unfold mbind, M_bind.
  destruct (m w) as [[e|a] w1].
  - exists ops1. split; assumption.
  - destruct (Hf a w1) as (ops2 & Hall2 & Hrun2).
    exists (ops1 ++ ops2). split.
    + rewrite forallb_app, Hall1, Hall2. reflexivity.
    + destruct (f a w1) as [[e|b] w2];
        rewrite Hrun2, Hrun1, map_app, <- ?app_assoc; reflexivity.
Qed.

Lemma behaves_call (allowed : op -> bool) (o : op) (args : list R) :
  allowed o = true -> behaves allowed (call o args).
Proof.
  intros Ho w. exists [o]. split; [simpl; rewrite Ho; reflexivity|].
  unfold call. destruct (lib_call o args (lib_state w)) as [[e|rows] l]; reflexivity.
Qed.

Lemma behaves_lift (allowed : op -> bool) {A : Type} (r : result A) :
  behaves allowed (lift r : M L A).
Proof.
  intros w. exists []. split; [reflexivity|].
  destruct r as [e|a]; simpl; [reflexivity|].
  rewrite app_nil_r. reflexivity.
Qed.

Lemma behaves_weaken (allowed allowed' : op -> bool) {A : Type} (m : M L A) :
  (forall o : op, allowed o = true -> allowed' o = true) ->
  behaves allowed m -> behaves allowed' m.
Proof.
  intros Himp Hm w.
  destruct (Hm w) as (ops & Hall & Hrun).
  exists ops. split; [|exact Hrun].
  apply forallb_forall. intros o Ho.
  apply Himp. rewrite forallb_forall in Hall. apply Hall. exact Ho.
Qed.

Lemma behaves_call1 (allowed : op -> bool) (o : op) (args : list R) :
  allowed o = true -> behaves allowed (call1 o args).
Proof.
  intros Ho. unfold call1.
  apply behaves_bind; [apply behaves_call; exact Ho|].
  intros rows. apply behaves_ret.
Qed.

Lemma behaves_call_ (allowed : op -> bool) (o : op) (args : list R) :
  allowed o = true -> behaves allowed (call_ o args).
Proof.
  intros Ho. unfold call_.
  apply behaves_bind; [apply behaves_call; exact Ho|].
  intros rows. apply behaves_ret.
Qed.

Lemma behaves_for_each (allowed : op -> bool) {A B : Type} (f : A -> M L B) (l : list A) :
  (forall a : A, behaves allowed (f a)) -> behaves allowed (for_each f l).
Proof.
  intros Hf. induction l as [|x l IH]; simpl.
  - apply behaves_ret.
  - apply behaves_bind; [apply Hf|]. intros y.
    apply behaves_bind; [exact IH|]. intros ys. apply behaves_ret.
Qed.

Lemma behaves_repeatM (allowed : op -> bool) (n : nat) (body : M L unit) :
  behaves allowed body -> behaves allowed (repeatM n body).
Proof.
  intros Hb. induction n as [|n IH]; simpl.
  - apply behaves_ret.
  - apply behaves_bind; [exact Hb|]. intros _. exact IH.
Qed.

(** A raised exception is the last event of the run and its outcome. *)
Lemma behaves_raise_is_outcome (allowed : op -> bool) {A : Type} (m : M L A)
    (l : L) (e : exn) :
  behaves allowed m ->
  Raise e ∈ events m l ->
  outcome m l = inl e /\ last (events m l) = Some (Raise e).
Proof.
  intros Hm Hin.
  unfold events, outcome, run in *.
  destruct (Hm (World l [])) as (ops & _ & Hrun).
  destruct (m (World l [])) as [[e'|a] w']; simpl in *.
  - rewrite Hrun in Hin |- *.
    apply elem_of_app in Hin as [Hin|Hin].
    + apply list_elem_of_fmap in Hin as (o & Ho & _). discriminate.
    + apply list_elem_of_singleton in Hin. injection Hin as ->.
      split; [reflexivity|]. apply last_snoc.
  - rewrite Hrun in Hin.
    apply list_elem_of_fmap in Hin as (o & Ho & _). discriminate.
Qed.

(** No operation outside [allowed] is ever called. *)
Lemma behaves_calls_allowed (allowed : op -> bool) {A : Type} (m : M L A)
    (l : L) (o : op) :
  behaves allowed m ->
  Call o ∈ events m l ->
  allowed o = true.
Proof.
  intros Hm Hin.
  unfold events, run in *.
  destruct (Hm (World l [])) as (ops & Hall & Hrun).
  rewrite forallb_forall in Hall.
  assert (Hops : Call o ∈ map Call ops ++ [] \/ Call o ∈ map Call ops).
  { destruct (m (World l [])) as [[e'|a] w']; simpl in *; rewrite Hrun in Hin.
    - apply elem_of_app in Hin as [Hin|Hin]; [right; exact Hin|].
      apply list_elem_of_singleton in Hin. discriminate.
    - right. exact Hin. }
  destruct Hops as [Hops|Hops].
  - rewrite app_nil_r in Hops.
    apply list_elem_of_fmap in Hops as (o' & Ho & Hin').
    injection Ho as ->. apply Hall. apply list_elem_of_In. exact Hin'.
  - apply list_elem_of_fmap in Hops as (o' & Ho & Hin').
    injection Ho as ->. apply Hall. apply list_elem_of_In. exact Hin'.
Qed.

End Behaves.

Lemma training_op_plot_free (o : op) : training_op o = true -> plot_free o = true.
Proof. destruct o; simpl; intros H; solve [reflexivity | discriminate H]. Qed.

Lemma plot_free_not_persisting (o : op) : plot_free o = true -> not_persisting o = true.
Proof. destruct o; simpl; intros H; solve [reflexivity | discriminate H]. Qed.

Lemma training_op_not_persisting (o : op) :
  training_op o = true -> not_persisting o = true.
Proof. intros H. apply plot_free_not_persisting, training_op_plot_free, H. Qed.

Ltac allowed_op :=
  first [ reflexivity
        | match goal with
          | H : forall o : op, _ o = true -> ?allowed o = true |- ?allowed _ = true =>
              apply H; reflexivity
          end ].

Ltac behaves_step :=
  first
    [ apply behaves_ret
    | apply behaves_lift
    | apply behaves_call; allowed_op
    | apply behaves_call1; allowed_op
    | apply behaves_call_; allowed_op
    | solve [auto]
    | apply behaves_repeatM
    | apply behaves_for_each; intros ?
    | apply behaves_bind; [|intros ?]
    | match goal with
      | |- behaves _ (if ?b then _ else _) => destruct b
      | |- behaves _ (match ?x with _ => _ end) => destruct x
      end
    | progress cbv zeta ].

Ltac behaves_tac := repeat behaves_step.

(** *** The operations of the PPO script *)

Section BehavesPPO.
Context {L : Type} `{!Library L}.
Variable allowed : op -> bool.
Hypothesis training_allowed : forall o : op, training_op o = true -> allowed o = true.

Lemma behaves_PPO_double_weights (rows cols : nat) :
  behaves allowed (PPO1d.double_weights rows cols).
Proof. unfold PPO1d.double_weights. behaves_tac. Qed.

Lemma behaves_PPO_ActorCritic_init (state_dim action_dim n_latent_var : nat)
    (action_std : R) (double : bool) :
  behaves allowed
    (PPO1d.ActorCritic_init state_dim action_dim n_latent_var action_std double).
Proof.
  pose proof behaves_PPO_double_weights.
  unfold PPO1d.ActorCritic_init. behaves_tac.
Qed.

Lemma behaves_PPO_init (state_dim action_dim n_latent_var : nat)
    (action_std actor_lr critic_lr : R) (betas : R * R) (alpha gamma : R)
    (K_epochs : nat) (eps_clip : R) (double : bool) :
  behaves allowed
    (PPO1d.PPO_init state_dim action_dim n_latent_var action_std actor_lr critic_lr
                    betas alpha gamma K_epochs eps_clip double).
Proof.
  pose proof behaves_PPO_ActorCritic_init.
  unfold PPO1d.PPO_init. behaves_tac.
Qed.

Lemma behaves_PPO_act (self : PPO1d.ActorCritic) (state : list (list R))
    (memory : PPO1d.Memory) :
  behaves allowed (PPO1d.act self state memory).
Proof. unfold PPO1d.act. behaves_tac. Qed.

Lemma behaves_PPO_evaluate (self : PPO1d.ActorCritic) (state action : list (list (list R)))
    (alpha : R) :
  behaves allowed (PPO1d.evaluate self state action alpha).
Proof. unfold PPO1d.evaluate. behaves_tac. Qed.

Lemma behaves_PPO_select_action (self : PPO1d.PPO) (state : list (list R))
    (memory : PPO1d.Memory) :
  behaves allowed (PPO1d.select_action self state memory).
Proof.
  pose proof behaves_PPO_act.
  unfold PPO1d.select_action. behaves_tac.
Qed.

Lemma behaves_PPO_update_actor (self : PPO1d.PPO) (memory : PPO1d.Memory) :
  behaves allowed (PPO1d.update_actor self memory).
Proof.
  pose proof behaves_PPO_evaluate.
  unfold PPO1d.update_actor. behaves_tac.
Qed.

Lemma behaves_PPO_update_critic (self : PPO1d.PPO) (memory : PPO1d.Memory) :
  behaves allowed (PPO1d.update_critic self memory).
Proof. unfold PPO1d.update_critic. behaves_tac. Qed.

Lemma behaves_PPO_timestep (ppo : PPO1d.PPO) (t : nat) (v : PPO1d.Main.Vars) :
  behaves allowed (PPO1d.Main.timestep ppo t v).
Proof.
  pose proof behaves_PPO_select_action.
  pose proof behaves_PPO_update_actor.
  pose proof behaves_PPO_update_critic.
  unfold PPO1d.Main.timestep. behaves_tac.
Qed.

Lemma behaves_PPO_timesteps (ppo : PPO1d.PPO) (n : nat) :
  forall (t : nat) (v : PPO1d.Main.Vars),
    behaves allowed (PPO1d.Main.timesteps ppo n t v).
Proof.
  pose proof behaves_PPO_timestep.
  induction n as [|n IH]; intros t v; simpl; behaves_tac.
Qed.

Lemma behaves_PPO_episode (ppo : PPO1d.PPO) (i_episode : nat) (v : PPO1d.Main.Vars) :
  behaves allowed (PPO1d.Main.episode ppo i_episode v).
Proof.
  pose proof behaves_PPO_timesteps.
  unfold PPO1d.Main.episode. behaves_tac.
Qed.

Lemma behaves_PPO_episodes (ppo : PPO1d.PPO) (n : nat) :
  forall (i_episode : nat) (v : PPO1d.Main.Vars),
    behaves allowed (PPO1d.Main.episodes ppo n i_episode v).
Proof.
  pose proof behaves_PPO_episode.
  induction n as [|n IH]; intros i_episode v; simpl; behaves_tac.
Qed.

Lemma behaves_PPO_training (ppo : PPO1d.PPO) (v : PPO1d.Main.Vars) :
  behaves allowed (PPO1d.Main.training ppo v).
Proof. apply behaves_PPO_episodes. Qed.

Lemma behaves_PPO_simulate_loop (A B : list (list R)) (T : nat) :
  forall x u x_data u_data : list R,
    behaves allowed (PPO1d.Main.simulate_loop A B T x u x_data u_data).
Proof.
  induction T as [|T IH]; intros x u x_data u_data; simpl; behaves_tac.
Qed.

Lemma behaves_PPO_simulate (A B : list (list R)) (x0 u0 : list R) (T : nat) :
  behaves allowed (PPO1d.Main.simulate A B x0 u0 T).
Proof. apply behaves_PPO_simulate_loop. Qed.

End BehavesPPO.

Section BehavesPPOMain.
Context {L : Type} `{!Library L}.
Variable allowed : op -> bool.
Hypothesis not_persisting_allowed :
  forall o : op, not_persisting o = true -> allowed o = true.

Lemma behaves_PPO_compare_paths (x_sim x_star : list R) (ylabel : string) :
  behaves allowed (PPO1d.Main.compare_paths x_sim x_star ylabel).
Proof. unfold PPO1d.Main.compare_paths. behaves_tac. Qed.

Lemma behaves_PPO_compare_V (A B Q R' : list (list R)) (K : R) (T : nat)
    (gamma alpha low high : R) :
  behaves allowed (PPO1d.Main.compare_V A B Q R' K T gamma alpha low high).
Proof. unfold PPO1d.Main.compare_V. behaves_tac. Qed.

Lemma behaves_PPO_setup : behaves allowed PPO1d.Main.setup.
Proof.
  assert (Htrain : forall o : op, training_op o = true -> allowed o = true).
  { intros o Ho. apply not_persisting_allowed, training_op_not_persisting, Ho. }
  pose proof (behaves_PPO_init allowed Htrain).
  unfold PPO1d.Main.setup. behaves_tac.
Qed.

Lemma behaves_PPO_comparison (K : R) : behaves allowed (PPO1d.Main.comparison K).
Proof.
  assert (Htrain : forall o : op, training_op o = true -> allowed o = true).
  { intros o Ho. apply not_persisting_allowed, training_op_not_persisting, Ho. }
  pose proof (behaves_PPO_simulate allowed Htrain).
  pose proof behaves_PPO_compare_paths.
  pose proof behaves_PPO_compare_V.
  unfold PPO1d.Main.comparison. behaves_tac.
Qed.

Lemma behaves_PPO_main (argv : list string) (environ : list (string * string)) :
  behaves allowed (PPO1d.Main.main argv environ).
Proof.
  assert (Htrain : forall o : op, training_op o = true -> allowed o = true).
  { intros o Ho. apply not_persisting_allowed, training_op_not_persisting, Ho. }
  pose proof behaves_PPO_setup.
  pose proof (behaves_PPO_training allowed Htrain).
  pose proof behaves_PPO_comparison.
  unfold PPO1d.Main.main. behaves_tac.
Qed.

End BehavesPPOMain.

(** *** The operations of the SAC script *)

Section BehavesSAC.
Context {L : Type} `{!Library L}.
Variable allowed : op -> bool.
Hypothesis training_allowed : forall o : op, training_op o = true -> allowed o = true.

Lemma behaves_SAC_Model_init (state_dim action_dim n_latent_var : nat) (tau : R) :
  behaves allowed (SAC1d.Model_init state_dim action_dim n_latent_var tau).
Proof. unfold SAC1d.Model_init. behaves_tac. Qed.

Lemma behaves_SAC_init (state_dim action_dim n_latent_var : nat) (tau lr : R)
    (betas : R * R) (gamma : R) (K_epochs : nat) :
  behaves allowed
    (SAC1d.SAC_init state_dim action_dim n_latent_var tau lr betas gamma K_epochs).
Proof.
  pose proof behaves_SAC_Model_init.
  unfold SAC1d.SAC_init. behaves_tac.
Qed.

Lemma behaves_SAC_act (self : SAC1d.Model) (state : list (list R))
    (memory : SAC1d.Memory) :
  behaves allowed (SAC1d.act self state memory).
Proof. unfold SAC1d.act. behaves_tac. Qed.

Lemma behaves_SAC_evaluate (self : SAC1d.Model) (states actions : list (list (list R))) :
  behaves allowed (SAC1d.evaluate self states actions).
Proof. unfold SAC1d.evaluate. behaves_tac. Qed.

Lemma behaves_SAC_select_action (self : SAC1d.SAC) (state : list (list R))
    (memory : SAC1d.Memory) :
  behaves allowed (SAC1d.select_action self state memory).
Proof.
  pose proof behaves_SAC_act.
  unfold SAC1d.select_action. behaves_tac.
Qed.

Lemma behaves_SAC_update (self : SAC1d.SAC) (memory : SAC1d.Memory) :
  behaves allowed (SAC1d.update self memory).
Proof.
  pose proof behaves_SAC_evaluate.
  unfold SAC1d.update. behaves_tac.
Qed.

Lemma behaves_SAC_timestep (sac : SAC1d.SAC) (v : SAC1d.Main.Vars) :
  behaves allowed (SAC1d.Main.timestep sac v).
Proof.
  pose proof behaves_SAC_select_action.
  unfold SAC1d.Main.timestep. behaves_tac.
Qed.

Lemma behaves_SAC_timesteps (sac : SAC1d.SAC) (n : nat) :
  forall v : SAC1d.Main.Vars, behaves allowed (SAC1d.Main.timesteps sac n v).
Proof.
  pose proof behaves_SAC_timestep.
  induction n as [|n IH]; intros v; simpl; behaves_tac.
Qed.

Lemma behaves_SAC_episode (sac : SAC1d.SAC) (i_episode : nat) (v : SAC1d.Main.Vars) :
  behaves allowed (SAC1d.Main.episode sac i_episode v).
Proof.
  pose proof behaves_SAC_timesteps.
  pose proof behaves_SAC_update.
  unfold SAC1d.Main.episode. behaves_tac.
Qed.

Lemma behaves_SAC_episodes (sac : SAC1d.SAC) (n : nat) :
  forall (i_episode : nat) (v : SAC1d.Main.Vars),
    behaves allowed (SAC1d.Main.episodes sac n i_episode v).
Proof.
  pose proof behaves_SAC_episode.
  induction n as [|n IH]; intros i_episode v; simpl; behaves_tac.
Qed.

Lemma behaves_SAC_training (sac : SAC1d.SAC) (v : SAC1d.Main.Vars) :
  behaves allowed (SAC1d.Main.training sac v).
Proof. apply behaves_SAC_episodes. Qed.

Lemma behaves_SAC_simulate_loop (A B : list (list R)) (T : nat) :
  forall x u x_data u_data : list R,
    behaves allowed (SAC1d.simulate_loop A B T x u x_data u_data).
Proof.
  induction T as [|T IH]; intros x u x_data u_data; simpl; behaves_tac.
Qed.

Lemma behaves_SAC_simulate (A B : list (list R)) (x0 : list R) (T : nat) :
  behaves allowed (SAC1d.simulate A B x0 T).
Proof.
  pose proof behaves_SAC_simulate_loop.
  unfold SAC1d.simulate. behaves_tac.
Qed.

End BehavesSAC.

Section BehavesSACMain.
Context {L : Type} `{!Library L}.
Variable allowed : op -> bool.
Hypothesis plot_free_allowed : forall o : op, plot_free o = true -> allowed o = true.

Lemma behaves_SAC_setup : behaves allowed SAC1d.Main.setup.
Proof.
  assert (Htrain : forall o : op, training_op o = true -> allowed o = true).
  { intros o Ho. apply plot_free_allowed, training_op_plot_free, Ho. }
  pose proof (behaves_SAC_init allowed Htrain).
  unfold SAC1d.Main.setup. behaves_tac.
Qed.

Lemma behaves_SAC_optimal_control : behaves allowed SAC1d.Main.optimal_control.
Proof. unfold SAC1d.Main.optimal_control. behaves_tac. Qed.

Lemma behaves_SAC_main (argv : list string) (environ : list (string * string)) :
  behaves allowed (SAC1d.Main.main argv environ).
Proof.
  assert (Htrain : forall o : op, training_op o = true -> allowed o = true).
  { intros o Ho. apply plot_free_allowed, training_op_plot_free, Ho. }
  pose proof behaves_SAC_setup.
  pose proof (behaves_SAC_training allowed Htrain).
  pose proof behaves_SAC_optimal_control.
  unfold SAC1d.Main.main. behaves_tac.
Qed.

End BehavesSACMain.

Section BehavesSACPlots.
Context {L : Type} `{!Library L}.
Variable allowed : op -> bool.
Hypothesis not_persisting_allowed :
  forall o : op, not_persisting o = true -> allowed o = true.

Lemma behaves_SAC_compare_paths (x_sim x_star : list R) (ylabel : string) :
  behaves allowed (SAC1d.compare_paths x_sim x_star ylabel).
Proof. unfold SAC1d.compare_paths. behaves_tac. Qed.

Lemma behaves_SAC_compare_V (A B Q R' : list (list R)) (K : R) (T : nat)
    (gamma alpha low high : R) :
  behaves allowed (SAC1d.compare_V A B Q R' K T gamma alpha low high).
Proof. unfold SAC1d.compare_V. behaves_tac. Qed.

Lemma behaves_SAC_compare_P (K low high : R) :
  behaves allowed (SAC1d.compare_P K low high).
Proof. unfold SAC1d.compare_P. behaves_tac. Qed.

End BehavesSACPlots.

(** ** Exceptions *)

Lemma behaves_propagates {L : Type} `{!Library L} {A : Type} (m : M L A) :
  behaves any_op m -> propagates m.
Proof.
  intros Hm l e Hin. exact (behaves_raise_is_outcome any_op m l e Hm Hin).
Qed.

Lemma any_op_allowed (base : op -> bool) (o : op) : base o = true -> any_op o = true.
Proof. reflexivity. Qed.

(** C4: neither script handles an exception.  Whenever an operation of
    the library raises during a run of a script, of its training loop or
    of one of the agent's methods, that exception is the outcome of the
    run and the last thing that happened in it. *)
Theorem exceptions_propagate_uncaught (L : Type) (lib : Library L) :
  (forall (argv : list string) (environ : list (string * string)),
      propagates (PPO1d.Main.main argv environ))
  /\ (forall (ppo : PPO1d.PPO) (v : PPO1d.Main.Vars),
         propagates (PPO1d.Main.training ppo v))
  /\ (forall (ppo : PPO1d.PPO) (t : nat) (v : PPO1d.Main.Vars),
         propagates (PPO1d.Main.timestep ppo t v))
  /\ (forall (ppo : PPO1d.PPO) (state : list (list R)) (memory : PPO1d.Memory),
         propagates (PPO1d.select_action ppo state memory))
  /\ (forall (ppo : PPO1d.PPO) (memory : PPO1d.Memory),
         propagates (PPO1d.update_actor ppo memory)
         /\ propagates (PPO1d.update_critic ppo memory))
  /\ (forall (argv : list string) (environ : list (string * string)),
         propagates (SAC1d.Main.main argv environ))
  /\ (forall (sac : SAC1d.SAC) (v : SAC1d.Main.Vars),
         propagates (SAC1d.Main.training sac v))
  /\ (forall (sac : SAC1d.SAC) (v : SAC1d.Main.Vars),
         propagates (SAC1d.Main.timestep sac v))
  /\ (forall (sac : SAC1d.SAC) (state : list (list R)) (memory : SAC1d.Memory),
         propagates (SAC1d.select_action sac state memory))
  /\ (forall (sac : SAC1d.SAC) (memory : SAC1d.Memory),
         propagates (SAC1d.update sac memory)).
Proof.
  split; [intros; apply behaves_propagates, behaves_PPO_main, any_op_allowed|].
  split; [intros; apply behaves_propagates, behaves_PPO_training, any_op_allowed|].
  split; [intros; apply behaves_propagates, behaves_PPO_timestep, any_op_allowed|].
  split; [intros; apply behaves_propagates, behaves_PPO_select_action, any_op_allowed|].
  split; [intros; split; apply behaves_propagates;
          [apply behaves_PPO_update_actor|apply behaves_PPO_update_critic];
          apply any_op_allowed|].
  split; [intros; apply behaves_propagates, behaves_SAC_main, any_op_allowed|].
  split; [intros; apply behaves_propagates, behaves_SAC_training, any_op_allowed|].
  split; [intros; apply behaves_propagates, behaves_SAC_timestep, any_op_allowed|].
  split; [intros; apply behaves_propagates, behaves_SAC_select_action, any_op_allowed|].
  intros; apply behaves_propagates, behaves_SAC_update, any_op_allowed.
Qed.

(** [control.dlqr] raising in the PPO script: the fifth operation. *)
Lemma PPO_main_dlqr_raises :
  events (PPO1d.Main.main [] []) 4%nat
  = [Call OpCudaIsAvailable; Call OpPrint; Call OpManualSeed; Call OpNpSeed;
     Call OpDlqr; Raise (LibraryError 0)].
Proof. reflexivity. Qed.

Lemma exceptions_propagate_uncaught_witness :
  outcome (PPO1d.Main.main [] []) 4%nat = inl (LibraryError 0)
  /\ last (events (PPO1d.Main.main [] []) 4%nat) = Some (Raise (LibraryError 0)).
Proof.
  apply (proj1 (exceptions_propagate_uncaught nat countdown) [] [] 4%nat (LibraryError 0)).
  rewrite PPO_main_dlqr_raises. set_solver.
Defined.

(** ** Persistent state *)

Lemma behaves_writes_nothing {L : Type} `{!Library L} {A : Type} (m : M L A) :
  behaves not_persisting m -> writes_nothing m.
Proof.
  intros Hm l o Hin.
  pose proof (behaves_calls_allowed not_persisting m l o Hm Hin) as Ho.
  unfold not_persisting in Ho. destruct (persists o); [discriminate Ho|reflexivity].
Qed.

(** C5: no run of either script, and no function either script defines,
    calls an operation that writes a file or other persistent state; in
    particular [torch.save] is never called. *)
Theorem scripts_persist_nothing (L : Type) (lib : Library L) :
  (forall (argv : list string) (environ : list (string * string)),
      writes_nothing (PPO1d.Main.main argv environ))
  /\ (forall (argv : list string) (environ : list (string * string)),
         writes_nothing (SAC1d.Main.main argv environ))
  /\ (forall (A B : list (list R)) (x0 : list R) (T : nat),
         writes_nothing (SAC1d.simulate A B x0 T))
  /\ (forall (x_sim x_star : list R) (ylabel : string),
         writes_nothing (SAC1d.compare_paths x_sim x_star ylabel))
  /\ (forall (A B Q R' : list (list R)) (K : R) (T : nat) (gamma alpha low high : R),
         writes_nothing (SAC1d.compare_V A B Q R' K T gamma alpha low high))
  /\ (forall K low high : R, writes_nothing (SAC1d.compare_P K low high)).
Proof.
  split; [intros; apply behaves_writes_nothing, behaves_PPO_main; auto|].
  split; [intros; apply behaves_writes_nothing, behaves_SAC_main,
                        plot_free_not_persisting|].
  split; [intros; apply behaves_writes_nothing, behaves_SAC_simulate,
                        training_op_not_persisting|].
  split; [intros; apply behaves_writes_nothing, behaves_SAC_compare_paths; auto|].
  split; [intros; apply behaves_writes_nothing, behaves_SAC_compare_V; auto|].
  intros; apply behaves_writes_nothing, behaves_SAC_compare_P; auto.
Qed.

Lemma scripts_persist_nothing_witness : persists OpDlqr = false.
Proof.
  apply (proj1 (scripts_persist_nothing nat countdown) [] [] 4%nat OpDlqr).
  rewrite PPO_main_dlqr_raises. set_solver.
Defined.

(** ** The operations of returning runs *)

Section Emits.
Context {L : Type} `{!Library L}.

Lemma emits_ret {A : Type} (a : A) : emits [] (mret a : M L A).
Proof.
  intros w a' w' Hrun. injection Hrun as _ <-.
  simpl. rewrite app_nil_r. reflexivity.
Qed.

Lemma run_bind_inr {A B : Type} (m : M L A) (f : A -> M L B) (w w' : world L) (b : B) :
  (m ≫= f) w = (inr b, w') ->
  exists (a : A) (w1 : world L), m w = (inr a, w1) /\ f a w1 = (inr b, w').
Proof.
  unfold mbind, M_bind. destruct (m w) as [[e|a] w1]; intros Hrun.
  - discriminate Hrun.
  - exists a, w1. split; [reflexivity|exact Hrun].
Qed.

Lemma emits_bind (ops1 ops2 : list op) {A B : Type} (m : M L A) (f : A -> M L B) :
  emits ops1 m ->
  (forall a : A, emits ops2 (f a)) ->
  emits (ops1 ++ ops2) (m ≫= f).
Proof.
  intros Hm Hf w b w' Hrun.
  apply run_bind_inr in Hrun as (a & w1 & Hrun1 & Hrun2).
  rewrite (Hf a w1 b w' Hrun2), (Hm w a w1 Hrun1), map_app, app_assoc.
  reflexivity.
Qed.

Lemma emits_call (o : op) (args : list R) : emits [o] (call o args).
Proof.
  intros w rows w'. unfold call.
  destruct (lib_call o args (lib_state w)) as [[e|rows'] l]; intros Hrun.
  - discriminate Hrun.
  - injection Hrun as _ <-. reflexivity.
Qed.

Lemma emits_lift {A : Type} (r : result A) : emits [] (lift r : M L A).
Proof.
  intros w a w'. destruct r as [e|a']; simpl; intros Hrun.
  - discriminate Hrun.
  - injection Hrun as _ <-. rewrite app_nil_r. reflexivity.
Qed.

Lemma emits_eq (ops ops' : list op) {A : Type} (m : M L A) :
  emits ops m -> ops = ops' -> emits ops' m.
Proof. intros Hm <-. exact Hm. Qed.

Lemma emits_call1 (o : op) (args : list R) : emits [o] (call1 o args).
Proof.
  unfold call1. eapply emits_eq.
  - apply emits_bind; [apply emits_call|]. intros rows. apply emits_ret.
  - reflexivity.
Qed.

Lemma emits_call_ (o : op) (args : list R) : emits [o] (call_ o args).
Proof.
  unfold call_. eapply emits_eq.
  - apply emits_bind; [apply emits_call|]. intros rows. apply emits_ret.
  - reflexivity.
Qed.

End Emits.

Ltac emits_step :=
  first
    [ apply emits_ret
    | apply emits_lift
    | apply emits_call
    | apply emits_call1
    | apply emits_call_
    | solve [auto]
    | eapply emits_bind; [|intros ?]
    | progress cbv zeta ].

Ltac emits_tac := eapply emits_eq; [repeat emits_step|reflexivity].

Section EmitsScripts.
Context {L : Type} `{!Library L}.

Lemma emits_PPO_double_weights (rows cols : nat) :
  emits [OpTorchRandn; OpSetWeight] (PPO1d.double_weights rows cols).
Proof. unfold PPO1d.double_weights. emits_tac. Qed.

Lemma emits_PPO_ActorCritic_init (state_dim action_dim n_latent_var : nat)
    (action_std : R) :
  emits ActorCritic_init_ops
        (PPO1d.ActorCritic_init state_dim action_dim n_latent_var action_std true).
Proof.
  pose proof emits_PPO_double_weights.
  unfold PPO1d.ActorCritic_init. emits_tac.
Qed.

Lemma emits_PPO_setup : emits PPO_setup_ops PPO1d.Main.setup.
Proof.
  pose proof emits_PPO_ActorCritic_init.
  unfold PPO1d.Main.setup, PPO1d.PPO_init. simpl. emits_tac.
Qed.

Lemma emits_PPO_simulate_loop (A B : list (list R)) (T : nat) :
  forall x u x_data u_data : list R,
    emits (repeat OpActor T) (PPO1d.Main.simulate_loop A B T x u x_data u_data).
Proof.
  induction T as [|T IH]; intros x u x_data u_data; simpl.
  - apply emits_ret.
  - emits_tac.
Qed.

Lemma emits_PPO_compare_paths (x_sim x_star : list R) (ylabel : string) :
  emits (compare_paths_ops ylabel) (PPO1d.Main.compare_paths x_sim x_star ylabel).
Proof. unfold PPO1d.Main.compare_paths. emits_tac. Qed.

Lemma emits_PPO_compare_V (A B Q R' : list (list R)) (K : R) (T : nat)
    (gamma alpha low high : R) :
  emits compare_V_ops (PPO1d.Main.compare_V A B Q R' K T gamma alpha low high).
Proof. unfold PPO1d.Main.compare_V. emits_tac. Qed.

Lemma emits_PPO_comparison (K : R) : emits PPO_comparison_ops (PPO1d.Main.comparison K).
Proof.
  pose proof emits_PPO_simulate_loop.
  pose proof emits_PPO_compare_paths.
  pose proof emits_PPO_compare_V.
  unfold PPO1d.Main.comparison, PPO1d.Main.simulate. emits_tac.
Qed.

Lemma emits_SAC_Model_init (state_dim action_dim n_latent_var : nat) (tau : R) :
  emits [OpModule] (SAC1d.Model_init state_dim action_dim n_latent_var tau).
Proof. unfold SAC1d.Model_init. emits_tac. Qed.

Lemma emits_SAC_setup : emits SAC_setup_ops SAC1d.Main.setup.
Proof.
  pose proof emits_SAC_Model_init.
  unfold SAC1d.Main.setup, SAC1d.SAC_init. simpl. emits_tac.
Qed.

Lemma emits_SAC_optimal_control :
  emits SAC_optimal_control_ops SAC1d.Main.optimal_control.
Proof. unfold SAC1d.Main.optimal_control. emits_tac. Qed.

End EmitsScripts.

(** ** The values of returning runs *)

Section Returns.
Context {L : Type} `{!Library L}.

Lemma returns_ret {A : Type} (P : A -> Prop) (a : A) :
  P a -> returns P (mret a : M L A).
Proof. intros HP w a' w' Hrun. injection Hrun as <- _. exact HP. Qed.

Lemma returns_bind {A B : Type} (P : A -> Prop) (Q : B -> Prop)
    (m : M L A) (f : A -> M L B) :
  returns P m ->
  (forall a : A, P a -> returns Q (f a)) ->
  returns Q (m ≫= f).
Proof.
  intros Hm Hf w b w' Hrun.
  apply run_bind_inr in Hrun as (a & w1 & Hrun1 & Hrun2).
  exact (Hf a (Hm w a w1 Hrun1) w1 b w' Hrun2).
Qed.

Lemma returns_any {A : Type} (m : M L A) : returns (fun _ => True) m.
Proof. intros w a w' _. exact I. Qed.

Lemma returns_lift {A : Type} (P : A -> Prop) (r : result A) :
  (forall a : A, r = inr a -> P a) -> returns P (lift r : M L A).
Proof.
  intros HP w a w'. destruct r as [e|a']; simpl; intros Hrun.
  - discriminate Hrun.
  - injection Hrun as <- _. apply HP. reflexivity.
Qed.

Lemma returns_SAC_select_action (sac : SAC1d.SAC) (state : list (list R))
    (memory : SAC1d.Memory) :
  returns (fun am => SAC1d.costs (snd am) = SAC1d.costs memory
                     /\ SAC1d.is_terminals (snd am) = SAC1d.is_terminals memory)
          (SAC1d.select_action sac state memory).
Proof.
  unfold SAC1d.select_action, SAC1d.act.
  eapply returns_bind.
  - eapply returns_bind; [apply returns_any|]. intros noise _.
    eapply returns_bind; [apply returns_any|]. intros value _.
    apply (returns_ret
             (fun am => SAC1d.costs (snd am) = SAC1d.costs memory
                        /\ SAC1d.is_terminals (snd am) = SAC1d.is_terminals memory)).
    split; reflexivity.
  - intros am Ham. apply returns_ret. exact Ham.
Qed.

(** One timestep stores one cost and the current value of [done], and
    leaves [done] as it was. *)
Lemma returns_SAC_timestep (sac : SAC1d.SAC) (v : SAC1d.Main.Vars) :
  returns (fun v' =>
             SAC1d.Main.done v' = SAC1d.Main.done v
             /\ SAC1d.is_terminals (SAC1d.Main.memory v')
                = SAC1d.is_terminals (SAC1d.Main.memory v) ++ [SAC1d.Main.done v]
             /\ exists c : R,
                  SAC1d.costs (SAC1d.Main.memory v')
                  = SAC1d.costs (SAC1d.Main.memory v) ++ [c])
          (SAC1d.Main.timestep sac v).
Proof.
  unfold SAC1d.Main.timestep.
  eapply returns_bind; [apply returns_SAC_select_action|].
  intros am [Hcosts Hflags].
  eapply returns_bind; [apply returns_any|]. intros cost _.
  eapply returns_bind; [apply returns_any|]. intros state _.
  eapply returns_bind; [apply returns_any|]. intros c _.
  apply returns_ret. simpl. rewrite Hcosts, Hflags.
  split; [reflexivity|]. split; [reflexivity|]. exists c. reflexivity.
Qed.

Lemma returns_SAC_timesteps (sac : SAC1d.SAC) (n : nat) :
  forall v : SAC1d.Main.Vars,
    never_done v -> returns never_done (SAC1d.Main.timesteps sac n v).
Proof.
  induction n as [|n IH]; intros v Hv; simpl.
  - apply returns_ret. exact Hv.
  - eapply returns_bind; [apply returns_SAC_timestep|].
    intros v' (Hdone & Hflags & c & Hcosts).
    destruct Hv as (Hv & Hlen & Hall).
    assert (Hv' : never_done v').
    { unfold never_done. rewrite Hdone, Hflags, Hcosts, Hv, !length_app, Hlen.
      split; [reflexivity|]. split; [reflexivity|].
      apply Forall_app. split; [exact Hall|]. constructor; [reflexivity|constructor]. }
    destruct (SAC1d.Main.done v'); [apply returns_ret; exact Hv'|].
    apply IH. exact Hv'.
Qed.

End Returns.

Lemma SAC_update_costs_no_reset (sac : SAC1d.SAC) (memory : SAC1d.Memory) :
  length (SAC1d.costs memory) = length (SAC1d.is_terminals memory) ->
  Forall (eq false) (SAC1d.is_terminals memory) ->
  SAC1d.update_costs sac memory
  = returns_no_reset (SAC1d.gamma sac) (SAC1d.costs memory).
Proof.
  intros Hlen Hall. unfold SAC1d.update_costs.
  rewrite discount_fold_returns_spec by exact Hlen.
  apply returns_spec_no_reset; assumption.
Qed.

(** The variables at the start of the inner loop of an episode: [done]
    has just been set to [False], the memory is as [Memory.__init__] or
    [clear_memory] left it. *)
Lemma never_done_at_episode_start (state : list (list R)) (cost : option (list (list R)))
    (running_cost : R) (memory : SAC1d.Memory) :
  never_done (SAC1d.Main.mkVars state false cost running_cost SAC1d.Memory_init)
  /\ never_done (SAC1d.Main.mkVars state false cost running_cost
                                   (SAC1d.clear_memory memory)).
Proof. split; (split; [reflexivity|split; [reflexivity|constructor]]). Qed.



(** ** Runs that return

    On a library that never raises, the training loops run to their end:
    the shapes the NumPy operations insist on are invariants of the loops. *)

Section Succeeds.
Context {L : Type} `{!Library L}.
Hypothesis library_never_raises : never_raises L.

Lemma succeeds_ret {A : Type} (P : A -> Prop) (a : A) :
  P a -> succeeds P (mret a : M L A).
Proof. intros HP w. exists a, w. split; [reflexivity|exact HP]. Qed.

Lemma succeeds_bind {A B : Type} (P : A -> Prop) (Q : B -> Prop)
    (m : M L A) (f : A -> M L B) :
  succeeds P m ->
  (forall a : A, P a -> succeeds Q (f a)) ->
  succeeds Q (m ≫= f).
Proof.
  intros Hm Hf w.
  destruct (Hm w) as (a & w1 & Hrun1 & HP).
  destruct (Hf a HP w1) as (b & w2 & Hrun2 & HQ).
  exists b, w2. split; [|exact HQ].
  unfold mbind, M_bind. rewrite Hrun1. exact Hrun2.
Qed.

Lemma succeeds_then {A B : Type} (Q : B -> Prop) (m : M L A) (f : A -> M L B) :
  succeeds (fun _ => True) m ->
  (forall a : A, succeeds Q (f a)) ->
  succeeds Q (m ≫= f).
Proof. intros Hm Hf. apply (succeeds_bind (fun _ => True)); auto. Qed.

Lemma succeeds_weaken {A : Type} (P Q : A -> Prop) (m : M L A) :
  succeeds P m -> (forall a : A, P a -> Q a) -> succeeds Q m.
Proof.
  intros Hm HPQ w. destruct (Hm w) as (a & w' & Hrun & HP).
  exists a, w'. split; [exact Hrun|apply HPQ; exact HP].
Qed.

Lemma succeeds_call (o : op) (args : list R) :
  succeeds (fun _ => True) (call o args).
Proof.
  intros w. unfold call.
  destruct (library_never_raises o args (lib_state w)) as (rows & l & ->).
  eexists _, _. split; [reflexivity|exact I].
Qed.

Lemma succeeds_call1 (o : op) (args : list R) :
  succeeds (fun _ => True) (call1 o args).
Proof.
  unfold call1. apply succeeds_then; [apply succeeds_call|].
  intros rows. apply succeeds_ret. exact I.
Qed.

Lemma succeeds_call_ (o : op) (args : list R) :
  succeeds (fun _ => True) (call_ o args).
Proof.
  unfold call_. apply succeeds_then; [apply succeeds_call|].
  intros rows. apply succeeds_ret. exact I.
Qed.

Lemma succeeds_lift {A : Type} (r : result A) (a : A) :
  r = inr a -> succeeds (eq a) (lift r : M L A).
Proof. intros -> w. exists a, w. split; reflexivity. Qed.

Lemma succeeds_repeatM (n : nat) (body : M L unit) :
  succeeds (fun _ => True) body -> succeeds (fun _ => True) (repeatM n body).
Proof.
  intros Hbody. induction n as [|n IH]; simpl.
  - apply succeeds_ret. exact I.
  - apply succeeds_then; [exact Hbody|]. intros _. exact IH.
Qed.

Lemma succeeds_for_each {A B : Type} (f : A -> M L B) (l : list A) :
  (forall x : A, succeeds (fun _ => True) (f x)) ->
  succeeds (fun _ => True) (for_each f l).
Proof.
  intros Hf. induction l as [|x l IH]; simpl.
  - apply succeeds_ret. exact I.
  - apply succeeds_then; [apply Hf|]. intros y.
    apply succeeds_then; [exact IH|]. intros ys. apply succeeds_ret. exact I.
Qed.

End Succeeds.

Ltac succeeds_step :=
  first
    [ apply succeeds_ret; exact I
    | apply succeeds_call; assumption
    | apply succeeds_call1; assumption
    | apply succeeds_call_; assumption
    | solve [auto]
    | apply succeeds_then; [|intros ?]
    | progress cbv zeta ].

Ltac succeeds_tac := repeat succeeds_step.

Section SucceedsPPO.
Context {L : Type} `{!Library L}.
Hypothesis library_never_raises : never_raises L.

Lemma succeeds_PPO_double_weights (rows cols : nat) :
  succeeds (fun _ => True) (PPO1d.double_weights rows cols).
Proof. unfold PPO1d.double_weights. succeeds_tac. Qed.

Lemma succeeds_PPO_ActorCritic_init (state_dim action_dim n_latent_var : nat)
    (action_std : R) (double : bool) :
  succeeds (fun _ => True)
           (PPO1d.ActorCritic_init state_dim action_dim n_latent_var action_std double).
Proof.
  pose proof succeeds_PPO_double_weights.
  unfold PPO1d.ActorCritic_init. destruct double; succeeds_tac.
Qed.

Lemma succeeds_PPO_init (state_dim action_dim n_latent_var : nat)
    (action_std actor_lr critic_lr : R) (betas : R * R) (alpha gamma : R)
    (K_epochs : nat) (eps_clip : R) (double : bool) :
  succeeds (fun _ => True)
           (PPO1d.PPO_init state_dim action_dim n_latent_var action_std actor_lr
                           critic_lr betas alpha gamma K_epochs eps_clip double).
Proof.
  pose proof succeeds_PPO_ActorCritic_init.
  unfold PPO1d.PPO_init. succeeds_tac.
Qed.

(** [select_action] returns a one-entry action and leaves a memory whose
    states, actions and log-probabilities can be stacked. *)
Lemma succeeds_PPO_select_action (self : PPO1d.PPO) (state : list (list R))
    (memory : PPO1d.Memory) :
  succeeds (fun am => (exists a : R, fst am = [a])
                      /\ PPO1d.states (snd am) <> []
                      /\ PPO1d.actions (snd am) <> []
                      /\ PPO1d.logprobs (snd am) <> [])
           (PPO1d.select_action self state memory).
Proof.
  unfold PPO1d.select_action, PPO1d.act. cbv zeta.
  eapply succeeds_bind.
  - apply succeeds_then; [apply succeeds_call; assumption|]. intros action_mean.
    apply succeeds_then; [apply succeeds_call1; assumption|]. intros action.
    apply succeeds_then; [apply succeeds_call1; assumption|]. intros action_logprob.
    apply (succeeds_ret
             (fun am => (exists a : R, fst am = [[a]])
                        /\ PPO1d.states (snd am) <> []
                        /\ PPO1d.actions (snd am) <> []
                        /\ PPO1d.logprobs (snd am) <> [])).
    simpl. split; [exists action; reflexivity|].
    repeat split; intros Hnil; apply app_eq_nil in Hnil as [_ Hnil]; discriminate Hnil.
  - intros am ((a & Ha) & Hs & Hact & Hlp).
    apply succeeds_ret. rewrite Ha.
    split; [exists a; reflexivity|]. repeat split; assumption.
Qed.

Lemma succeeds_PPO_evaluate (self : PPO1d.ActorCritic) (state action : list (list (list R)))
    (alpha : R) :
  succeeds (fun _ => True) (PPO1d.evaluate self state action alpha).
Proof.
  unfold PPO1d.evaluate.
  apply succeeds_then; [apply succeeds_call; assumption|]. intros action_means.
  apply succeeds_then.
  - apply succeeds_for_each. intros xmu.
    apply succeeds_call1; assumption.
  - intros action_logprobs. succeeds_tac.
Qed.

Lemma stack_nonempty {A : Type} (tensors : list A) :
  tensors <> [] -> stack tensors = inr tensors.
Proof. destruct tensors; [congruence|reflexivity]. Qed.

Lemma succeeds_PPO_update_actor (self : PPO1d.PPO) (memory : PPO1d.Memory) :
  PPO1d.states memory <> [] ->
  PPO1d.actions memory <> [] ->
  PPO1d.logprobs memory <> [] ->
  succeeds (fun _ => True) (PPO1d.update_actor self memory).
Proof.
  intros Hs Ha Hlp. pose proof succeeds_PPO_evaluate.
  unfold PPO1d.update_actor. cbv zeta.
  apply succeeds_then; [apply succeeds_call1; assumption|]. intros mean.
  apply succeeds_then; [apply succeeds_call1; assumption|]. intros std.
  eapply succeeds_bind; [apply succeeds_lift, stack_nonempty, Hs|]. intros ? <-.
  eapply succeeds_bind; [apply succeeds_lift, stack_nonempty, Ha|]. intros ? <-.
  eapply succeeds_bind; [apply succeeds_lift, stack_nonempty, Hlp|]. intros ? <-.
  apply succeeds_then; [|intros _; apply succeeds_call_; assumption].
  apply succeeds_repeatM. succeeds_tac.
Qed.

Lemma succeeds_PPO_update_critic (self : PPO1d.PPO) (memory : PPO1d.Memory) :
  PPO1d.states memory <> [] ->
  succeeds (fun _ => True) (PPO1d.update_critic self memory).
Proof.
  intros Hs. unfold PPO1d.update_critic.
  eapply succeeds_bind; [apply succeeds_lift, stack_nonempty, Hs|]. intros ? <-.
  cbv zeta.
  apply succeeds_then; [apply succeeds_call1; assumption|]. intros mean.
  apply succeeds_then; [apply succeeds_call1; assumption|]. intros std.
  apply succeeds_repeatM. succeeds_tac.
Qed.

End SucceedsPPO.

Section SucceedsPPOMain.
Context {L : Type} `{!Library L}.
Hypothesis library_never_raises : never_raises L.

Lemma succeeds_PPO_timestep (ppo : PPO1d.PPO) (i : nat) (v : PPO1d.Main.Vars) :
  (exists x : R, PPO1d.Main.state v = [[x]]) ->
  succeeds (fun v' => (exists x : R, PPO1d.Main.state v' = [[x]])
                      /\ PPO1d.Main.t v' = Some i)
           (PPO1d.Main.timestep ppo i v).
Proof.
  intros [x Hx]. unfold PPO1d.Main.timestep. cbv zeta. rewrite Hx.
  eapply succeeds_bind; [apply succeeds_PPO_select_action; assumption|].
  intros am ((a & Ha) & Hs & Hact & Hlp). rewrite Ha.
  eapply succeeds_bind; [apply succeeds_lift, PPO_stage_cost_1x1|]. intros ? <-.
  eapply succeeds_bind; [apply succeeds_lift, PPO_next_state_1x1|]. intros ? <-.
  eapply succeeds_bind; [apply succeeds_lift; reflexivity|]. intros far _.
  eapply succeeds_bind; [apply succeeds_lift; reflexivity|]. intros ? <-.
  eapply succeeds_bind; [apply succeeds_lift; reflexivity|]. intros rem _.
  apply succeeds_then.
  - destruct (Nat.eqb rem 0).
    + apply succeeds_then; [apply succeeds_PPO_update_actor; assumption|]. intros _.
      apply succeeds_then; [apply succeeds_PPO_update_critic; assumption|]. intros _.
      apply succeeds_ret. exact I.
    + apply succeeds_ret. exact I.
  - intros mt.
    eapply succeeds_bind; [apply succeeds_lift; reflexivity|]. intros ? <-.
    apply succeeds_ret. simpl. split; [eexists; reflexivity|reflexivity].
Qed.

Lemma succeeds_PPO_timesteps (ppo : PPO1d.PPO) (n : nat) :
  forall (i : nat) (v : PPO1d.Main.Vars),
    stepped v -> succeeds stepped (PPO1d.Main.timesteps ppo n i v).
Proof.
  induction n as [|n IH]; intros i v Hv; simpl.
  - apply succeeds_ret. exact Hv.
  - eapply succeeds_bind; [apply succeeds_PPO_timestep, Hv|].
    intros v' [Hstate Ht].
    assert (Hv' : stepped v') by (split; [exact Hstate|rewrite Ht; eexists; reflexivity]).
    destruct (PPO1d.Main.done v'); [apply succeeds_ret; exact Hv'|].
    apply IH. exact Hv'.
Qed.

(** The loop body runs at least once, so [t] is bound after the loop. *)
Lemma succeeds_PPO_timesteps_S (ppo : PPO1d.PPO) (n i : nat) (v : PPO1d.Main.Vars) :
  (exists x : R, PPO1d.Main.state v = [[x]]) ->
  succeeds stepped (PPO1d.Main.timesteps ppo (S n) i v).
Proof.
  intros Hv. simpl.
  eapply succeeds_bind; [apply succeeds_PPO_timestep, Hv|].
  intros v' [Hstate Ht].
  assert (Hv' : stepped v') by (split; [exact Hstate|rewrite Ht; eexists; reflexivity]).
  destruct (PPO1d.Main.done v'); [apply succeeds_ret; exact Hv'|].
  apply succeeds_PPO_timesteps. exact Hv'.
Qed.

Lemma succeeds_PPO_episode (ppo : PPO1d.PPO) (i_episode : nat) (v : PPO1d.Main.Vars) :
  succeeds (fun _ => True) (PPO1d.Main.episode ppo i_episode v).
Proof.
  unfold PPO1d.Main.episode.
  apply succeeds_then; [apply succeeds_call1; assumption|]. intros x. cbv zeta.
  change PPO1d.Main.max_timesteps with (S 99).
  eapply succeeds_bind.
  { apply succeeds_PPO_timesteps_S. eexists. reflexivity. }
  intros v' [_ [last_t Ht]]. rewrite Ht.
  eapply succeeds_bind; [apply succeeds_lift; reflexivity|]. intros ? <-.
  eapply succeeds_bind; [apply succeeds_lift; reflexivity|]. intros rem _.
  destruct (Nat.eqb rem 0); succeeds_tac.
Qed.

Lemma succeeds_PPO_episodes (ppo : PPO1d.PPO) (n : nat) :
  forall (i_episode : nat) (v : PPO1d.Main.Vars),
    succeeds (fun _ => True) (PPO1d.Main.episodes ppo n i_episode v).
Proof.
  induction n as [|n IH]; intros i_episode v; simpl.
  - apply succeeds_ret. exact I.
  - apply succeeds_then; [apply succeeds_PPO_episode|]. intros v'. apply IH.
Qed.

Lemma succeeds_PPO_training (ppo : PPO1d.PPO) (v : PPO1d.Main.Vars) :
  succeeds (fun _ => True) (PPO1d.Main.training ppo v).
Proof. apply succeeds_PPO_episodes. Qed.

Lemma succeeds_PPO_setup : succeeds (fun _ => True) PPO1d.Main.setup.
Proof.
  pose proof (succeeds_PPO_init library_never_raises).
  unfold PPO1d.Main.setup. simpl. succeeds_tac.
Qed.

Lemma succeeds_PPO_compare_paths (x_sim x_star : list R) (ylabel : string) :
  succeeds (fun _ => True) (PPO1d.Main.compare_paths x_sim x_star ylabel).
Proof. unfold PPO1d.Main.compare_paths. succeeds_tac. Qed.

Lemma succeeds_PPO_compare_V (A B Q R' : list (list R)) (K : R) (T : nat)
    (gamma alpha low high : R) :
  succeeds (fun _ => True) (PPO1d.Main.compare_V A B Q R' K T gamma alpha low high).
Proof. unfold PPO1d.Main.compare_V. succeeds_tac. Qed.

Hypothesis library_actor_answers_one : actor_answers_one L.

Lemma succeeds_call_actor (args : list R) :
  succeeds (fun rows => exists x : R, rows = [[x]]) (call OpActor args).
Proof.
  intros w. unfold call.
  destruct (library_actor_answers_one args (lib_state w)) as (x & l & ->).
  eexists _, _. split; [reflexivity|]. exists x. reflexivity.
Qed.

Lemma succeeds_PPO_simulate_loop (T : nat) :
  forall (x u : R) (x_data u_data : list R),
    succeeds (fun _ => True)
             (PPO1d.Main.simulate_loop PPO1d.Main.A PPO1d.Main.B T [x] [u] x_data u_data).
Proof.
  induction T as [|T IH]; intros x u x_data u_data; simpl.
  - apply succeeds_ret. exact I.
  - eapply succeeds_bind; [apply succeeds_lift; reflexivity|]. intros ? <-.
    eapply succeeds_bind; [apply succeeds_lift; reflexivity|]. intros ? <-.
    eapply succeeds_bind; [apply succeeds_call_actor|]. intros ? [u' ->].
    eapply succeeds_bind; [apply succeeds_lift; reflexivity|]. intros ? <-.
    eapply succeeds_bind; [apply succeeds_lift; reflexivity|]. intros ? <-.
    eapply succeeds_bind; [apply succeeds_lift; reflexivity|]. intros ? <-.
    apply IH.
Qed.

Lemma succeeds_PPO_comparison (K : R) :
  succeeds (fun _ => True) (PPO1d.Main.comparison K).
Proof.
  pose proof succeeds_PPO_compare_paths.
  pose proof succeeds_PPO_compare_V.
  unfold PPO1d.Main.comparison, PPO1d.Main.simulate.
  apply succeeds_then; [apply succeeds_call1; assumption|]. intros x. cbv zeta.
  eapply succeeds_bind; [apply succeeds_lift; reflexivity|]. intros ? <-.
  eapply succeeds_bind; [apply succeeds_lift; reflexivity|]. intros ? <-.
  apply succeeds_then; [apply succeeds_call; assumption|]. intros star.
  apply succeeds_then; [apply succeeds_PPO_simulate_loop|]. intros sim.
  succeeds_tac.
Qed.

Lemma succeeds_PPO_main (argv : list string) (environ : list (string * string)) :
  succeeds (fun _ => True) (PPO1d.Main.main argv environ).
Proof.
  unfold PPO1d.Main.main.
  apply succeeds_then; [apply succeeds_PPO_setup|]. intros kpv.
  apply succeeds_then; [apply succeeds_PPO_training|]. intros v.
  apply succeeds_PPO_comparison.
Qed.

End SucceedsPPOMain.

Section SucceedsSAC.
Context {L : Type} `{!Library L}.
Hypothesis library_never_raises : never_raises L.

Lemma succeeds_SAC_Model_init (state_dim action_dim n_latent_var : nat) (tau : R) :
  succeeds (fun _ => True) (SAC1d.Model_init state_dim action_dim n_latent_var tau).
Proof. unfold SAC1d.Model_init. succeeds_tac. Qed.

Lemma succeeds_SAC_init (state_dim action_dim n_latent_var : nat) (tau lr : R)
    (betas : R * R) (gamma : R) (K_epochs : nat) :
  succeeds (fun _ => True)
           (SAC1d.SAC_init state_dim action_dim n_latent_var tau lr betas gamma K_epochs).
Proof.
  pose proof succeeds_SAC_Model_init.
  unfold SAC1d.SAC_init. succeeds_tac.
Qed.

Lemma succeeds_SAC_select_action (self : SAC1d.SAC) (state : list (list R))
    (memory : SAC1d.Memory) :
  succeeds (fun am => (exists a : R, fst am = [a])
                      /\ SAC1d.states (snd am) <> []
                      /\ SAC1d.actions (snd am) <> [])
           (SAC1d.select_action self state memory).
Proof.
  unfold SAC1d.select_action, SAC1d.act. cbv zeta.
  eapply succeeds_bind.
  - apply succeeds_then; [apply succeeds_call; assumption|]. intros noise.
    apply succeeds_then; [apply succeeds_call1; assumption|]. intros value.
    apply (succeeds_ret
             (fun am => (exists a : R, fst am = [[a]])
                        /\ SAC1d.states (snd am) <> []
                        /\ SAC1d.actions (snd am) <> [])).
    simpl. split; [eexists; reflexivity|].
    split; intros Hnil; apply app_eq_nil in Hnil as [_ Hnil]; discriminate Hnil.
  - intros am ((a & Ha) & Hs & Hact).
    apply succeeds_ret. rewrite Ha.
    split; [exists a; reflexivity|]. split; assumption.
Qed.

Lemma succeeds_SAC_update (self : SAC1d.SAC) (memory : SAC1d.Memory) :
  SAC1d.states memory <> [] ->
  SAC1d.actions memory <> [] ->
  succeeds (fun _ => True) (SAC1d.update self memory).
Proof.
  intros Hs Ha. unfold SAC1d.update, SAC1d.evaluate. cbv zeta.
  eapply succeeds_bind; [apply succeeds_lift, stack_nonempty, Hs|]. intros ? <-.
  eapply succeeds_bind; [apply succeeds_lift, stack_nonempty, Ha|]. intros ? <-.
  apply succeeds_then; [|intros _; apply succeeds_call_; assumption].
  apply succeeds_repeatM. succeeds_tac.
Qed.

Lemma succeeds_SAC_timestep (sac : SAC1d.SAC) (v : SAC1d.Main.Vars) :
  (exists x : R, SAC1d.Main.state v = [[x]]) ->
  succeeds costed (SAC1d.Main.timestep sac v).
Proof.
  intros [x Hx]. unfold SAC1d.Main.timestep. cbv zeta. rewrite Hx.
  eapply succeeds_bind; [apply succeeds_SAC_select_action; assumption|].
  intros am ((a & Ha) & Hs & Hact). rewrite Ha.
  eapply succeeds_bind; [apply succeeds_lift, SAC_stage_cost_1x1|]. intros ? <-.
  eapply succeeds_bind; [apply succeeds_lift, SAC_next_state_1x1|]. intros ? <-.
  eapply succeeds_bind; [apply succeeds_lift; reflexivity|]. intros ? <-.
  apply succeeds_ret. unfold costed. simpl.
  split; [eexists; reflexivity|]. split; [eexists; reflexivity|].
  split; assumption.
Qed.

Lemma succeeds_SAC_timesteps (sac : SAC1d.SAC) (n : nat) :
  forall v : SAC1d.Main.Vars,
    costed v -> succeeds costed (SAC1d.Main.timesteps sac n v).
Proof.
  induction n as [|n IH]; intros v Hv; simpl.
  - apply succeeds_ret. exact Hv.
  - eapply succeeds_bind; [apply succeeds_SAC_timestep, Hv|].
    intros v' Hv'.
    destruct (SAC1d.Main.done v'); [apply succeeds_ret; exact Hv'|].
    apply IH. exact Hv'.
Qed.

(** The loop body runs at least once, so [cost] is bound after the loop
    and the memory handed to [update] is not empty. *)
Lemma succeeds_SAC_timesteps_S (sac : SAC1d.SAC) (n : nat) (v : SAC1d.Main.Vars) :
  (exists x : R, SAC1d.Main.state v = [[x]]) ->
  succeeds costed (SAC1d.Main.timesteps sac (S n) v).
Proof.
  intros Hv. simpl.
  eapply succeeds_bind; [apply succeeds_SAC_timestep, Hv|].
  intros v' Hv'.
  destruct (SAC1d.Main.done v'); [apply succeeds_ret; exact Hv'|].
  apply succeeds_SAC_timesteps. exact Hv'.
Qed.

Lemma succeeds_SAC_episode (sac : SAC1d.SAC) (i_episode : nat) (v : SAC1d.Main.Vars) :
  succeeds (fun _ => True) (SAC1d.Main.episode sac i_episode v).
Proof.
  unfold SAC1d.Main.episode.
  apply succeeds_then; [apply succeeds_call1; assumption|]. intros x. cbv zeta.
  change SAC1d.Main.max_timesteps with (S 9).
  eapply succeeds_bind.
  { apply succeeds_SAC_timesteps_S. eexists. reflexivity. }
  intros v' (_ & [c Hc] & Hs & Ha). rewrite Hc.
  apply succeeds_then; [apply succeeds_SAC_update; assumption|]. intros _.
  eapply succeeds_bind; [apply succeeds_lift; reflexivity|]. intros ? <-.
  eapply succeeds_bind; [apply succeeds_lift; reflexivity|]. intros ? <-.
  eapply succeeds_bind; [apply succeeds_lift; reflexivity|]. intros rem _.
  destruct (Nat.eqb rem 0); succeeds_tac.
Qed.

Lemma succeeds_SAC_episodes (sac : SAC1d.SAC) (n : nat) :
  forall (i_episode : nat) (v : SAC1d.Main.Vars),
    succeeds (fun _ => True) (SAC1d.Main.episodes sac n i_episode v).
Proof.
  induction n as [|n IH]; intros i_episode v; simpl.
  - apply succeeds_ret. exact I.
  - apply succeeds_then; [apply succeeds_SAC_episode|]. intros v'. apply IH.
Qed.

Lemma succeeds_SAC_training (sac : SAC1d.SAC) (v : SAC1d.Main.Vars) :
  succeeds (fun _ => True) (SAC1d.Main.training sac v).
Proof. apply succeeds_SAC_episodes. Qed.

Lemma succeeds_SAC_setup : succeeds (fun _ => True) SAC1d.Main.setup.
Proof.
  pose proof succeeds_SAC_init.
  unfold SAC1d.Main.setup. simpl. succeeds_tac.
Qed.

Lemma succeeds_SAC_optimal_control :
  succeeds (fun _ => True) SAC1d.Main.optimal_control.
Proof. unfold SAC1d.Main.optimal_control. succeeds_tac. Qed.

Lemma succeeds_SAC_main (argv : list string) (environ : list (string * string)) :
  succeeds (fun _ => True) (SAC1d.Main.main argv environ).
Proof.
  unfold SAC1d.Main.main.
  apply succeeds_then; [apply succeeds_SAC_setup|]. intros sv.
  apply succeeds_then; [apply succeeds_SAC_training|]. intros v.
  apply succeeds_then; [apply succeeds_SAC_optimal_control|]. intros kp.
  apply succeeds_ret. exact I.
Qed.

End SucceedsSAC.

Lemma quiet_never_raises : never_raises unit.
Proof. intros o args l. exists [[0]], l. reflexivity. Qed.

Lemma quiet_actor_answers_one : actor_answers_one unit.
Proof. intros args l. exists 0, l. reflexivity. Qed.

Lemma succeeds_outcome {L : Type} `{!Library L} (m : M L unit) (l : L) :
  succeeds (fun _ => True) m -> outcome m l = inr tt.
Proof.
  intros Hm. unfold outcome, run.
  destruct (Hm (World l [])) as ([] & w' & -> & _). reflexivity.
Qed.

(** ** The comparison with the optimal controller *)

Lemma PPO_main_events {L : Type} `{!Library L} (argv : list string)
    (environ : list (string * string)) (l : L) :
  outcome (PPO1d.Main.main argv environ) l = inr tt ->
  exists train_ops : list op,
    forallb training_op train_ops = true
    /\ events (PPO1d.Main.main argv environ) l
       = map Call (PPO_setup_ops ++ train_ops ++ PPO_comparison_ops).
Proof.
  unfold outcome, events, run. intros Hout.
  destruct (PPO1d.Main.main argv environ (World l [])) as [[e|[]] w3] eqn:Hrun;
    [discriminate Hout|].
  unfold PPO1d.Main.main in Hrun.
  apply run_bind_inr in Hrun as (kpv & w1 & Hsetup & Hrun).
  apply run_bind_inr in Hrun as (v & w2 & Htraining & Hcomparison).
  destruct (behaves_PPO_training training_op (fun o Ho => Ho)
              (snd (fst kpv)) (snd kpv) w1) as (train_ops & Hall & Htrace).
  rewrite Htraining in Htrace.
  exists train_ops. split; [exact Hall|].
  cbn [snd].
  rewrite (emits_PPO_comparison _ _ _ _ Hcomparison), Htrace,
    (emits_PPO_setup _ _ _ Hsetup).
  cbn [trace]. rewrite app_nil_l, !map_app, <- !app_assoc. reflexivity.
Qed.

Lemma SAC_main_events {L : Type} `{!Library L} (argv : list string)
    (environ : list (string * string)) (l : L) :
  outcome (SAC1d.Main.main argv environ) l = inr tt ->
  exists train_ops : list op,
    forallb training_op train_ops = true
    /\ events (SAC1d.Main.main argv environ) l
       = map Call (SAC_setup_ops ++ train_ops ++ SAC_optimal_control_ops).
Proof.
  unfold outcome, events, run. intros Hout.
  destruct (SAC1d.Main.main argv environ (World l [])) as [[e|[]] w4] eqn:Hrun;
    [discriminate Hout|].
  unfold SAC1d.Main.main in Hrun.
  apply run_bind_inr in Hrun as (sv & w1 & Hsetup & Hrun).
  apply run_bind_inr in Hrun as (v & w2 & Htraining & Hrun).
  apply run_bind_inr in Hrun as (kp & w3 & Hoptimal & Hret).
  injection Hret as <-.
  destruct (behaves_SAC_training training_op (fun o Ho => Ho)
              (fst sv) (snd sv) w1) as (train_ops & Hall & Htrace).
  rewrite Htraining in Htrace.
  exists train_ops. split; [exact Hall|].
  cbn [snd].
  rewrite (emits_SAC_optimal_control _ _ _ Hoptimal), Htrace,
    (emits_SAC_setup _ _ _ Hsetup).
  cbn [trace]. rewrite app_nil_l, !map_app, <- !app_assoc. reflexivity.
Qed.

Lemma SAC_main_plots_nothing {L : Type} `{!Library L} (argv : list string)
    (environ : list (string * string)) (l : L) (label : string) :
  Call (OpPlot label) ∉ events (SAC1d.Main.main argv environ) l.
Proof.
  intros Hin.
  pose proof (behaves_calls_allowed plot_free _ l (OpPlot label)
                (behaves_SAC_main plot_free (fun o Ho => Ho) argv environ) Hin) as Hplot.
  discriminate Hplot.
Qed.

(** C2, as stated, fails for the SAC script: on a library that answers
    every call, the script runs to its end, and nowhere in the run is a
    curve plotted after [control.dlqr], since nothing is plotted at all. *)
Lemma SAC_script_compares_nothing :
  outcome (SAC1d.Main.main [] []) tt = inr tt
  /\ ~ compares_after_training (events (SAC1d.Main.main [] []) tt).
Proof.
  split.
  - apply succeeds_outcome, succeeds_SAC_main, quiet_never_raises.
  - intros (before & after & label & Hevents & Hin).
    apply (SAC_main_plots_nothing [] [] tt label).
    rewrite Hevents. apply elem_of_app. right. apply elem_of_cons. right. exact Hin.
Qed.

(** C2, amended: a run of the PPO script that returns consists of the
    set-up, which ends with the call of [control.dlqr] and the making of
    the agent, then of training operations, then of the comparison: the
    simulation of both controllers, the two path plots and the value
    function plot.  A run of the SAC script that returns consists of the
    set-up, of training operations, and of the call of [control.dlqr]
    preceded by the draw of [x0]; no run of the SAC script plots
    anything. *)
Theorem comparison_only_in_PPO {L : Type} `{!Library L} (argv : list string)
    (environ : list (string * string)) (l : L) :
  (outcome (PPO1d.Main.main argv environ) l = inr tt ->
   exists train_ops : list op,
     forallb training_op train_ops = true
     /\ events (PPO1d.Main.main argv environ) l
        = map Call (PPO_setup_ops ++ train_ops ++ PPO_comparison_ops))
  /\ (outcome (SAC1d.Main.main argv environ) l = inr tt ->
      exists train_ops : list op,
        forallb training_op train_ops = true
        /\ events (SAC1d.Main.main argv environ) l
           = map Call (SAC_setup_ops ++ train_ops ++ SAC_optimal_control_ops))
  /\ (forall label : string,
        Call (OpPlot label) ∉ events (SAC1d.Main.main argv environ) l).
Proof.
  split; [apply PPO_main_events|].
  split; [apply SAC_main_events|].
  intros label. apply SAC_main_plots_nothing.
Qed.

Lemma comparison_only_in_PPO_witness :
  outcome (PPO1d.Main.main [] []) tt = inr tt
  /\ outcome (SAC1d.Main.main [] []) tt = inr tt
  /\ (exists train_ops : list op,
        forallb training_op train_ops = true
        /\ events (PPO1d.Main.main [] []) tt
           = map Call (PPO_setup_ops ++ train_ops ++ PPO_comparison_ops))
  /\ (exists train_ops : list op,
        forallb training_op train_ops = true
        /\ events (SAC1d.Main.main [] []) tt
           = map Call (SAC_setup_ops ++ train_ops ++ SAC_optimal_control_ops)).
Proof.
  assert (HPPO : outcome (PPO1d.Main.main [] []) tt = inr tt).
  { apply succeeds_outcome, succeeds_PPO_main;
      [exact quiet_never_raises|exact quiet_actor_answers_one]. }
  assert (HSAC : outcome (SAC1d.Main.main [] []) tt = inr tt).
  { apply succeeds_outcome, succeeds_SAC_main, quiet_never_raises. }
  split; [exact HPPO|]. split; [exact HSAC|].
  destruct (comparison_only_in_PPO [] [] tt) as (HP & HS & _).
  split; [exact (HP HPPO)|exact (HS HSAC)].
Defined.

(** * Further properties of the code *)

(** ** The discounted-return loop on arbitrary lists *)

Lemma zip_rev_suffix {A B : Type} (a1 a2 : list A) (b1 b2 : list B) :
  length a2 = length b2 ->
  a1 = [] \/ b1 = [] ->
  zip (rev (a1 ++ a2)) (rev (b1 ++ b2)) = zip (rev a2) (rev b2).
Proof.
  intros Hlen Hnil. rewrite !rev_app_distr.
  rewrite zip_with_app by (rewrite !length_rev; exact Hlen).
  destruct Hnil as [-> | ->]; simpl.
  - apply app_nil_r.
  - destruct (rev a1); apply app_nil_r.
Qed.

Lemma returns_spec_length (gamma : R) (rewards : list R) :
  forall is_terminals : list bool,
    length (returns_spec gamma rewards is_terminals)
    = Nat.min (length rewards) (length is_terminals).
Proof.
  induction rewards as [|reward rewards IH]; intros [|is_terminal is_terminals];
    simpl; try reflexivity.
  rewrite IH. reflexivity.
Qed.

Lemma discount_fold_suffix (gamma : R) (rewards : list R) (is_terminals : list bool) :
  snd (fold_left (discount_step gamma) (zip (rev rewards) (rev is_terminals)) (0, []))
  = returns_spec gamma
      (drop (length rewards - length is_terminals) rewards)
      (drop (length is_terminals - length rewards) is_terminals).
Proof.
  pose proof (zip_rev_suffix
                (take (length rewards - length is_terminals) rewards)
                (drop (length rewards - length is_terminals) rewards)
                (take (length is_terminals - length rewards) is_terminals)
                (drop (length is_terminals - length rewards) is_terminals)) as Hzip.
  rewrite !take_drop in Hzip. rewrite Hzip.
  - rewrite discount_fold_returns_spec; [reflexivity|].
    rewrite !length_drop. lia.
  - rewrite !length_drop. lia.
  - destruct (Nat.le_ge_cases (length rewards) (length is_terminals)) as [Hle|Hle].
    + left. replace (length rewards - length is_terminals)%nat with 0%nat by lia.
      reflexivity.
    + right. replace (length is_terminals - length rewards)%nat with 0%nat by lia.
      reflexivity.
Qed.

(** X1: when [rewards] and [is_terminals] differ in length, the loops of
    [PPO.update_actor] and [SAC.update] pair the lists from their ends
    ([zip] of the two reversed lists): the result is the recurrence on
    the trailing parts of common length, and has that length. *)
Theorem discounted_rewards_align_at_end :
  (forall (self : PPO1d.PPO) (memory : PPO1d.Memory),
      let n := length (PPO1d.rewards memory) in
      let m := length (PPO1d.is_terminals memory) in
      PPO1d.update_actor_rewards self memory
      = returns_spec (PPO1d.gamma self)
          (drop (n - m) (PPO1d.rewards memory))
          (drop (m - n) (PPO1d.is_terminals memory))
      /\ length (PPO1d.update_actor_rewards self memory) = Nat.min n m)
  /\ (forall (self : SAC1d.SAC) (memory : SAC1d.Memory),
         let n := length (SAC1d.costs memory) in
         let m := length (SAC1d.is_terminals memory) in
         SAC1d.update_costs self memory
         = returns_spec (SAC1d.gamma self)
             (drop (n - m) (SAC1d.costs memory))
             (drop (m - n) (SAC1d.is_terminals memory))
         /\ length (SAC1d.update_costs self memory) = Nat.min n m).
Proof.
  split; intros self memory n m.
  - unfold PPO1d.update_actor_rewards. rewrite discount_fold_suffix.
    split; [reflexivity|].
    rewrite returns_spec_length, !length_drop. subst n m. lia.
  - unfold SAC1d.update_costs. rewrite discount_fold_suffix.
    split; [reflexivity|].
    rewrite returns_spec_length, !length_drop. subst n m. lia.
Qed.

Lemma returns_spec_nonempty (gamma : R) (reward : R) (rewards : list R)
    (is_terminal : bool) (is_terminals : list bool) (rest : list R) :
  hd 0 (returns_spec gamma (reward :: rewards) (is_terminal :: is_terminals) ++ rest)
  = hd 0 (returns_spec gamma (reward :: rewards) (is_terminal :: is_terminals)).
Proof. reflexivity. Qed.

Lemma returns_spec_app_terminal (gamma : R) (r1 : list R) :
  forall (t1 : list bool) (r2 : list R) (t2 : list bool),
    length r1 = length t1 ->
    last t1 = Some true ->
    returns_spec gamma (r1 ++ r2) (t1 ++ t2)
    = returns_spec gamma r1 t1 ++ returns_spec gamma r2 t2.
Proof.
  induction r1 as [|reward r1 IH]; intros [|flag t1] r2 t2 Hlen Hlast;
    simpl in Hlen; try discriminate.
  injection Hlen as Hlen.
  destruct r1 as [|reward' r1]; destruct t1 as [|flag' t1]; simpl in Hlen;
    try discriminate.
  - simpl in Hlast. injection Hlast as ->. reflexivity.
  - assert (Hlast' : last (flag' :: t1) = Some true) by exact Hlast.
    specialize (IH (flag' :: t1) r2 t2 Hlen Hlast').
    change (returns_spec gamma ((reward :: reward' :: r1) ++ r2)
                         ((flag :: flag' :: t1) ++ t2))
      with ((reward + gamma * (if flag then 0
                               else hd 0 (returns_spec gamma ((reward' :: r1) ++ r2)
                                                       ((flag' :: t1) ++ t2))))
            :: returns_spec gamma ((reward' :: r1) ++ r2) ((flag' :: t1) ++ t2)).
    rewrite IH, returns_spec_nonempty. reflexivity.
Qed.

(** X2: a terminal flag isolates the episodes of a batch.  If the stored
    rewards are those of a first part whose last flag is [True] followed
    by a second part, the discounted rewards of [PPO.update_actor] are
    those of the first part alone followed by those of the second part
    alone. *)
Theorem terminal_flag_isolates_episodes (self : PPO1d.PPO)
    (actions states : list (list (list R))) (logprobs : list R)
    (r1 r2 : list R) (t1 t2 : list bool) :
  length r1 = length t1 ->
  length r2 = length t2 ->
  last t1 = Some true ->
  PPO1d.update_actor_rewards self
    (PPO1d.mkMemory actions states logprobs (r1 ++ r2) (t1 ++ t2))
  = PPO1d.update_actor_rewards self (PPO1d.mkMemory actions states logprobs r1 t1)
    ++ PPO1d.update_actor_rewards self (PPO1d.mkMemory actions states logprobs r2 t2).
Proof.
  intros Hlen1 Hlen2 Hlast.
  unfold PPO1d.update_actor_rewards. simpl.
  rewrite !discount_fold_returns_spec
    by (rewrite ?length_app; auto with lia).
  simpl. apply returns_spec_app_terminal; assumption.
Qed.

Lemma terminal_flag_isolates_episodes_witness :
  let self := PPO1d.mkPPO (0.9, 0.999) 0.99 100 0.2 10
                          (PPO1d.mkActorCritic 0.01) (PPO1d.mkActorCritic 0.01) in
  PPO1d.update_actor_rewards self
    (PPO1d.mkMemory [] [] [] ([1; 2] ++ [3]) ([false; true] ++ [false]))
  = PPO1d.update_actor_rewards self (PPO1d.mkMemory [] [] [] [1; 2] [false; true])
    ++ PPO1d.update_actor_rewards self (PPO1d.mkMemory [] [] [] [3] [false]).
Proof.
  intros self.
  apply (terminal_flag_isolates_episodes self [] [] [] [1; 2] [3] [false; true] [false]);
    reflexivity.
Defined.

Lemma returns_spec_lookup (gamma : R) (rewards : list R) :
  forall (is_terminals : list bool) (i : nat) (reward : R) (flag : bool),
    length rewards = length is_terminals ->
    rewards !! i = Some reward ->
    is_terminals !! i = Some flag ->
    returns_spec gamma rewards is_terminals !! i
    = Some (reward + gamma * (if flag then 0
                              else default 0 (returns_spec gamma rewards is_terminals
                                                !! S i))).
Proof.
  induction rewards as [|r rewards IH]; intros [|f is_terminals] i reward flag Hlen Hr Hf;
    simpl in Hlen; try discriminate.
  injection Hlen as Hlen.
  destruct i as [|i].
  - simpl in Hr, Hf. injection Hr as ->. injection Hf as ->.
    simpl. do 3 f_equal. destruct flag; [reflexivity|].
    destruct (returns_spec gamma rewards is_terminals); reflexivity.
  - simpl in Hr, Hf. exact (IH is_terminals i reward flag Hlen Hr Hf).
Qed.

(** X3: entry [i] of the discounted rewards of [PPO.update_actor] is
    [reward i + gamma * next], where [next] is 0 if flag [i] is [True] or
    if [i] is the last index, and entry [i+1] otherwise, whichever episode
    entry [i+1] was stored in: an episode that ends without its flag set
    takes over the return of the episode stored after it. *)
Theorem discounted_reward_recurrence (self : PPO1d.PPO) (memory : PPO1d.Memory)
    (i : nat) (reward : R) (flag : bool) :
  length (PPO1d.rewards memory) = length (PPO1d.is_terminals memory) ->
  PPO1d.rewards memory !! i = Some reward ->
  PPO1d.is_terminals memory !! i = Some flag ->
  PPO1d.update_actor_rewards self memory !! i
  = Some (reward
          + PPO1d.gamma self
            * (if flag then 0
               else default 0 (PPO1d.update_actor_rewards self memory !! S i))).
Proof.
  intros Hlen Hr Hf. unfold PPO1d.update_actor_rewards.
  rewrite discount_fold_returns_spec by exact Hlen. simpl.
  apply returns_spec_lookup; assumption.
Qed.

Lemma discounted_reward_recurrence_witness :
  let self := PPO1d.mkPPO (0.9, 0.999) 0.99 100 0.2 10
                          (PPO1d.mkActorCritic 0.01) (PPO1d.mkActorCritic 0.01) in
  let memory := PPO1d.mkMemory [] [] [] [1; 2; 3] [false; false; true] in
  PPO1d.update_actor_rewards self memory !! 1%nat
  = Some (2 + 0.99 * default 0 (PPO1d.update_actor_rewards self memory !! 2%nat)).
Proof.
  intros self memory.
  apply (discounted_reward_recurrence self memory 1 2 false); reflexivity.
Defined.

Lemma returns_no_reset_drop (gamma : R) (costs : list R) :
  forall i : nat,
    drop i (returns_no_reset gamma costs) = returns_no_reset gamma (drop i costs).
Proof.
  induction costs as [|cost costs IH]; intros [|i]; try reflexivity.
  simpl. apply IH.
Qed.

Lemma returns_no_reset_one_hd (costs : list R) :
  hd 0 (returns_no_reset 1 costs) = foldr Rplus 0 costs.
Proof.
  induction costs as [|cost costs IH]; [reflexivity|].
  simpl. rewrite IH. ring.
Qed.

Lemma lookup_hd_drop (l : list R) (i : nat) :
  (i < length l)%nat -> l !! i = Some (hd 0 (drop i l)).
Proof.
  revert i. induction l as [|x l IH]; intros [|i] Hi; simpl in *; try lia.
  - reflexivity.
  - apply IH. lia.
Qed.

Lemma returns_no_reset_length (gamma : R) (costs : list R) :
  length (returns_no_reset gamma costs) = length costs.
Proof.
  induction costs as [|cost costs IH]; simpl; [reflexivity|].
  rewrite IH. reflexivity.
Qed.

Lemma SAC_gamma_is_one : SAC1d.Main.gamma = 1.
Proof. unfold SAC1d.Main.gamma. lra. Qed.

(** X4: with the discount factor of the SAC script, [gamma = 1.00], and
    flags that are all [False], entry [i] of the discounted costs of
    [SAC.update] is the plain sum of the costs stored from index [i] on. *)
Theorem SAC_discounted_costs_are_suffix_sums (self : SAC1d.SAC)
    (memory : SAC1d.Memory) (i : nat) :
  SAC1d.gamma self = SAC1d.Main.gamma ->
  length (SAC1d.costs memory) = length (SAC1d.is_terminals memory) ->
  Forall (eq false) (SAC1d.is_terminals memory) ->
  (i < length (SAC1d.costs memory))%nat ->
  SAC1d.update_costs self memory !! i
  = Some (foldr Rplus 0 (drop i (SAC1d.costs memory))).
Proof.
  intros Hgamma Hlen Hall Hi.
  rewrite SAC_update_costs_no_reset by assumption.
  rewrite Hgamma, SAC_gamma_is_one.
  rewrite lookup_hd_drop.
  - rewrite returns_no_reset_drop, returns_no_reset_one_hd. reflexivity.
  - rewrite returns_no_reset_length. exact Hi.
Qed.

Lemma SAC_discounted_costs_are_suffix_sums_witness :
  let self := SAC1d.mkSAC (0.9, 0.999) SAC1d.Main.gamma 0.05 10
                          (SAC1d.mkModel 0.05 1 1) (SAC1d.mkModel 0.05 1 1) in
  let memory := SAC1d.mkMemory [] [] [] [4; 5; 6] [false; false; false] in
  SAC1d.update_costs self memory !! 1%nat = Some (foldr Rplus 0 [5; 6]).
Proof.
  intros self memory.
  apply (SAC_discounted_costs_are_suffix_sums self memory 1).
  - reflexivity.
  - reflexivity.
  - repeat constructor.
  - simpl. lia.
Defined.

(** ** The surrogate of [PPO.update_actor] by the sign of the advantage *)

(** X5: the loss of one sample in [PPO.update_actor] is
    [min(ratio, 1 - eps_clip) * advantage] for a positive advantage,
    [max(ratio, 1 + eps_clip) * advantage] for a negative one and 0 for
    advantage 0: for a positive advantage it no longer depends on the
    ratio once the ratio exceeds [1 - eps_clip]. *)
Theorem surrogate_by_sign (eps_clip ratio advantage : R) :
  (0 < advantage ->
   surrogate eps_clip ratio advantage = Rmin ratio (1 - eps_clip) * advantage)
  /\ (advantage < 0 ->
      surrogate eps_clip ratio advantage = Rmax ratio (1 + eps_clip) * advantage)
  /\ (advantage = 0 -> surrogate eps_clip ratio advantage = 0).
Proof.
  unfold surrogate, sign, Rmin, Rmax.
  split; [|split]; intros Hadv;
    destruct (Rlt_dec 0 advantage); destruct (Rlt_dec advantage 0);
    repeat destruct (Rle_dec _ _); nra.
Qed.

Lemma surrogate_by_sign_witness :
  surrogate 0.2 1.5 2 = Rmin 1.5 (1 - 0.2) * 2.
Proof. apply (proj1 (surrogate_by_sign 0.2 1.5 2)). lra. Defined.

(** X6: for [eps_clip >= 0] the loss of a sample in [PPO.update_actor]
    never exceeds the clipped surrogate
    [min(ratio * advantage, clamp(ratio, 1 - eps_clip, 1 + eps_clip) * advantage)]. *)
Theorem surrogate_below_clipped (eps_clip ratio advantage : R) :
  0 <= eps_clip ->
  surrogate eps_clip ratio advantage <= textbook_surrogate eps_clip ratio advantage.
Proof.
  intros Heps.
  unfold surrogate, textbook_surrogate, clamp, sign, Rmin, Rmax.
  destruct (Rlt_dec 0 advantage); destruct (Rlt_dec advantage 0);
    repeat destruct (Rle_dec _ _); nra.
Qed.

Lemma surrogate_below_clipped_witness :
  surrogate 0.2 1 1 <= textbook_surrogate 0.2 1 1.
Proof. apply (surrogate_below_clipped 0.2 1 1). lra. Defined.

(** ** The shape of the loss tensor *)

Lemma actor_loss_rows (eps_clip : R) (logprobs old_logprobs rewards state_values : list R) :
  length (actor_loss eps_clip logprobs old_logprobs rewards state_values)
  = length old_logprobs
  /\ Forall (fun row => length row
                        = Nat.min (length logprobs)
                                  (Nat.min (length rewards) (length state_values)))
            (actor_loss eps_clip logprobs old_logprobs rewards state_values).
Proof.
  unfold actor_loss, ratios, advantages. split.
  - rewrite !length_map. reflexivity.
  - apply Forall_forall. intros row Hrow.
    apply list_elem_of_In, in_map_iff in Hrow as (row' & <- & Hrow').
    apply in_map_iff in Hrow' as (old & <- & _).
    rewrite !length_zip_with, length_map. reflexivity.
Qed.

Lemma length_concat_uniform {A : Type} (n : nat) (rows : list (list A)) :
  Forall (fun row => length row = n) rows ->
  length (concat rows) = (length rows * n)%nat.
Proof.
  induction 1 as [|row rows Hrow _ IH]; simpl; [reflexivity|].
  rewrite length_app, IH, Hrow. reflexivity.
Qed.

(** X7: for a batch of [N] samples the loss tensor of [PPO.update_actor]
    has [N] rows of [N] entries, because the new log-probabilities, of
    shape (N,), are subtracted from the stored ones, of shape (N,1); the
    mean that is back-propagated is taken over [N * N] entries. *)
Theorem actor_loss_is_N_by_N (eps_clip : R)
    (logprobs old_logprobs rewards state_values : list R) (N : nat) :
  length logprobs = N ->
  length old_logprobs = N ->
  length rewards = N ->
  length state_values = N ->
  shape (actor_loss eps_clip logprobs old_logprobs rewards state_values)
  = (N, N)
  /\ Forall (fun row => length row = N)
            (actor_loss eps_clip logprobs old_logprobs rewards state_values)
  /\ length (concat (actor_loss eps_clip logprobs old_logprobs rewards state_values))
     = (N * N)%nat.
Proof.
  intros Hl Ho Hr Hv.
  destruct (actor_loss_rows eps_clip logprobs old_logprobs rewards state_values)
    as [Hrows Hcols].
  rewrite Hl, Hr, Hv, !Nat.min_id in Hcols. rewrite Ho in Hrows.
  split; [|split].
  - unfold shape. rewrite Hrows. f_equal.
    destruct (actor_loss eps_clip logprobs old_logprobs rewards state_values)
      as [|row rows]; simpl in Hrows.
    + exact Hrows.
    + apply Forall_cons in Hcols as [Hrow _]. exact Hrow.
  - exact Hcols.
  - rewrite (length_concat_uniform N) by exact Hcols. rewrite Hrows. reflexivity.
Qed.

Lemma actor_loss_is_N_by_N_witness :
  length (concat (actor_loss 0.2 [0; 0; 0] [0; 0; 0] [1; 2; 3] [0; 0; 0])) = (3 * 3)%nat.
Proof.
  apply (actor_loss_is_N_by_N 0.2 [0; 0; 0] [0; 0; 0] [1; 2; 3] [0; 0; 0] 3);
    reflexivity.
Defined.

(** ** Where the cost of a timestep is defined *)

Lemma matmul_tall_then_back (r1 r2 : list R) (rest : list (list R)) (q : R)
    {A : Type} (k : list (list R) -> result A) :
  (xq ← matmul (r1 :: r2 :: rest) [[q]];
   xqx ← matmul xq (r1 :: r2 :: rest);
   k xqx) = inl ValueError.
Proof.
  destruct (matmul (r1 :: r2 :: rest) [[q]]) as [e|xq] eqn:Hxq;
    unfold matmul in Hxq;
    match type of Hxq with (if ?b then _ else _) = _ => destruct b end;
    try discriminate Hxq.
  - injection Hxq as <-. reflexivity.
  - injection Hxq as <-. reflexivity.
Qed.

Lemma PPO_stage_cost_cases (state : list (list R)) (action : list R) :
  (exists x u : R,
      state = [[x]] /\ action = [u]
      /\ PPO1d.Main.stage_cost state action = inr [[x * 1 * x + u * 1 * u]])
  \/ PPO1d.Main.stage_cost state action = inl ValueError.
Proof.
  destruct state as [|[|x [|y row]] [|row' state]];
    try (right; reflexivity).
  destruct action as [|u [|u' action]]; try (right; reflexivity).
  left. exists x, u. split; [reflexivity|]. split; [reflexivity|].
  apply PPO_stage_cost_1x1.
Qed.

Lemma SAC_stage_cost_cases (state : list (list R)) (action : list R) :
  (exists x u : R,
      state = [[x]] /\ action = [u]
      /\ SAC1d.Main.stage_cost state action = inr [[x * 1 * x + u * 1 * u]])
  \/ SAC1d.Main.stage_cost state action = inl ValueError.
Proof.
  destruct state as [|r1 [|r2 rest]].
  - right. destruct action as [|u [|u' action]]; reflexivity.
  - destruct r1 as [|x [|y row]]; [right; reflexivity| |right; reflexivity].
    destruct action as [|u [|u' action]]; [right; reflexivity| |right; reflexivity].
    left. exists x, u. split; [reflexivity|]. split; [reflexivity|].
    apply SAC_stage_cost_1x1.
  - right. apply matmul_tall_then_back.
Qed.


(** ** [clear_memory] on an instance that lacks an attribute *)

Lemma del_slice_cases (k : string) (self : gmap string (list pyval)) :
  (self !! k = None /\ del_slice k self = inl AttributeError)
  \/ (is_Some (self !! k) /\ del_slice k self = inr (<[k := []]> self)).
Proof.
  unfold del_slice. destruct (self !! k) as [l|].
  - right. split; [eexists; reflexivity|reflexivity].
  - left. split; reflexivity.
Qed.

Lemma clear_five_missing (a b c d e attr : string) (self : gmap string (list pyval)) :
  attr ∈ [a; b; c; d; e] ->
  self !! attr = None ->
  (self ← del_slice a self;
   self ← del_slice b self;
   self ← del_slice c self;
   self ← del_slice d self;
   del_slice e self) = inl AttributeError.
Proof.
  intros Hin Hnone.
  assert (Hstep : forall (k : string) (m : gmap string (list pyval)),
             m !! attr = None -> is_Some (m !! k) ->
             k <> attr /\ <[k := []]> m !! attr = None).
  { intros k m Hm [l Hl]. assert (k <> attr) by congruence.
    split; [assumption|]. rewrite lookup_insert_ne by assumption. exact Hm. }
  destruct (del_slice_cases a self) as [[_ ->]|[Ha ->]]; [reflexivity|].
  destruct (Hstep a self Hnone Ha) as [Hna Hnone1]. simpl.
  destruct (del_slice_cases b (<[a := []]> self)) as [[_ ->]|[Hb ->]]; [reflexivity|].
  destruct (Hstep b _ Hnone1 Hb) as [Hnb Hnone2]. simpl.
  destruct (del_slice_cases c (<[b := []]> (<[a := []]> self))) as [[_ ->]|[Hc ->]];
    [reflexivity|].
  destruct (Hstep c _ Hnone2 Hc) as [Hnc Hnone3]. simpl.
  destruct (del_slice_cases d (<[c := []]> (<[b := []]> (<[a := []]> self))))
    as [[_ ->]|[Hd ->]]; [reflexivity|].
  destruct (Hstep d _ Hnone3 Hd) as [Hnd Hnone4]. simpl.
  destruct (del_slice_cases e (<[d := []]> (<[c := []]> (<[b := []]> (<[a := []]> self)))))
    as [[_ ->]|[He _]]; [reflexivity|].
  destruct (Hstep e _ Hnone4 He) as [Hne _].
  clear Hstep.
  repeat (apply elem_of_cons in Hin as [Hin|Hin]; [congruence|]).
  apply elem_of_nil in Hin. destruct Hin.
Qed.

(** X9: [clear_memory] raises [AttributeError] on an instance that
    lacks one of the five lists, in either script. *)
Theorem clear_memory_missing_attribute (self : gmap string (list pyval)) (attr : string) :
  self !! attr = None ->
  (attr ∈ PPO_Memory_attrs -> PPO1d.clear_memory_attrs self = inl AttributeError)
  /\ (attr ∈ SAC_Memory_attrs -> SAC1d.clear_memory_attrs self = inl AttributeError).
Proof.
  intros Hnone. split; intros Hin.
  - exact (clear_five_missing _ _ _ _ _ attr self Hin Hnone).
  - exact (clear_five_missing _ _ _ _ _ attr self Hin Hnone).
Qed.

Lemma clear_memory_missing_attribute_witness :
  PPO1d.clear_memory_attrs
    (delete "rewards" (PPO1d.attrs (PPO1d.mkMemory [[[1]]] [[[2]]] [3] [4] [false])))
  = inl AttributeError.
Proof.
  apply (proj1 (clear_memory_missing_attribute
                  (delete "rewards"
                     (PPO1d.attrs (PPO1d.mkMemory [[[1]]] [[[2]]] [3] [4] [false])))
                  "rewards" (lookup_delete_eq _ _))).
  unfold PPO_Memory_attrs. repeat constructor.
Defined.

(** ** What [select_action] stores *)

Section ReturnsMore.
Context {L : Type} `{!Library L}.

Lemma returns_lift_eq {A : Type} (r : result A) :
  returns (fun a => r = inr a) (lift r : M L A).
Proof. apply returns_lift. intros a Ha. exact Ha. Qed.

Lemma returns_weaken {A : Type} (P Q : A -> Prop) (m : M L A) :
  returns P m -> (forall a : A, P a -> Q a) -> returns Q m.
Proof. intros Hm HPQ w a w' Hrun. apply HPQ. exact (Hm w a w' Hrun). Qed.

Lemma returns_PPO_select_action (self : PPO1d.PPO) (state : list (list R))
    (memory : PPO1d.Memory) :
  returns (fun am =>
             exists a logprob : R,
               fst am = [a]
               /\ snd am
                  = PPO1d.append_logprob logprob
                      (PPO1d.append_action [[a]]
                         (PPO1d.append_state (reshape_1_any state) memory)))
          (PPO1d.select_action self state memory).
Proof.
  unfold PPO1d.select_action, PPO1d.act. cbv zeta.
  eapply returns_bind.
  - eapply returns_bind; [apply returns_any|]. intros action_mean _.
    eapply returns_bind; [apply returns_any|]. intros action _.
    eapply returns_bind; [apply returns_any|]. intros action_logprob _.
    apply (returns_ret
             (fun am => exists a logprob : R,
                  fst am = [[a]]
                  /\ snd am
                     = PPO1d.append_logprob logprob
                         (PPO1d.append_action [[a]]
                            (PPO1d.append_state (reshape_1_any state) memory)))).
    exists action, action_logprob. split; reflexivity.
  - intros am (a & logprob & Ha & Hm).
    apply returns_ret. exists a, logprob. rewrite Ha, Hm. split; reflexivity.
Qed.

Lemma returns_SAC_select_action_memory (self : SAC1d.SAC) (state : list (list R))
    (memory : SAC1d.Memory) :
  returns (fun am =>
             exists a : R,
               fst am = [a]
               /\ snd am
                  = SAC1d.append_action [[a]]
                      (SAC1d.append_state (reshape_1_any state) memory))
          (SAC1d.select_action self state memory).
Proof.
  unfold SAC1d.select_action, SAC1d.act. cbv zeta.
  eapply returns_bind.
  - eapply returns_bind; [apply returns_any|]. intros noise _.
    eapply returns_bind; [apply returns_any|]. intros value _.
    apply (returns_ret
             (fun am => exists a : R,
                  fst am = [[a]]
                  /\ snd am
                     = SAC1d.append_action [[a]]
                         (SAC1d.append_state (reshape_1_any state) memory))).
    eexists. split; reflexivity.
  - intros am (a & Ha & Hm).
    apply returns_ret. exists a. rewrite Ha, Hm. split; reflexivity.
Qed.

End ReturnsMore.

(** X10: a call of [select_action] that returns has appended one state,
    the given one reshaped to one row, and one action, the returned one,
    to the memory; in the PPO script also one log-probability, in the SAC
    script none; the stored rewards or costs and the terminal flags are
    left as they were. *)
Theorem select_action_stores_what_it_returns {L : Type} `{!Library L}
    (state : list (list R)) :
  (forall (self : PPO1d.PPO) (memory memory' : PPO1d.Memory) (action : list R)
          (w w' : world L),
      PPO1d.select_action self state memory w = (inr (action, memory'), w') ->
      exists logprob : R,
        last (PPO1d.states memory') = Some (reshape_1_any state)
        /\ last (PPO1d.actions memory') = Some [action]
        /\ PPO1d.states memory' = PPO1d.states memory ++ [reshape_1_any state]
        /\ PPO1d.actions memory' = PPO1d.actions memory ++ [[action]]
        /\ PPO1d.logprobs memory' = PPO1d.logprobs memory ++ [logprob]
        /\ PPO1d.rewards memory' = PPO1d.rewards memory
        /\ PPO1d.is_terminals memory' = PPO1d.is_terminals memory)
  /\ (forall (self : SAC1d.SAC) (memory memory' : SAC1d.Memory) (action : list R)
             (w w' : world L),
         SAC1d.select_action self state memory w = (inr (action, memory'), w') ->
         last (SAC1d.states memory') = Some (reshape_1_any state)
         /\ last (SAC1d.actions memory') = Some [action]
         /\ SAC1d.states memory' = SAC1d.states memory ++ [reshape_1_any state]
         /\ SAC1d.actions memory' = SAC1d.actions memory ++ [[action]]
         /\ SAC1d.logprobs memory' = SAC1d.logprobs memory
         /\ SAC1d.costs memory' = SAC1d.costs memory
         /\ SAC1d.is_terminals memory' = SAC1d.is_terminals memory).
Proof.
  split.
  - intros self memory memory' action w w' Hrun.
    destruct (returns_PPO_select_action self state memory w _ w' Hrun)
      as (a & logprob & Ha & Hm).
    simpl in Ha, Hm. subst action memory'. exists logprob. simpl.
    rewrite !last_snoc. repeat split; reflexivity.
  - intros self memory memory' action w w' Hrun.
    destruct (returns_SAC_select_action_memory self state memory w _ w' Hrun)
      as (a & Ha & Hm).
    simpl in Ha, Hm. subst action memory'. simpl.
    rewrite !last_snoc. repeat split; reflexivity.
Qed.

Lemma select_action_stores_what_it_returns_witness :
  let self := PPO1d.mkPPO (0.9, 0.999) 0.99 100 0.2 10
                          (PPO1d.mkActorCritic 0.01) (PPO1d.mkActorCritic 0.01) in
  let memory := PPO1d.Memory_init in
  exists (action : list R) (memory' : PPO1d.Memory) (w' : world unit),
    PPO1d.select_action self [[3]] memory (World tt []) = (inr (action, memory'), w')
    /\ exists logprob : R,
         last (PPO1d.states memory') = Some (reshape_1_any [[3]])
         /\ last (PPO1d.actions memory') = Some [action]
         /\ PPO1d.states memory' = PPO1d.states memory ++ [reshape_1_any [[3]]]
         /\ PPO1d.actions memory' = PPO1d.actions memory ++ [[action]]
         /\ PPO1d.logprobs memory' = PPO1d.logprobs memory ++ [logprob]
         /\ PPO1d.rewards memory' = PPO1d.rewards memory
         /\ PPO1d.is_terminals memory' = PPO1d.is_terminals memory.
Proof.
  intros self memory. eexists _, _, _. split; [reflexivity|].
  eapply (proj1 (select_action_stores_what_it_returns [[3]]) self _ _ _ (World tt [])).
  reflexivity.
Defined.

(** ** The batch of the PPO script *)

Section ReturnsPPO.
Context {L : Type} `{!Library L}.

Lemma returns_ret_eq {A : Type} (a : A) : returns (eq a) (mret a : M L A).
Proof. apply returns_ret. reflexivity. Qed.

Lemma mod_update_timestep (n : nat) :
  (n < PPO1d.Main.update_timestep)%nat ->
  (S n mod PPO1d.Main.update_timestep <> 0)%nat ->
  (S n < PPO1d.Main.update_timestep)%nat.
Proof.
  intros Hlt Hmod.
  destruct (decide (S n = PPO1d.Main.update_timestep)) as [Heq|Hne]; [|lia].
  rewrite Heq, Nat.Div0.mod_same in Hmod. congruence.
Qed.

Lemma pymod_update_timestep (n rem : nat) :
  pymod n PPO1d.Main.update_timestep = inr rem ->
  rem = (n mod PPO1d.Main.update_timestep)%nat.
Proof.
  unfold pymod.
  destruct (Nat.eqb PPO1d.Main.update_timestep 0) eqn:Hzero;
    [discriminate Hzero|].
  intros Hrem. injection Hrem as <-. reflexivity.
Qed.

Lemma returns_PPO_timestep_batch (ppo : PPO1d.PPO) (i : nat) (v : PPO1d.Main.Vars) :
  batch_invariant v -> returns batch_invariant (PPO1d.Main.timestep ppo i v).
Proof.
  intros (Hs & Ha & Hl & Hr & Hf & Hlt).
  unfold PPO1d.Main.timestep. cbv zeta.
  eapply returns_bind; [apply returns_PPO_select_action|].
  intros am (a & logprob & Haction & Hmemory).
  eapply returns_bind; [apply returns_any|]. intros reward _.
  eapply returns_bind; [apply returns_any|]. intros state _.
  eapply returns_bind; [apply returns_any|]. intros far _.
  eapply returns_bind; [apply returns_any|]. intros r _.
  eapply returns_bind; [apply returns_lift_eq|]. intros rem Hrem.
  apply pymod_update_timestep in Hrem. subst rem.
  rewrite Hmemory.
  destruct (Nat.eqb _ 0) eqn:Hzero.
  - eapply returns_bind.
    { eapply returns_bind; [apply returns_any|]. intros ? _.
      eapply returns_bind; [apply returns_any|]. intros ? _.
      apply returns_ret_eq. }
    intros mt <-.
    eapply returns_bind; [apply returns_any|]. intros r' _.
    apply returns_ret. unfold batch_invariant. simpl.
    unfold PPO1d.Main.update_timestep. repeat split; lia.
  - apply Nat.eqb_neq in Hzero.
    eapply returns_bind; [apply returns_ret_eq|]. intros mt <-.
    eapply returns_bind; [apply returns_any|]. intros r' _.
    apply returns_ret. unfold batch_invariant. simpl.
    rewrite !length_app, Hs, Ha, Hl, Hr, Hf. simpl.
    replace (PPO1d.Main.time_step v + 1)%nat with (S (PPO1d.Main.time_step v)) in * by lia.
    repeat split; try lia.
    apply mod_update_timestep; assumption.
Qed.

Lemma returns_PPO_timesteps_batch (ppo : PPO1d.PPO) (n : nat) :
  forall (i : nat) (v : PPO1d.Main.Vars),
    batch_invariant v -> returns batch_invariant (PPO1d.Main.timesteps ppo n i v).
Proof.
  induction n as [|n IH]; intros i v Hv; simpl.
  - apply returns_ret. exact Hv.
  - eapply returns_bind; [apply returns_PPO_timestep_batch, Hv|].
    intros v' Hv'.
    destruct (PPO1d.Main.done v'); [apply returns_ret; exact Hv'|].
    apply IH. exact Hv'.
Qed.

Lemma returns_PPO_episode_batch (ppo : PPO1d.PPO) (i_episode : nat)
    (v : PPO1d.Main.Vars) :
  batch_invariant v -> returns batch_invariant (PPO1d.Main.episode ppo i_episode v).
Proof.
  intros Hv. unfold PPO1d.Main.episode.
  eapply returns_bind; [apply returns_any|]. intros x _. cbv zeta.
  eapply returns_bind; [apply returns_PPO_timesteps_batch; exact Hv|].
  intros v' Hv'.
  eapply returns_bind; [apply returns_any|]. intros last_t _.
  eapply returns_bind; [apply returns_any|]. intros rem _.
  destruct (Nat.eqb rem 0).
  - eapply returns_bind; [apply returns_any|]. intros ? _.
    eapply returns_bind; [apply returns_any|]. intros ? _.
    apply returns_ret. exact Hv'.
  - apply returns_ret. exact Hv'.
Qed.

Lemma returns_PPO_episodes_batch (ppo : PPO1d.PPO) (n : nat) :
  forall (i_episode : nat) (v : PPO1d.Main.Vars),
    batch_invariant v -> returns batch_invariant (PPO1d.Main.episodes ppo n i_episode v).
Proof.
  induction n as [|n IH]; intros i_episode v Hv; simpl.
  - apply returns_ret. exact Hv.
  - eapply returns_bind; [apply returns_PPO_episode_batch, Hv|].
    intros v' Hv'. apply IH. exact Hv'.
Qed.

Lemma returns_PPO_setup_batch :
  returns (fun kpv => batch_invariant (snd kpv)) PPO1d.Main.setup.
Proof.
  unfold PPO1d.Main.setup.
  eapply returns_bind; [apply returns_any|]. intros ? _.
  eapply returns_bind; [apply returns_any|]. intros ? _.
  eapply returns_bind; [apply returns_any|]. intros K _. cbv zeta.
  eapply returns_bind; [apply returns_any|]. intros ppo _.
  eapply returns_bind; [apply returns_any|]. intros ? _.
  apply returns_ret. unfold batch_invariant, PPO1d.Main.update_timestep. simpl.
  repeat split; lia.
Qed.

End ReturnsPPO.


(** X11: in the PPO script the memory is a batch that spans episodes.
    Between two timesteps its five lists have one length, which is
    [time_step], and [time_step] stays below [update_timestep]: the
    set-up establishes this, every timestep that returns keeps it, and so
    does every sequence of episodes. *)
Theorem PPO_batch_invariant {L : Type} `{!Library L} :
  returns (fun kpv => batch_invariant (snd kpv)) PPO1d.Main.setup
  /\ (forall (ppo : PPO1d.PPO) (i : nat) (v : PPO1d.Main.Vars),
         batch_invariant v -> returns batch_invariant (PPO1d.Main.timestep ppo i v))
  /\ (forall (ppo : PPO1d.PPO) (n i_episode : nat) (v : PPO1d.Main.Vars),
         batch_invariant v ->
         returns batch_invariant (PPO1d.Main.episodes ppo n i_episode v)).
Proof.
  split; [apply returns_PPO_setup_batch|].
  split; [apply returns_PPO_timestep_batch|].
  intros ppo n. apply returns_PPO_episodes_batch.
Qed.

Lemma PPO_batch_invariant_witness :
  let ppo := PPO1d.mkPPO (0.9, 0.999) 0.99 100 0.2 10
                         (PPO1d.mkActorCritic 0.01) (PPO1d.mkActorCritic 0.01) in
  let v := PPO1d.Main.mkVars [[2]] false None 0 0 0 PPO1d.Memory_init in
  exists (v' : PPO1d.Main.Vars) (w' : world unit),
    PPO1d.Main.timestep ppo 0 v (World tt []) = (inr v', w')
    /\ batch_invariant v'.
Proof.
  intros ppo v. eexists _, _. split; [reflexivity|].
  assert (Hv : batch_invariant v).
  { unfold batch_invariant, PPO1d.Main.update_timestep. simpl. repeat split; lia. }
  eapply (proj1 (proj2 PPO_batch_invariant) ppo 0%nat v Hv (World tt [])).
  reflexivity.
Defined.

(** ** When the inner loop of the PPO script stops *)

Section ReturnsPPODone.
Context {L : Type} `{!Library L}.

Lemma PPO_timestep_state_is_1x1 (state reward state' : list (list R))
    (action : list R) :
  PPO1d.Main.stage_cost state action = inr reward ->
  PPO1d.Main.next_state state action = inr state' ->
  exists y : R, state' = [[y]].
Proof.
  intros Hcost Hnext.
  destruct (PPO_stage_cost_cases state action) as [(x & u & -> & -> & _)|Heq];
    [|rewrite Heq in Hcost; discriminate Hcost].
  rewrite PPO_next_state_1x1 in Hnext.
  injection Hnext as <-. eexists. reflexivity.
Qed.

Lemma abs_gt_true (y bound : R) : abs_gt [[y]] bound = inr true -> bound < Rabs y.
Proof.
  unfold abs_gt. simpl. destruct (Rlt_dec bound (Rabs y)) as [Hlt|_]; intros Hfar.
  - exact Hlt.
  - discriminate Hfar.
Qed.

(** One timestep binds [t] and sets [done] only if the new state is out
    of bounds. *)
Lemma returns_PPO_timestep_done (ppo : PPO1d.PPO) (i : nat) (v : PPO1d.Main.Vars) :
  PPO1d.Main.done v = false ->
  returns (fun v' =>
             PPO1d.Main.t v' = Some i
             /\ (PPO1d.Main.done v' = true ->
                 exists x : R, PPO1d.Main.state v' = [[x]] /\ 10 < Rabs x))
          (PPO1d.Main.timestep ppo i v).
Proof.
  intros Hdone. unfold PPO1d.Main.timestep. cbv zeta.
  eapply returns_bind; [apply returns_any|]. intros am _.
  eapply returns_bind; [apply returns_lift_eq|]. intros reward Hreward.
  eapply returns_bind; [apply returns_lift_eq|]. intros state Hstate.
  destruct (PPO_timestep_state_is_1x1 _ _ _ _ Hreward Hstate) as [y ->].
  eapply returns_bind; [apply returns_lift_eq|]. intros far Hfar.
  eapply returns_bind; [apply returns_any|]. intros r _.
  eapply returns_bind; [apply returns_any|]. intros rem _.
  eapply returns_bind; [apply returns_any|]. intros mt _.
  eapply returns_bind; [apply returns_any|]. intros r' _.
  apply returns_ret. simpl. split; [reflexivity|].
  rewrite Hdone. destruct far; [|discriminate].
  intros _. exists y. split; [reflexivity|]. apply abs_gt_true. exact Hfar.
Qed.

Lemma returns_PPO_timesteps_done (ppo : PPO1d.PPO) (n : nat) :
  forall (i : nat) (v : PPO1d.Main.Vars),
    PPO1d.Main.done v = false ->
    returns (fun v' =>
               (exists k : nat,
                   PPO1d.Main.t v' = Some k /\ (i <= k <= i + n)%nat
                   /\ (PPO1d.Main.done v' = false -> k = (i + n)%nat))
               /\ (PPO1d.Main.done v' = true ->
                   exists x : R, PPO1d.Main.state v' = [[x]] /\ 10 < Rabs x))
            (PPO1d.Main.timesteps ppo (S n) i v).
Proof.
  induction n as [|n IH]; intros i v Hdone.
  - simpl. eapply returns_bind; [apply returns_PPO_timestep_done, Hdone|].
    intros v' [Ht Hfar].
    assert (Hv' : (exists k : nat,
                      PPO1d.Main.t v' = Some k /\ (i <= k <= i + 0)%nat
                      /\ (PPO1d.Main.done v' = false -> k = (i + 0)%nat))
                  /\ (PPO1d.Main.done v' = true ->
                      exists x : R, PPO1d.Main.state v' = [[x]] /\ 10 < Rabs x)).
    { split; [|exact Hfar]. exists i. split; [exact Ht|]. split; lia. }
    match goal with
    | |- returns ?P _ =>
        assert (Hret : returns P (mret v' : M L PPO1d.Main.Vars))
          by (apply returns_ret; exact Hv')
    end.
    destruct (PPO1d.Main.done v'); exact Hret.
  - change (PPO1d.Main.timesteps ppo (S (S n)) i v)
      with (v' ← PPO1d.Main.timestep ppo i v;
            if PPO1d.Main.done v' then mret v'
            else PPO1d.Main.timesteps ppo (S n) (S i) v').
    eapply returns_bind; [apply returns_PPO_timestep_done, Hdone|].
    intros v' [Ht Hfar].
    destruct (PPO1d.Main.done v') eqn:Hdone'.
    + apply returns_ret. split; [|intros _; apply Hfar; reflexivity].
      exists i. split; [exact Ht|]. split; [lia|].
      rewrite Hdone'. discriminate.
    + eapply returns_weaken; [apply IH, Hdone'|].
      intros v'' [(k & Hk & Hrange & Hall) Hfar'].
      split; [|exact Hfar'].
      exists k. split; [exact Hk|]. split; [lia|].
      intros Hd. rewrite (Hall Hd). lia.
Qed.
End ReturnsPPODone.

(** X12: the inner loop of a PPO episode, entered with [done] [False] and
    [n + 1] iterations ahead from index [i], leaves [t] bound to the index
    [k] of the last timestep it ran, with [i <= k <= i + n]; it stops
    before the last index only with [done] set, and [done] is set only if
    the state it ends in is out of bounds, [|x| > 10]. *)
Theorem PPO_inner_loop_stops_out_of_bounds {L : Type} `{!Library L}
    (ppo : PPO1d.PPO) (n i : nat) (v v' : PPO1d.Main.Vars) (w w' : world L) :
  PPO1d.Main.done v = false ->
  PPO1d.Main.timesteps ppo (S n) i v w = (inr v', w') ->
  (exists k : nat,
      PPO1d.Main.t v' = Some k /\ (i <= k <= i + n)%nat
      /\ (PPO1d.Main.done v' = false -> k = (i + n)%nat))
  /\ (PPO1d.Main.done v' = true ->
      exists x : R, PPO1d.Main.state v' = [[x]] /\ 10 < Rabs x).
Proof.
  intros Hdone Hrun.
  exact (returns_PPO_timesteps_done ppo n i v Hdone w v' w' Hrun).
Qed.

Lemma PPO_inner_loop_stops_out_of_bounds_witness :
  let ppo := PPO1d.mkPPO (0.9, 0.999) 0.99 100 0.2 10
                         (PPO1d.mkActorCritic 0.01) (PPO1d.mkActorCritic 0.01) in
  let v := PPO1d.Main.mkVars [[2]] false None 0 0 0 PPO1d.Memory_init in
  exists (v' : PPO1d.Main.Vars) (w' : world unit),
    PPO1d.Main.timesteps ppo 3 0 v (World tt []) = (inr v', w')
    /\ (exists k : nat,
          PPO1d.Main.t v' = Some k /\ (0 <= k <= 0 + 2)%nat
          /\ (PPO1d.Main.done v' = false -> k = (0 + 2)%nat))
    /\ (PPO1d.Main.done v' = true ->
        exists x : R, PPO1d.Main.state v' = [[x]] /\ 10 < Rabs x).
Proof.
  intros ppo v.
  destruct (succeeds_PPO_timesteps_S quiet_never_raises ppo 2 0 v
              (ex_intro _ 2 eq_refl) (World tt [])) as (v' & w' & Hrun & _).
  exists v', w'. split; [exact Hrun|].
  exact (PPO_inner_loop_stops_out_of_bounds ppo 2 0 v v' _ w' eq_refl Hrun).
Defined.

(** ** The batch of the SAC script *)

Section ReturnsSACBatch.
Context {L : Type} `{!Library L}.

Lemma SAC_stage_cost_is_1x1 (state cost : list (list R)) (action : list R) :
  SAC1d.Main.stage_cost state action = inr cost -> exists c : R, cost = [[c]].
Proof.
  intros Hcost.
  destruct (SAC_stage_cost_cases state action) as [(x & u & _ & _ & Heq)|Heq];
    rewrite Heq in Hcost; [|discriminate Hcost].
  injection Hcost as <-. eexists. reflexivity.
Qed.

(** One timestep appends one sample and leaves [done] and
    [running_cost] as they were; the cost it binds is a 1x1 array. *)
Lemma returns_SAC_timestep_sample (sac : SAC1d.SAC) (v : SAC1d.Main.Vars) :
  returns (fun v' =>
             SAC1d.Main.done v' = SAC1d.Main.done v
             /\ SAC1d.Main.running_cost v' = SAC1d.Main.running_cost v
             /\ (exists c : R, SAC1d.Main.cost v' = Some [[c]])
             /\ exists a c : R,
                  SAC1d.Main.memory v'
                  = SAC1d.append_is_terminal (SAC1d.Main.done v)
                      (SAC1d.append_cost c
                         (SAC1d.append_action [[a]]
                            (SAC1d.append_state (reshape_1_any (SAC1d.Main.state v))
                               (SAC1d.Main.memory v)))))
          (SAC1d.Main.timestep sac v).
Proof.
  unfold SAC1d.Main.timestep. cbv zeta.
  eapply returns_bind; [apply returns_SAC_select_action_memory|].
  intros am (a & Ha & Hm).
  eapply returns_bind; [apply returns_lift_eq|]. intros cost Hcost.
  apply SAC_stage_cost_is_1x1 in Hcost as [c0 ->].
  eapply returns_bind; [apply returns_any|]. intros state _.
  eapply returns_bind; [apply returns_any|]. intros c _.
  apply returns_ret. simpl. rewrite Hm.
  split; [reflexivity|]. split; [reflexivity|].
  split; [exists c0; reflexivity|]. exists a, c. reflexivity.
Qed.

Lemma returns_SAC_timesteps_samples (sac : SAC1d.SAC) (n : nat) :
  forall v : SAC1d.Main.Vars,
    SAC1d.Main.done v = false ->
    returns (fun v' =>
               let memory := SAC1d.Main.memory v in
               let memory' := SAC1d.Main.memory v' in
               SAC1d.Main.done v' = false
               /\ SAC1d.Main.running_cost v' = SAC1d.Main.running_cost v
               /\ length (SAC1d.states memory') = (length (SAC1d.states memory) + n)%nat
               /\ length (SAC1d.actions memory') = (length (SAC1d.actions memory) + n)%nat
               /\ length (SAC1d.costs memory') = (length (SAC1d.costs memory) + n)%nat
               /\ length (SAC1d.is_terminals memory')
                  = (length (SAC1d.is_terminals memory) + n)%nat
               /\ SAC1d.logprobs memory' = SAC1d.logprobs memory)
            (SAC1d.Main.timesteps sac n v).
Proof.
  induction n as [|n IH]; intros v Hdone; simpl.
  - apply returns_ret. cbv zeta. rewrite !Nat.add_0_r. repeat split. exact Hdone.
  - eapply returns_bind; [apply returns_SAC_timestep_sample|].
    intros v1 (Hdone1 & Hrc & _ & a & c & Hmemory).
    rewrite Hdone in Hdone1. rewrite Hdone1.
    eapply returns_weaken; [apply IH, Hdone1|].
    cbv zeta. intros v' (Hd & Hr & Hs & Ha & Hc & Hf & Hl).
    rewrite Hmemory in Hs, Ha, Hc, Hf, Hl. simpl in Hs, Ha, Hc, Hf, Hl.
    rewrite !length_app in *. simpl in *.
    rewrite Hs, Ha, Hc, Hf, Hl, Hr, Hrc.
    repeat split; try lia. exact Hd.
Qed.

Lemma returns_SAC_timesteps_cost (sac : SAC1d.SAC) (n : nat) :
  forall v : SAC1d.Main.Vars,
    (exists c : R, SAC1d.Main.cost v = Some [[c]]) ->
    returns (fun v' => exists c : R, SAC1d.Main.cost v' = Some [[c]])
            (SAC1d.Main.timesteps sac n v).
Proof.
  induction n as [|n IH]; intros v Hv; simpl.
  - apply returns_ret. exact Hv.
  - eapply returns_bind; [apply returns_SAC_timestep_sample|].
    intros v1 (_ & _ & Hcost & _).
    destruct (SAC1d.Main.done v1); [apply returns_ret; exact Hcost|].
    apply IH. exact Hcost.
Qed.

Lemma returns_SAC_timesteps_S_cost (sac : SAC1d.SAC) (n : nat) (v : SAC1d.Main.Vars) :
  returns (fun v' => exists c : R, SAC1d.Main.cost v' = Some [[c]])
          (SAC1d.Main.timesteps sac (S n) v).
Proof.
  simpl.
  eapply returns_bind; [apply returns_SAC_timestep_sample|].
  intros v1 (_ & _ & Hcost & _).
  destruct (SAC1d.Main.done v1); [apply returns_ret; exact Hcost|].
  apply returns_SAC_timesteps_cost. exact Hcost.
Qed.

Lemma returns_and {A : Type} (P Q : A -> Prop) (m : M L A) :
  returns P m -> returns Q m -> returns (fun a => P a /\ Q a) m.
Proof. intros HP HQ w a w' Hrun. split; [exact (HP w a w' Hrun)|exact (HQ w a w' Hrun)]. Qed.

Lemma pymod_log_interval (n rem : nat) :
  pymod n SAC1d.Main.log_interval = inr rem ->
  rem = (n mod SAC1d.Main.log_interval)%nat.
Proof.
  unfold pymod.
  destruct (Nat.eqb SAC1d.Main.log_interval 0) eqn:Hzero;
    [discriminate Hzero|].
  intros Hrem. injection Hrem as <-. reflexivity.
Qed.

Lemma returns_SAC_episode_ends (sac : SAC1d.SAC) (i_episode : nat)
    (v : SAC1d.Main.Vars) :
  returns (fun v' =>
             SAC1d.Main.memory v' = SAC1d.mkMemory [] [] [] [] []
             /\ SAC1d.Main.done v' = false
             /\ exists c : R,
                  SAC1d.Main.cost v' = Some [[c]]
                  /\ SAC1d.Main.running_cost v'
                     = if Nat.eqb (i_episode mod SAC1d.Main.log_interval) 0
                       then 0
                       else SAC1d.Main.running_cost v + c)
          (SAC1d.Main.episode sac i_episode v).
Proof.
  unfold SAC1d.Main.episode.
  eapply returns_bind; [apply returns_any|]. intros x _. cbv zeta.
  change SAC1d.Main.max_timesteps with (S 9).
  eapply returns_bind.
  { apply returns_and.
    - apply returns_SAC_timesteps_samples. reflexivity.
    - apply returns_SAC_timesteps_S_cost. }
  cbv zeta. intros v1 ((Hdone & Hrc & _) & c & Hcost). simpl in Hrc.
  eapply returns_bind; [apply returns_any|]. intros ? _.
  rewrite Hcost.
  eapply returns_bind; [apply returns_lift_eq|]. intros last_cost Hlast.
  injection Hlast as <-.
  eapply returns_bind; [apply returns_lift_eq|]. intros c' Hc'.
  injection Hc' as <-.
  eapply returns_bind; [apply returns_lift_eq|]. intros rem Hrem.
  apply pymod_log_interval in Hrem. subst rem.
  destruct (Nat.eqb _ 0).
  - eapply returns_bind; [apply returns_any|]. intros ? _.
    apply returns_ret. simpl. split; [reflexivity|]. split; [exact Hdone|].
    exists c. split; reflexivity.
  - apply returns_ret. simpl. split; [reflexivity|]. split; [exact Hdone|].
    exists c. split; [reflexivity|]. rewrite Hrc. reflexivity.
Qed.

End ReturnsSACBatch.

(** X13: the inner loop of a SAC episode never stops early.  Entered
    with [done] [False], [n] iterations that return have stored exactly
    [n] states, [n] actions, [n] costs and [n] flags, and no
    log-probability: [memory.logprobs] is never appended to. *)
Theorem SAC_inner_loop_stores_n_samples {L : Type} `{!Library L}
    (sac : SAC1d.SAC) (n : nat) (v v' : SAC1d.Main.Vars) (w w' : world L) :
  SAC1d.Main.done v = false ->
  SAC1d.Main.timesteps sac n v w = (inr v', w') ->
  let memory := SAC1d.Main.memory v in
  let memory' := SAC1d.Main.memory v' in
  length (SAC1d.states memory') = (length (SAC1d.states memory) + n)%nat
  /\ length (SAC1d.actions memory') = (length (SAC1d.actions memory) + n)%nat
  /\ length (SAC1d.costs memory') = (length (SAC1d.costs memory) + n)%nat
  /\ length (SAC1d.is_terminals memory') = (length (SAC1d.is_terminals memory) + n)%nat
  /\ SAC1d.logprobs memory' = SAC1d.logprobs memory.
Proof.
  intros Hdone Hrun.
  exact (proj2 (proj2 (returns_SAC_timesteps_samples sac n v Hdone w v' w' Hrun))).
Qed.

Lemma SAC_inner_loop_stores_n_samples_witness :
  let sac := SAC1d.mkSAC (0.9, 0.999) 1 0.05 10
                         (SAC1d.mkModel 0.05 1 1) (SAC1d.mkModel 0.05 1 1) in
  let v := SAC1d.Main.mkVars [[10 * 0]] false None 0 SAC1d.Memory_init in
  exists (v' : SAC1d.Main.Vars) (w' : world unit),
    SAC1d.Main.timesteps sac 3 v (World tt []) = (inr v', w')
    /\ length (SAC1d.states (SAC1d.Main.memory v')) = (0 + 3)%nat
    /\ length (SAC1d.actions (SAC1d.Main.memory v')) = (0 + 3)%nat
    /\ length (SAC1d.costs (SAC1d.Main.memory v')) = (0 + 3)%nat
    /\ length (SAC1d.is_terminals (SAC1d.Main.memory v')) = (0 + 3)%nat
    /\ SAC1d.logprobs (SAC1d.Main.memory v') = [].
Proof.
  intros sac v. eexists _, _. split; [reflexivity|].
  eapply (SAC_inner_loop_stores_n_samples sac 3 v _ (World tt [])); reflexivity.
Defined.

(** X14: a SAC episode that returns leaves the memory empty, whatever it
    held before, so every batch given to [update] is one episode; [done]
    is [False]; and [running_cost] has grown by the cost of the last
    timestep of the episode only, or is reset to 0 when the episode
    number is a multiple of [log_interval]. *)
Theorem SAC_episode_ends_empty {L : Type} `{!Library L}
    (sac : SAC1d.SAC) (i_episode : nat) (v v' : SAC1d.Main.Vars) (w w' : world L) :
  SAC1d.Main.episode sac i_episode v w = (inr v', w') ->
  SAC1d.Main.memory v' = SAC1d.mkMemory [] [] [] [] []
  /\ SAC1d.Main.done v' = false
  /\ exists c : R,
       SAC1d.Main.cost v' = Some [[c]]
       /\ SAC1d.Main.running_cost v'
          = if Nat.eqb (i_episode mod SAC1d.Main.log_interval) 0
            then 0
            else SAC1d.Main.running_cost v + c.
Proof.
  intros Hrun. exact (returns_SAC_episode_ends sac i_episode v w v' w' Hrun).
Qed.

Lemma SAC_episode_ends_empty_witness :
  let sac := SAC1d.mkSAC (0.9, 0.999) 1 0.05 10
                         (SAC1d.mkModel 0.05 1 1) (SAC1d.mkModel 0.05 1 1) in
  let v := SAC1d.Main.mkVars [] false None 7
             (SAC1d.mkMemory [[[1]]] [[[2]]] [] [3] [false]) in
  exists (v' : SAC1d.Main.Vars) (w' : world unit),
    SAC1d.Main.episode sac 1 v (World tt []) = (inr v', w')
    /\ SAC1d.Main.memory v' = SAC1d.mkMemory [] [] [] [] []
    /\ SAC1d.Main.done v' = false.
Proof.
  intros sac v.
  destruct (succeeds_SAC_episode quiet_never_raises sac 1 v (World tt []))
    as (v' & w' & Hrun & _).
  exists v', w'. split; [exact Hrun|].
  destruct (SAC_episode_ends_empty sac 1 v v' _ w' Hrun) as (Hmemory & Hdone & _).
  split; [exact Hmemory|exact Hdone].
Defined.

(** ** Updates on an empty memory *)

Section EmptyMemory.
Context {L : Type} `{!Library L}.

Lemma PPO_update_critic_empty (self : PPO1d.PPO) (memory : PPO1d.Memory) (l : L) :
  PPO1d.states memory = [] ->
  run (PPO1d.update_critic self memory) l
  = (inl RuntimeError, World l [Raise RuntimeError]).
Proof.
  intros Hs. unfold run, PPO1d.update_critic. rewrite Hs. reflexivity.
Qed.

Lemma SAC_update_empty (self : SAC1d.SAC) (memory : SAC1d.Memory) (l : L) :
  SAC1d.states memory = [] ->
  run (SAC1d.update self memory) l
  = (inl RuntimeError, World l [Raise RuntimeError]).
Proof.
  intros Hs. unfold run, SAC1d.update. cbv zeta. rewrite Hs. reflexivity.
Qed.

Lemma PPO_update_actor_empty (self : PPO1d.PPO) (memory : PPO1d.Memory) (l : L) :
  never_raises L ->
  PPO1d.states memory = [] ->
  exists l' : L,
    run (PPO1d.update_actor self memory) l
    = (inl RuntimeError, World l' [Call OpMean; Call OpStd; Raise RuntimeError]).
Proof.
  intros Hlib Hs. unfold run, PPO1d.update_actor. cbv zeta. rewrite Hs.
  unfold mbind, M_bind, call1, call, mbind, M_bind. cbn [lib_state trace].
  destruct (Hlib OpMean (PPO1d.update_actor_rewards self memory) l) as (rows1 & l1 & ->).
  cbn.
  destruct (Hlib OpStd (PPO1d.update_actor_rewards self memory) l1) as (rows2 & l2 & ->).
  exists l2. reflexivity.
Qed.
End EmptyMemory.



(** ** Runs that fail only in the library

    Whatever the library answers, the shapes the NumPy operations insist
    on are invariants of the training loops: a run either returns or ends
    with an exception of a library operation. *)

Section SafeRuns.
Context {L : Type} `{!Library L}.

Lemma safe_ret {A : Type} (P : A -> Prop) (a : A) :
  P a -> safe P (mret a : M L A).
Proof. intros HP w. exact HP. Qed.

Lemma safe_bind {A B : Type} (P : A -> Prop) (Q : B -> Prop)
    (m : M L A) (f : A -> M L B) :
  safe P m ->
  (forall a : A, P a -> safe Q (f a)) ->
  safe Q (m ≫= f).
Proof.
  intros Hm Hf w. specialize (Hm w).
  unfold mbind, M_bind. destruct (m w) as [[e|a] w1].
  - exact Hm.
  - exact (Hf a Hm w1).
Qed.

Lemma safe_then {A B : Type} (Q : B -> Prop) (m : M L A) (f : A -> M L B) :
  safe (fun _ => True) m ->
  (forall a : A, safe Q (f a)) ->
  safe Q (m ≫= f).
Proof. intros Hm Hf. apply (safe_bind (fun _ => True)); auto. Qed.

Lemma safe_call (o : op) (args : list R) :
  safe (fun _ => True) (call o args).
Proof.
  intros w. unfold call.
  destruct (lib_call o args (lib_state w)) as [[e|rows] l] eqn:Hcall.
  - exists o, args, (lib_state w), l. exact Hcall.
  - exact I.
Qed.

Lemma safe_call1 (o : op) (args : list R) :
  safe (fun _ => True) (call1 o args).
Proof.
  unfold call1. apply safe_then; [apply safe_call|].
  intros rows. apply safe_ret. exact I.
Qed.

Lemma safe_call_ (o : op) (args : list R) :
  safe (fun _ => True) (call_ o args).
Proof.
  unfold call_. apply safe_then; [apply safe_call|].
  intros rows. apply safe_ret. exact I.
Qed.

Lemma safe_lift {A : Type} (r : result A) (a : A) :
  r = inr a -> safe (eq a) (lift r : M L A).
Proof. intros -> w. reflexivity. Qed.

Lemma safe_repeatM (n : nat) (body : M L unit) :
  safe (fun _ => True) body -> safe (fun _ => True) (repeatM n body).
Proof.
  intros Hbody. induction n as [|n IH]; simpl.
  - apply safe_ret. exact I.
  - apply safe_then; [exact Hbody|]. intros _. exact IH.
Qed.

Lemma safe_for_each {A B : Type} (f : A -> M L B) (l : list A) :
  (forall x : A, safe (fun _ => True) (f x)) ->
  safe (fun _ => True) (for_each f l).
Proof.
  intros Hf. induction l as [|x l IH]; simpl.
  - apply safe_ret. exact I.
  - apply safe_then; [apply Hf|]. intros y.
    apply safe_then; [exact IH|]. intros ys. apply safe_ret. exact I.
Qed.

Lemma safe_outcome {A : Type} (P : A -> Prop) (m : M L A) (l : L) (e : exn) :
  safe P m -> outcome m l = inl e -> library_raises e.
Proof.
  intros Hm. unfold outcome, run. specialize (Hm (World l [])).
  destruct (m (World l [])) as [[e'|a] w']; simpl; intros Hout.
  - injection Hout as <-. exact Hm.
  - discriminate Hout.
Qed.

Ltac safe_step :=
  first
    [ apply safe_ret; exact I
    | apply safe_call
    | apply safe_call1
    | apply safe_call_
    | solve [auto]
    | apply safe_then; [|intros ?]
    | progress cbv zeta ].

Ltac safe_tac := repeat safe_step.

Lemma safe_PPO_double_weights (rows cols : nat) :
  safe (fun _ => True) (PPO1d.double_weights rows cols).
Proof. unfold PPO1d.double_weights. safe_tac. Qed.

Lemma safe_PPO_ActorCritic_init (state_dim action_dim n_latent_var : nat)
    (action_std : R) (double : bool) :
  safe (fun _ => True)
       (PPO1d.ActorCritic_init state_dim action_dim n_latent_var action_std double).
Proof.
  pose proof safe_PPO_double_weights.
  unfold PPO1d.ActorCritic_init. destruct double; safe_tac.
Qed.

Lemma safe_PPO_init (state_dim action_dim n_latent_var : nat)
    (action_std actor_lr critic_lr : R) (betas : R * R) (alpha gamma : R)
    (K_epochs : nat) (eps_clip : R) (double : bool) :
  safe (fun _ => True)
       (PPO1d.PPO_init state_dim action_dim n_latent_var action_std actor_lr
                           critic_lr betas alpha gamma K_epochs eps_clip double).
Proof.
  pose proof safe_PPO_ActorCritic_init.
  unfold PPO1d.PPO_init. safe_tac.
Qed.

(** [select_action] returns a one-entry action and leaves a memory whose
    states, actions and log-probabilities can be stacked. *)
Lemma safe_PPO_select_action (self : PPO1d.PPO) (state : list (list R))
    (memory : PPO1d.Memory) :
  safe (fun am => (exists a : R, fst am = [a])
                      /\ PPO1d.states (snd am) <> []
                      /\ PPO1d.actions (snd am) <> []
                      /\ PPO1d.logprobs (snd am) <> [])
           (PPO1d.select_action self state memory).
Proof.
  unfold PPO1d.select_action, PPO1d.act. cbv zeta.
  eapply safe_bind.
  - apply safe_then; [apply safe_call|]. intros action_mean.
    apply safe_then; [apply safe_call1|]. intros action.
    apply safe_then; [apply safe_call1|]. intros action_logprob.
    apply (safe_ret
             (fun am => (exists a : R, fst am = [[a]])
                        /\ PPO1d.states (snd am) <> []
                        /\ PPO1d.actions (snd am) <> []
                        /\ PPO1d.logprobs (snd am) <> [])).
    simpl. split; [exists action; reflexivity|].
    repeat split; intros Hnil; apply app_eq_nil in Hnil as [_ Hnil]; discriminate Hnil.
  - intros am ((a & Ha) & Hs & Hact & Hlp).
    apply safe_ret. rewrite Ha.
    split; [exists a; reflexivity|]. repeat split; assumption.
Qed.

Lemma safe_PPO_evaluate (self : PPO1d.ActorCritic) (state action : list (list (list R)))
    (alpha : R) :
  safe (fun _ => True) (PPO1d.evaluate self state action alpha).
Proof.
  unfold PPO1d.evaluate.
  apply safe_then; [apply safe_call|]. intros action_means.
  apply safe_then.
  - apply safe_for_each. intros xmu.
    apply safe_call1.
  - intros action_logprobs. safe_tac.
Qed.

Lemma safe_PPO_update_actor (self : PPO1d.PPO) (memory : PPO1d.Memory) :
  PPO1d.states memory <> [] ->
  PPO1d.actions memory <> [] ->
  PPO1d.logprobs memory <> [] ->
  safe (fun _ => True) (PPO1d.update_actor self memory).
Proof.
  intros Hs Ha Hlp. pose proof safe_PPO_evaluate.
  unfold PPO1d.update_actor. cbv zeta.
  apply safe_then; [apply safe_call1|]. intros mean.
  apply safe_then; [apply safe_call1|]. intros std.
  eapply safe_bind; [apply safe_lift, stack_nonempty, Hs|]. intros ? <-.
  eapply safe_bind; [apply safe_lift, stack_nonempty, Ha|]. intros ? <-.
  eapply safe_bind; [apply safe_lift, stack_nonempty, Hlp|]. intros ? <-.
  apply safe_then; [|intros _; apply safe_call_].
  apply safe_repeatM. safe_tac.
Qed.

Lemma safe_PPO_update_critic (self : PPO1d.PPO) (memory : PPO1d.Memory) :
  PPO1d.states memory <> [] ->
  safe (fun _ => True) (PPO1d.update_critic self memory).
Proof.
  intros Hs. unfold PPO1d.update_critic.
  eapply safe_bind; [apply safe_lift, stack_nonempty, Hs|]. intros ? <-.
  cbv zeta.
  apply safe_then; [apply safe_call1|]. intros mean.
  apply safe_then; [apply safe_call1|]. intros std.
  apply safe_repeatM. safe_tac.
Qed.

Lemma safe_PPO_timestep (ppo : PPO1d.PPO) (i : nat) (v : PPO1d.Main.Vars) :
  (exists x : R, PPO1d.Main.state v = [[x]]) ->
  safe (fun v' => (exists x : R, PPO1d.Main.state v' = [[x]])
                      /\ PPO1d.Main.t v' = Some i)
           (PPO1d.Main.timestep ppo i v).
Proof.
  intros [x Hx]. unfold PPO1d.Main.timestep. cbv zeta. rewrite Hx.
  eapply safe_bind; [apply safe_PPO_select_action|].
  intros am ((a & Ha) & Hs & Hact & Hlp). rewrite Ha.
  eapply safe_bind; [apply safe_lift, PPO_stage_cost_1x1|]. intros ? <-.
  eapply safe_bind; [apply safe_lift, PPO_next_state_1x1|]. intros ? <-.
  eapply safe_bind; [apply safe_lift; reflexivity|]. intros far _.
  eapply safe_bind; [apply safe_lift; reflexivity|]. intros ? <-.
  eapply safe_bind; [apply safe_lift; reflexivity|]. intros rem _.
  apply safe_then.
  - destruct (Nat.eqb rem 0).
    + apply safe_then; [apply safe_PPO_update_actor; assumption|]. intros _.
      apply safe_then; [apply safe_PPO_update_critic; assumption|]. intros _.
      apply safe_ret. exact I.
    + apply safe_ret. exact I.
  - intros mt.
    eapply safe_bind; [apply safe_lift; reflexivity|]. intros ? <-.
    apply safe_ret. simpl. split; [eexists; reflexivity|reflexivity].
Qed.

Lemma safe_PPO_timesteps (ppo : PPO1d.PPO) (n : nat) :
  forall (i : nat) (v : PPO1d.Main.Vars),
    stepped v -> safe stepped (PPO1d.Main.timesteps ppo n i v).
Proof.
  induction n as [|n IH]; intros i v Hv; simpl.
  - apply safe_ret. exact Hv.
  - eapply safe_bind; [apply safe_PPO_timestep, Hv|].
    intros v' [Hstate Ht].
    assert (Hv' : stepped v') by (split; [exact Hstate|rewrite Ht; eexists; reflexivity]).
    destruct (PPO1d.Main.done v'); [apply safe_ret; exact Hv'|].
    apply IH. exact Hv'.
Qed.

(** The loop body runs at least once, so [t] is bound after the loop. *)
Lemma safe_PPO_timesteps_S (ppo : PPO1d.PPO) (n i : nat) (v : PPO1d.Main.Vars) :
  (exists x : R, PPO1d.Main.state v = [[x]]) ->
  safe stepped (PPO1d.Main.timesteps ppo (S n) i v).
Proof.
  intros Hv. simpl.
  eapply safe_bind; [apply safe_PPO_timestep, Hv|].
  intros v' [Hstate Ht].
  assert (Hv' : stepped v') by (split; [exact Hstate|rewrite Ht; eexists; reflexivity]).
  destruct (PPO1d.Main.done v'); [apply safe_ret; exact Hv'|].
  apply safe_PPO_timesteps. exact Hv'.
Qed.

Lemma safe_PPO_episode (ppo : PPO1d.PPO) (i_episode : nat) (v : PPO1d.Main.Vars) :
  safe (fun _ => True) (PPO1d.Main.episode ppo i_episode v).
Proof.
  unfold PPO1d.Main.episode.
  apply safe_then; [apply safe_call1|]. intros x. cbv zeta.
  change PPO1d.Main.max_timesteps with (S 99).
  eapply safe_bind.
  { apply safe_PPO_timesteps_S. eexists. reflexivity. }
  intros v' [_ [last_t Ht]]. rewrite Ht.
  eapply safe_bind; [apply safe_lift; reflexivity|]. intros ? <-.
  eapply safe_bind; [apply safe_lift; reflexivity|]. intros rem _.
  destruct (Nat.eqb rem 0); safe_tac.
Qed.

Lemma safe_PPO_episodes (ppo : PPO1d.PPO) (n : nat) :
  forall (i_episode : nat) (v : PPO1d.Main.Vars),
    safe (fun _ => True) (PPO1d.Main.episodes ppo n i_episode v).
Proof.
  induction n as [|n IH]; intros i_episode v; simpl.
  - apply safe_ret. exact I.
  - apply safe_then; [apply safe_PPO_episode|]. intros v'. apply IH.
Qed.

Lemma safe_PPO_training (ppo : PPO1d.PPO) (v : PPO1d.Main.Vars) :
  safe (fun _ => True) (PPO1d.Main.training ppo v).
Proof. apply safe_PPO_episodes. Qed.

Lemma safe_PPO_setup : safe (fun _ => True) PPO1d.Main.setup.
Proof.
  pose proof safe_PPO_init.
  unfold PPO1d.Main.setup. simpl. safe_tac.
Qed.

Lemma safe_SAC_Model_init (state_dim action_dim n_latent_var : nat) (tau : R) :
  safe (fun _ => True) (SAC1d.Model_init state_dim action_dim n_latent_var tau).
Proof. unfold SAC1d.Model_init. safe_tac. Qed.

Lemma safe_SAC_init (state_dim action_dim n_latent_var : nat) (tau lr : R)
    (betas : R * R) (gamma : R) (K_epochs : nat) :
  safe (fun _ => True)
       (SAC1d.SAC_init state_dim action_dim n_latent_var tau lr betas gamma K_epochs).
Proof.
  pose proof safe_SAC_Model_init.
  unfold SAC1d.SAC_init. safe_tac.
Qed.

Lemma safe_SAC_select_action (self : SAC1d.SAC) (state : list (list R))
    (memory : SAC1d.Memory) :
  safe (fun am => (exists a : R, fst am = [a])
                      /\ SAC1d.states (snd am) <> []
                      /\ SAC1d.actions (snd am) <> [])
           (SAC1d.select_action self state memory).
Proof.
  unfold SAC1d.select_action, SAC1d.act. cbv zeta.
  eapply safe_bind.
  - apply safe_then; [apply safe_call|]. intros noise.
    apply safe_then; [apply safe_call1|]. intros value.
    apply (safe_ret
             (fun am => (exists a : R, fst am = [[a]])
                        /\ SAC1d.states (snd am) <> []
                        /\ SAC1d.actions (snd am) <> [])).
    simpl. split; [eexists; reflexivity|].
    split; intros Hnil; apply app_eq_nil in Hnil as [_ Hnil]; discriminate Hnil.
  - intros am ((a & Ha) & Hs & Hact).
    apply safe_ret. rewrite Ha.
    split; [exists a; reflexivity|]. split; assumption.
Qed.

Lemma safe_SAC_update (self : SAC1d.SAC) (memory : SAC1d.Memory) :
  SAC1d.states memory <> [] ->
  SAC1d.actions memory <> [] ->
  safe (fun _ => True) (SAC1d.update self memory).
Proof.
  intros Hs Ha. unfold SAC1d.update, SAC1d.evaluate. cbv zeta.
  eapply safe_bind; [apply safe_lift, stack_nonempty, Hs|]. intros ? <-.
  eapply safe_bind; [apply safe_lift, stack_nonempty, Ha|]. intros ? <-.
  apply safe_then; [|intros _; apply safe_call_].
  apply safe_repeatM. safe_tac.
Qed.

Lemma safe_SAC_timestep (sac : SAC1d.SAC) (v : SAC1d.Main.Vars) :
  (exists x : R, SAC1d.Main.state v = [[x]]) ->
  safe costed (SAC1d.Main.timestep sac v).
Proof.
  intros [x Hx]. unfold SAC1d.Main.timestep. cbv zeta. rewrite Hx.
  eapply safe_bind; [apply safe_SAC_select_action|].
  intros am ((a & Ha) & Hs & Hact). rewrite Ha.
  eapply safe_bind; [apply safe_lift, SAC_stage_cost_1x1|]. intros ? <-.
  eapply safe_bind; [apply safe_lift, SAC_next_state_1x1|]. intros ? <-.
  eapply safe_bind; [apply safe_lift; reflexivity|]. intros ? <-.
  apply safe_ret. unfold costed. simpl.
  split; [eexists; reflexivity|]. split; [eexists; reflexivity|].
  split; assumption.
Qed.

Lemma safe_SAC_timesteps (sac : SAC1d.SAC) (n : nat) :
  forall v : SAC1d.Main.Vars,
    costed v -> safe costed (SAC1d.Main.timesteps sac n v).
Proof.
  induction n as [|n IH]; intros v Hv; simpl.
  - apply safe_ret. exact Hv.
  - eapply safe_bind; [apply safe_SAC_timestep, Hv|].
    intros v' Hv'.
    destruct (SAC1d.Main.done v'); [apply safe_ret; exact Hv'|].
    apply IH. exact Hv'.
Qed.

(** The loop body runs at least once, so [cost] is bound after the loop
    and the memory handed to [update] is not empty. *)
Lemma safe_SAC_timesteps_S (sac : SAC1d.SAC) (n : nat) (v : SAC1d.Main.Vars) :
  (exists x : R, SAC1d.Main.state v = [[x]]) ->
  safe costed (SAC1d.Main.timesteps sac (S n) v).
Proof.
  intros Hv. simpl.
  eapply safe_bind; [apply safe_SAC_timestep, Hv|].
  intros v' Hv'.
  destruct (SAC1d.Main.done v'); [apply safe_ret; exact Hv'|].
  apply safe_SAC_timesteps. exact Hv'.
Qed.

Lemma safe_SAC_episode (sac : SAC1d.SAC) (i_episode : nat) (v : SAC1d.Main.Vars) :
  safe (fun _ => True) (SAC1d.Main.episode sac i_episode v).
Proof.
  unfold SAC1d.Main.episode.
  apply safe_then; [apply safe_call1|]. intros x. cbv zeta.
  change SAC1d.Main.max_timesteps with (S 9).
  eapply safe_bind.
  { apply safe_SAC_timesteps_S. eexists. reflexivity. }
  intros v' (_ & [c Hc] & Hs & Ha). rewrite Hc.
  apply safe_then; [apply safe_SAC_update; assumption|]. intros _.
  eapply safe_bind; [apply safe_lift; reflexivity|]. intros ? <-.
  eapply safe_bind; [apply safe_lift; reflexivity|]. intros ? <-.
  eapply safe_bind; [apply safe_lift; reflexivity|]. intros rem _.
  destruct (Nat.eqb rem 0); safe_tac.
Qed.

Lemma safe_SAC_episodes (sac : SAC1d.SAC) (n : nat) :
  forall (i_episode : nat) (v : SAC1d.Main.Vars),
    safe (fun _ => True) (SAC1d.Main.episodes sac n i_episode v).
Proof.
  induction n as [|n IH]; intros i_episode v; simpl.
  - apply safe_ret. exact I.
  - apply safe_then; [apply safe_SAC_episode|]. intros v'. apply IH.
Qed.

Lemma safe_SAC_training (sac : SAC1d.SAC) (v : SAC1d.Main.Vars) :
  safe (fun _ => True) (SAC1d.Main.training sac v).
Proof. apply safe_SAC_episodes. Qed.

Lemma safe_SAC_setup : safe (fun _ => True) SAC1d.Main.setup.
Proof.
  pose proof safe_SAC_init.
  unfold SAC1d.Main.setup. simpl. safe_tac.
Qed.

Lemma safe_SAC_optimal_control :
  safe (fun _ => True) SAC1d.Main.optimal_control.
Proof. unfold SAC1d.Main.optimal_control. safe_tac. Qed.

Lemma safe_SAC_main (argv : list string) (environ : list (string * string)) :
  safe (fun _ => True) (SAC1d.Main.main argv environ).
Proof.
  unfold SAC1d.Main.main.
  apply safe_then; [apply safe_SAC_setup|]. intros sv.
  apply safe_then; [apply safe_SAC_training|]. intros v.
  apply safe_then; [apply safe_SAC_optimal_control|]. intros kp.
  apply safe_ret. exact I.
Qed.

End SafeRuns.

(** X16: whatever the library answers, the set-up and the training loop
    of the PPO script and the whole SAC script fail only where the
    library fails: an exception that ends such a run was raised by a
    library operation.  The loops themselves never raise [ValueError]
    from a shape, [RuntimeError] from an empty stack, [NameError] from an
    unbound [t] or [cost], or [ZeroDivisionError]. *)
Theorem training_fails_only_in_library {L : Type} `{!Library L} (l : L) (e : exn) :
  (outcome (kpv ← PPO1d.Main.setup;
            PPO1d.Main.training (snd (fst kpv)) (snd kpv)) l = inl e ->
   library_raises e)
  /\ (forall (argv : list string) (environ : list (string * string)),
         outcome (SAC1d.Main.main argv environ) l = inl e -> library_raises e).
Proof.
  split.
  - apply (safe_outcome (fun _ => True)).
    apply safe_then; [apply safe_PPO_setup|]. intros kpv. apply safe_PPO_training.
  - intros argv environ. apply (safe_outcome (fun _ => True)), safe_SAC_main.
Qed.

Lemma training_fails_only_in_library_witness :
  outcome (SAC1d.Main.main [] []) 12%nat = inl (LibraryError 0)
  /\ @library_raises nat countdown (LibraryError 0).
Proof.
  assert (Hout : outcome (SAC1d.Main.main [] []) 12%nat = inl (LibraryError 0))
    by reflexivity.
  split; [exact Hout|].
  exact (proj2 (training_fails_only_in_library 12%nat (LibraryError 0)) [] [] Hout).
Defined.

(** ** Gradient steps per update *)

Section Counts.
Context {L : Type} `{!Library L}.
Variable f : op -> bool.

Lemma counts_ret {A : Type} (a : A) : counts f 0 (mret a : M L A).
Proof.
  intros w a' w' Hrun. injection Hrun as _ <-.
  exists []. split; [simpl; rewrite app_nil_r; reflexivity|reflexivity].
Qed.

Lemma counts_bind (n1 n2 : nat) {A B : Type} (m : M L A) (k : A -> M L B) :
  counts f n1 m ->
  (forall a : A, counts f n2 (k a)) ->
  counts f (n1 + n2) (m ≫= k).
Proof.
  intros Hm Hk w b w' Hrun.
  apply run_bind_inr in Hrun as (a & w1 & Hrun1 & Hrun2).
  destruct (Hm w a w1 Hrun1) as (ops1 & Htrace1 & Hcount1).
  destruct (Hk a w1 b w' Hrun2) as (ops2 & Htrace2 & Hcount2).
  exists (ops1 ++ ops2). split.
  - rewrite Htrace2, Htrace1, map_app, app_assoc. reflexivity.
  - rewrite List.filter_app, length_app, Hcount1, Hcount2. reflexivity.
Qed.

Lemma counts_call (o : op) (args : list R) :
  counts f (if f o then 1 else 0) (call o args).
Proof.
  intros w rows w'. unfold call.
  destruct (lib_call o args (lib_state w)) as [[e|rows'] l]; intros Hrun.
  - discriminate Hrun.
  - injection Hrun as _ <-. exists [o]. split; [reflexivity|].
    simpl. destruct (f o); reflexivity.
Qed.

Lemma counts_lift {A : Type} (r : result A) : counts f 0 (lift r : M L A).
Proof.
  intros w a w'. destruct r as [e|a']; simpl; intros Hrun.
  - discriminate Hrun.
  - injection Hrun as _ <-. exists [].
    split; [simpl; rewrite app_nil_r; reflexivity|reflexivity].
Qed.

Lemma counts_eq (n n' : nat) {A : Type} (m : M L A) :
  counts f n m -> n = n' -> counts f n' m.
Proof. intros Hm <-. exact Hm. Qed.

Lemma counts_call1 (o : op) (args : list R) :
  counts f (if f o then 1 else 0) (call1 o args).
Proof.
  unfold call1. eapply counts_eq.
  - apply counts_bind; [apply counts_call|]. intros rows. apply counts_ret.
  - lia.
Qed.

Lemma counts_call_ (o : op) (args : list R) :
  counts f (if f o then 1 else 0) (call_ o args).
Proof.
  unfold call_. eapply counts_eq.
  - apply counts_bind; [apply counts_call|]. intros rows. apply counts_ret.
  - lia.
Qed.

Lemma counts_repeatM (n k : nat) (body : M L unit) :
  counts f k body -> counts f (n * k) (repeatM n body).
Proof.
  intros Hbody. induction n as [|n IH]; simpl.
  - apply counts_ret.
  - apply counts_bind; [exact Hbody|]. intros _. exact IH.
Qed.

Lemma counts_for_each {A B : Type} (g : A -> M L B) (l : list A) :
  (forall x : A, counts f 0 (g x)) -> counts f 0 (for_each g l).
Proof.
  intros Hg. induction l as [|x l IH]; simpl.
  - apply counts_ret.
  - eapply counts_eq.
    + apply counts_bind; [apply Hg|]. intros y.
      apply counts_bind; [exact IH|]. intros ys. apply counts_ret.
    + reflexivity.
Qed.

End Counts.

Ltac counts_step :=
  first
    [ apply counts_ret
    | apply counts_lift
    | apply counts_call
    | apply counts_call1
    | apply counts_call_
    | apply counts_repeatM
    | apply counts_for_each; intros ?
    | eapply counts_bind; [|intros ?]
    | progress cbv zeta ].

Ltac counts_tac := eapply counts_eq; [repeat counts_step|simpl; lia].

Section CountsUpdates.
Context {L : Type} `{!Library L}.

Lemma counts_PPO_update_actor_steps (self : PPO1d.PPO) (memory : PPO1d.Memory) :
  counts is_step (PPO1d.K_epochs self) (PPO1d.update_actor self memory).
Proof. unfold PPO1d.update_actor, PPO1d.evaluate. counts_tac. Qed.

Lemma counts_PPO_update_actor_syncs (self : PPO1d.PPO) (memory : PPO1d.Memory) :
  counts is_sync 1 (PPO1d.update_actor self memory).
Proof. unfold PPO1d.update_actor, PPO1d.evaluate. counts_tac. Qed.

Lemma counts_PPO_update_critic_steps (self : PPO1d.PPO) (memory : PPO1d.Memory) :
  counts is_step (PPO1d.K_epochs self) (PPO1d.update_critic self memory).
Proof. unfold PPO1d.update_critic. counts_tac. Qed.

Lemma counts_PPO_update_critic_syncs (self : PPO1d.PPO) (memory : PPO1d.Memory) :
  counts is_sync 0 (PPO1d.update_critic self memory).
Proof. unfold PPO1d.update_critic. counts_tac. Qed.

Lemma counts_SAC_update_steps (self : SAC1d.SAC) (memory : SAC1d.Memory) :
  counts is_step (SAC1d.K_epochs self) (SAC1d.update self memory).
Proof. unfold SAC1d.update, SAC1d.evaluate. counts_tac. Qed.

Lemma counts_SAC_update_syncs (self : SAC1d.SAC) (memory : SAC1d.Memory) :
  counts is_sync 1 (SAC1d.update self memory).
Proof. unfold SAC1d.update, SAC1d.evaluate. counts_tac. Qed.
End CountsUpdates.

(** X17: an update that returns has taken exactly [K_epochs] optimizer
    steps.  [PPO.update_actor] and [SAC.update] have copied the weights
    into [policy_old] exactly once; [PPO.update_critic] never does. *)
Theorem updates_take_K_epochs_steps {L : Type} `{!Library L} :
  (forall (self : PPO1d.PPO) (memory : PPO1d.Memory),
      counts is_step (PPO1d.K_epochs self) (PPO1d.update_actor self memory)
      /\ counts is_sync 1 (PPO1d.update_actor self memory)
      /\ counts is_step (PPO1d.K_epochs self) (PPO1d.update_critic self memory)
      /\ counts is_sync 0 (PPO1d.update_critic self memory))
  /\ (forall (self : SAC1d.SAC) (memory : SAC1d.Memory),
         counts is_step (SAC1d.K_epochs self) (SAC1d.update self memory)
         /\ counts is_sync 1 (SAC1d.update self memory)).
Proof.
  split; intros self memory.
  - split; [apply counts_PPO_update_actor_steps|].
    split; [apply counts_PPO_update_actor_syncs|].
    split; [apply counts_PPO_update_critic_steps|apply counts_PPO_update_critic_syncs].
  - split; [apply counts_SAC_update_steps|apply counts_SAC_update_syncs].
Qed.

(** ** The simulated trajectory *)

Section Simulate.
Context {L : Type} `{!Library L}.

Lemma item_v_inr (v : list R) (x : R) : item_v v = inr x -> v = [x].
Proof.
  destruct v as [|y [|z v]]; simpl; intros Hitem; try discriminate Hitem.
  injection Hitem as ->. reflexivity.
Qed.

Lemma returns_PPO_simulate_loop (A B : list (list R)) (T : nat) :
  forall x u x_data u_data : list R,
    returns (fun r =>
               exists xs us : list R,
                 fst r = x_data ++ xs /\ snd r = u_data ++ us
                 /\ length xs = T /\ length us = T
                 /\ (T <> 0%nat -> x = [hd 0 xs] /\ u = [hd 0 us]))
            (PPO1d.Main.simulate_loop A B T x u x_data u_data).
Proof.
  induction T as [|T IH]; intros x u x_data u_data; simpl.
  - apply returns_ret. exists [], []. simpl. rewrite !app_nil_r.
    repeat split; congruence.
  - eapply returns_bind; [apply returns_lift_eq|]. intros ui Hui.
    apply item_v_inr in Hui as ->.
    eapply returns_bind; [apply returns_lift_eq|]. intros xi Hxi.
    apply item_v_inr in Hxi as ->.
    eapply returns_bind; [apply returns_any|]. intros u' _.
    eapply returns_bind; [apply returns_any|]. intros ax _.
    eapply returns_bind; [apply returns_any|]. intros bu _.
    eapply returns_bind; [apply returns_any|]. intros x' _.
    eapply returns_weaken; [apply IH|].
    intros r (xs & us & Hx & Hu & Hlx & Hlu & _).
    exists (xi :: xs), (ui :: us).
    rewrite Hx, Hu, <- !app_assoc. simpl. rewrite Hlx, Hlu.
    repeat split; reflexivity.
Qed.

Lemma PPO_simulate_bad_u0 (A B : list (list R)) (x0 u0 : list R) (T : nat) (l : L) :
  length u0 <> 1%nat ->
  run (PPO1d.Main.simulate A B x0 u0 (S T)) l
  = (inl ValueError, World l [Raise ValueError]).
Proof.
  intros Hlen. unfold run, PPO1d.Main.simulate. simpl.
  destruct u0 as [|u [|u' u0]]; simpl in Hlen; try reflexivity. congruence.
Qed.
End Simulate.

(** X18: [simulate] of the PPO script, when it returns, has recorded
    [T] states and [T] actions; for [T > 0] the first recorded state is
    the single entry of [x0] and the first recorded action is the single
    entry of [u0], not an action of the policy.  Called with [T > 0] and
    a [u0] that does not have exactly one entry it raises [ValueError]
    before the policy is evaluated. *)
Theorem PPO_simulate_records {L : Type} `{!Library L} (A B : list (list R))
    (x0 u0 : list R) :
  (forall (T : nat) (x_data u_data : list R) (w w' : world L),
      PPO1d.Main.simulate A B x0 u0 T w = (inr (x_data, u_data), w') ->
      length x_data = T /\ length u_data = T
      /\ (T <> 0%nat -> x0 = [hd 0 x_data] /\ u0 = [hd 0 u_data]))
  /\ (forall (T : nat) (l : L),
         length u0 <> 1%nat ->
         outcome (PPO1d.Main.simulate A B x0 u0 (S T)) l = inl ValueError
         /\ events (PPO1d.Main.simulate A B x0 u0 (S T)) l = [Raise ValueError]).
Proof.
  split.
  - intros T x_data u_data w w' Hrun.
    destruct (returns_PPO_simulate_loop A B T x0 u0 [] [] w _ w' Hrun)
      as (xs & us & Hx & Hu & Hlx & Hlu & Hhd).
    simpl in Hx, Hu. subst xs us. repeat split; try assumption.
    + apply Hhd. assumption.
    + apply Hhd. assumption.
  - intros T l Hlen. unfold outcome, events.
    rewrite PPO_simulate_bad_u0 by exact Hlen. split; reflexivity.
Qed.

Lemma PPO_simulate_records_witness :
  exists (x_data u_data : list R) (w' : world unit),
    PPO1d.Main.simulate [[1]] [[1]] [3] [0] 2 (World tt [])
    = (inr (x_data, u_data), w')
    /\ length x_data = 2%nat /\ length u_data = 2%nat
    /\ (2%nat <> 0%nat -> [3] = [hd 0 x_data] /\ [0] = [hd 0 u_data]).
Proof.
  eexists _, _, _. split; [lazy; reflexivity|].
  eapply (proj1 (PPO_simulate_records [[1]] [[1]] [3] [0]) 2%nat _ _ (World tt [])).
  lazy. reflexivity.
Defined.

(** ** What the answer of the CUDA probe changes

    Two invocations on machines that differ in whether CUDA is available
    are two runs from library states that answer
    [torch.cuda.is_available()] differently and every other operation
    alike.  The scripts drop everything about the answer but the device
    it selects; moving a module or a tensor to that device is part of the
    library operation that makes it. *)

Section Stable.
Context {L : Type} `{!Library L}.
Variable rel : L -> L -> Prop.
Hypothesis library_agrees : agree rel.

Lemma stable_ret {A : Type} (a : A) : stable rel (mret a : M L A).
Proof.
  intros w1 w2 Hrel. split; [reflexivity|]. split; [exact Hrel|].
  exists []. simpl. rewrite !app_nil_r. split; reflexivity.
Qed.

Lemma stable_bind {A B : Type} (m : M L A) (f : A -> M L B) :
  stable rel m ->
  (forall a : A, stable rel (f a)) ->
  stable rel (m ≫= f).
Proof.
  intros Hm Hf w1 w2 Hrel.
  destruct (Hm w1 w2 Hrel) as (Hres & Hrel' & evs & Ht1 & Ht2).
  unfold mbind, M_bind.
  destruct (m w1) as [[e1|a1] w1'], (m w2) as [[e2|a2] w2']; simpl in *;
    try discriminate Hres.
  - injection Hres as ->.
    split; [reflexivity|]. split; [exact Hrel'|]. exists evs. split; assumption.
  - injection Hres as <-.
    destruct (Hf a1 w1' w2' Hrel') as (Hres2 & Hrel2 & evs2 & Ht1' & Ht2').
    split; [exact Hres2|]. split; [exact Hrel2|].
    exists (evs ++ evs2). rewrite Ht1', Ht2', Ht1, Ht2, <- !app_assoc.
    split; reflexivity.
Qed.

Lemma stable_call (o : op) (args : list R) :
  is_probe o = false -> stable rel (call o args).
Proof.
  intros Ho w1 w2 Hrel. unfold call.
  pose proof (library_agrees o args _ _ Hrel) as Hagree.
  destruct (lib_call o args (lib_state w1)) as [[e1|rows1] l1'],
           (lib_call o args (lib_state w2)) as [[e2|rows2] l2']; simpl;
    try (destruct Hagree; fail).
  - destruct Hagree as [Hrel' ->]. split; [reflexivity|]. split; [exact Hrel'|].
    exists [Call o; Raise e2]. split; reflexivity.
  - destruct Hagree as [Hrel' Hrows]. rewrite (Hrows Ho).
    split; [reflexivity|]. split; [exact Hrel'|].
    exists [Call o]. split; reflexivity.
Qed.

(** An operation called for its effect: its answer is dropped, so the
    probe is covered too. *)
Lemma stable_call_ (o : op) (args : list R) : stable rel (call_ o args).
Proof.
  intros w1 w2 Hrel. unfold call_, call, mbind, M_bind.
  pose proof (library_agrees o args _ _ Hrel) as Hagree.
  destruct (lib_call o args (lib_state w1)) as [[e1|rows1] l1'],
           (lib_call o args (lib_state w2)) as [[e2|rows2] l2']; simpl;
    try (destruct Hagree; fail).
  - destruct Hagree as [Hrel' ->]. split; [reflexivity|]. split; [exact Hrel'|].
    exists [Call o; Raise e2]. split; reflexivity.
  - destruct Hagree as [Hrel' _].
    split; [reflexivity|]. split; [exact Hrel'|].
    exists [Call o]. split; reflexivity.
Qed.

Lemma stable_call1 (o : op) (args : list R) :
  is_probe o = false -> stable rel (call1 o args).
Proof.
  intros Ho. unfold call1.
  apply stable_bind; [apply stable_call; exact Ho|].
  intros rows. apply stable_ret.
Qed.

Lemma stable_lift {A : Type} (r : result A) : stable rel (lift r : M L A).
Proof.
  intros w1 w2 Hrel. destruct r as [e|a]; simpl.
  - split; [reflexivity|]. split; [exact Hrel|].
    exists [Raise e]. split; reflexivity.
  - split; [reflexivity|]. split; [exact Hrel|].
    exists []. rewrite !app_nil_r. split; reflexivity.
Qed.

Lemma stable_for_each {A B : Type} (f : A -> M L B) (l : list A) :
  (forall a : A, stable rel (f a)) -> stable rel (for_each f l).
Proof.
  intros Hf. induction l as [|x l IH]; simpl.
  - apply stable_ret.
  - apply stable_bind; [apply Hf|]. intros y.
    apply stable_bind; [exact IH|]. intros ys. apply stable_ret.
Qed.

Lemma stable_repeatM (n : nat) (body : M L unit) :
  stable rel body -> stable rel (repeatM n body).
Proof.
  intros Hb. induction n as [|n IH]; simpl.
  - apply stable_ret.
  - apply stable_bind; [exact Hb|]. intros _. exact IH.
Qed.

(** Two runs from an empty trace. *)
Lemma stable_runs {A : Type} (m : M L A) (l1 l2 : L) :
  stable rel m -> rel l1 l2 ->
  outcome m l1 = outcome m l2 /\ events m l1 = events m l2.
Proof.
  intros Hm Hrel. unfold outcome, events, run.
  destruct (Hm (World l1 []) (World l2 []) Hrel) as (Hres & _ & evs & Ht1 & Ht2).
  split; [exact Hres|]. rewrite Ht1, Ht2. reflexivity.
Qed.

Ltac stable_step :=
  first
    [ apply stable_ret
    | apply stable_lift
    | apply stable_call_
    | apply stable_call; reflexivity
    | apply stable_call1; reflexivity
    | solve [auto]
    | apply stable_repeatM
    | apply stable_for_each; intros ?
    | apply stable_bind; [|intros ?]
    | match goal with
      | |- stable _ (if ?b then _ else _) => destruct b
      | |- stable _ (match ?x with _ => _ end) => destruct x
      end
    | progress cbv zeta ].

Ltac stable_tac := repeat stable_step.

Lemma stable_PPO_double_weights (rows cols : nat) :
  stable rel (PPO1d.double_weights rows cols).
Proof. unfold PPO1d.double_weights. stable_tac. Qed.

Lemma stable_PPO_ActorCritic_init (state_dim action_dim n_latent_var : nat)
    (action_std : R) (double : bool) :
  stable rel
    (PPO1d.ActorCritic_init state_dim action_dim n_latent_var action_std double).
Proof.
  pose proof stable_PPO_double_weights.
  unfold PPO1d.ActorCritic_init. stable_tac.
Qed.

Lemma stable_PPO_init (state_dim action_dim n_latent_var : nat)
    (action_std actor_lr critic_lr : R) (betas : R * R) (alpha gamma : R)
    (K_epochs : nat) (eps_clip : R) (double : bool) :
  stable rel
    (PPO1d.PPO_init state_dim action_dim n_latent_var action_std actor_lr critic_lr
                    betas alpha gamma K_epochs eps_clip double).
Proof.
  pose proof stable_PPO_ActorCritic_init.
  unfold PPO1d.PPO_init. stable_tac.
Qed.

Lemma stable_PPO_act (self : PPO1d.ActorCritic) (state : list (list R))
    (memory : PPO1d.Memory) :
  stable rel (PPO1d.act self state memory).
Proof. unfold PPO1d.act. stable_tac. Qed.

Lemma stable_PPO_evaluate (self : PPO1d.ActorCritic) (state action : list (list (list R)))
    (alpha : R) :
  stable rel (PPO1d.evaluate self state action alpha).
Proof. unfold PPO1d.evaluate. stable_tac. Qed.

Lemma stable_PPO_select_action (self : PPO1d.PPO) (state : list (list R))
    (memory : PPO1d.Memory) :
  stable rel (PPO1d.select_action self state memory).
Proof.
  pose proof stable_PPO_act.
  unfold PPO1d.select_action. stable_tac.
Qed.

Lemma stable_PPO_update_actor (self : PPO1d.PPO) (memory : PPO1d.Memory) :
  stable rel (PPO1d.update_actor self memory).
Proof.
  pose proof stable_PPO_evaluate.
  unfold PPO1d.update_actor. stable_tac.
Qed.

Lemma stable_PPO_update_critic (self : PPO1d.PPO) (memory : PPO1d.Memory) :
  stable rel (PPO1d.update_critic self memory).
Proof. unfold PPO1d.update_critic. stable_tac. Qed.

Lemma stable_PPO_timestep (ppo : PPO1d.PPO) (t : nat) (v : PPO1d.Main.Vars) :
  stable rel (PPO1d.Main.timestep ppo t v).
Proof.
  pose proof stable_PPO_select_action.
  pose proof stable_PPO_update_actor.
  pose proof stable_PPO_update_critic.
  unfold PPO1d.Main.timestep. stable_tac.
Qed.

Lemma stable_PPO_timesteps (ppo : PPO1d.PPO) (n : nat) :
  forall (t : nat) (v : PPO1d.Main.Vars),
    stable rel (PPO1d.Main.timesteps ppo n t v).
Proof.
  pose proof stable_PPO_timestep.
  induction n as [|n IH]; intros t v; simpl; stable_tac.
Qed.

Lemma stable_PPO_episode (ppo : PPO1d.PPO) (i_episode : nat) (v : PPO1d.Main.Vars) :
  stable rel (PPO1d.Main.episode ppo i_episode v).
Proof.
  pose proof stable_PPO_timesteps.
  unfold PPO1d.Main.episode. stable_tac.
Qed.

Lemma stable_PPO_episodes (ppo : PPO1d.PPO) (n : nat) :
  forall (i_episode : nat) (v : PPO1d.Main.Vars),
    stable rel (PPO1d.Main.episodes ppo n i_episode v).
Proof.
  pose proof stable_PPO_episode.
  induction n as [|n IH]; intros i_episode v; simpl; stable_tac.
Qed.

Lemma stable_PPO_training (ppo : PPO1d.PPO) (v : PPO1d.Main.Vars) :
  stable rel (PPO1d.Main.training ppo v).
Proof. apply stable_PPO_episodes. Qed.

Lemma stable_PPO_simulate_loop (A B : list (list R)) (T : nat) :
  forall x u x_data u_data : list R,
    stable rel (PPO1d.Main.simulate_loop A B T x u x_data u_data).
Proof.
  induction T as [|T IH]; intros x u x_data u_data; simpl; stable_tac.
Qed.

Lemma stable_PPO_simulate (A B : list (list R)) (x0 u0 : list R) (T : nat) :
  stable rel (PPO1d.Main.simulate A B x0 u0 T).
Proof. apply stable_PPO_simulate_loop. Qed.

Lemma stable_PPO_compare_paths (x_sim x_star : list R) (ylabel : string) :
  stable rel (PPO1d.Main.compare_paths x_sim x_star ylabel).
Proof. unfold PPO1d.Main.compare_paths. stable_tac. Qed.

Lemma stable_PPO_compare_V (A B Q R' : list (list R)) (K : R) (T : nat)
    (gamma alpha low high : R) :
  stable rel (PPO1d.Main.compare_V A B Q R' K T gamma alpha low high).
Proof. unfold PPO1d.Main.compare_V. stable_tac. Qed.

Lemma stable_PPO_setup : stable rel PPO1d.Main.setup.
Proof.
  pose proof stable_PPO_init.
  unfold PPO1d.Main.setup. stable_tac.
Qed.

Lemma stable_PPO_comparison (K : R) : stable rel (PPO1d.Main.comparison K).
Proof.
  pose proof stable_PPO_simulate.
  pose proof stable_PPO_compare_paths.
  pose proof stable_PPO_compare_V.
  unfold PPO1d.Main.comparison. stable_tac.
Qed.

Lemma stable_PPO_main (argv : list string) (environ : list (string * string)) :
  stable rel (PPO1d.Main.main argv environ).
Proof.
  pose proof stable_PPO_setup.
  pose proof stable_PPO_training.
  pose proof stable_PPO_comparison.
  unfold PPO1d.Main.main. stable_tac.
Qed.

Lemma stable_SAC_Model_init (state_dim action_dim n_latent_var : nat) (tau : R) :
  stable rel (SAC1d.Model_init state_dim action_dim n_latent_var tau).
Proof. unfold SAC1d.Model_init. stable_tac. Qed.

Lemma stable_SAC_init (state_dim action_dim n_latent_var : nat) (tau lr : R)
    (betas : R * R) (gamma : R) (K_epochs : nat) :
  stable rel
    (SAC1d.SAC_init state_dim action_dim n_latent_var tau lr betas gamma K_epochs).
Proof.
  pose proof stable_SAC_Model_init.
  unfold SAC1d.SAC_init. stable_tac.
Qed.

Lemma stable_SAC_act (self : SAC1d.Model) (state : list (list R))
    (memory : SAC1d.Memory) :
  stable rel (SAC1d.act self state memory).
Proof. unfold SAC1d.act. stable_tac. Qed.

Lemma stable_SAC_evaluate (self : SAC1d.Model) (states actions : list (list (list R))) :
  stable rel (SAC1d.evaluate self states actions).
Proof. unfold SAC1d.evaluate. stable_tac. Qed.

Lemma stable_SAC_select_action (self : SAC1d.SAC) (state : list (list R))
    (memory : SAC1d.Memory) :
  stable rel (SAC1d.select_action self state memory).
Proof.
  pose proof stable_SAC_act.
  unfold SAC1d.select_action. stable_tac.
Qed.

Lemma stable_SAC_update (self : SAC1d.SAC) (memory : SAC1d.Memory) :
  stable rel (SAC1d.update self memory).
Proof.
  pose proof stable_SAC_evaluate.
  unfold SAC1d.update. stable_tac.
Qed.

Lemma stable_SAC_timestep (sac : SAC1d.SAC) (v : SAC1d.Main.Vars) :
  stable rel (SAC1d.Main.timestep sac v).
Proof.
  pose proof stable_SAC_select_action.
  unfold SAC1d.Main.timestep. stable_tac.
Qed.

Lemma stable_SAC_timesteps (sac : SAC1d.SAC) (n : nat) :
  forall v : SAC1d.Main.Vars, stable rel (SAC1d.Main.timesteps sac n v).
Proof.
  pose proof stable_SAC_timestep.
  induction n as [|n IH]; intros v; simpl; stable_tac.
Qed.

Lemma stable_SAC_episode (sac : SAC1d.SAC) (i_episode : nat) (v : SAC1d.Main.Vars) :
  stable rel (SAC1d.Main.episode sac i_episode v).
Proof.
  pose proof stable_SAC_timesteps.
  pose proof stable_SAC_update.
  unfold SAC1d.Main.episode. stable_tac.
Qed.

Lemma stable_SAC_episodes (sac : SAC1d.SAC) (n : nat) :
  forall (i_episode : nat) (v : SAC1d.Main.Vars),
    stable rel (SAC1d.Main.episodes sac n i_episode v).
Proof.
  pose proof stable_SAC_episode.
  induction n as [|n IH]; intros i_episode v; simpl; stable_tac.
Qed.

Lemma stable_SAC_training (sac : SAC1d.SAC) (v : SAC1d.Main.Vars) :
  stable rel (SAC1d.Main.training sac v).
Proof. apply stable_SAC_episodes. Qed.

Lemma stable_SAC_simulate_loop (A B : list (list R)) (T : nat) :
  forall x u x_data u_data : list R,
    stable rel (SAC1d.simulate_loop A B T x u x_data u_data).
Proof.
  induction T as [|T IH]; intros x u x_data u_data; simpl; stable_tac.
Qed.

Lemma stable_SAC_simulate (A B : list (list R)) (x0 : list R) (T : nat) :
  stable rel (SAC1d.simulate A B x0 T).
Proof.
  pose proof stable_SAC_simulate_loop.
  unfold SAC1d.simulate. stable_tac.
Qed.

Lemma stable_SAC_setup : stable rel SAC1d.Main.setup.
Proof.
  pose proof stable_SAC_init.
  unfold SAC1d.Main.setup. stable_tac.
Qed.

Lemma stable_SAC_optimal_control : stable rel SAC1d.Main.optimal_control.
Proof. unfold SAC1d.Main.optimal_control. stable_tac. Qed.

Lemma stable_SAC_main (argv : list string) (environ : list (string * string)) :
  stable rel (SAC1d.Main.main argv environ).
Proof.
  pose proof stable_SAC_setup.
  pose proof stable_SAC_training.
  pose proof stable_SAC_optimal_control.
  unfold SAC1d.Main.main. stable_tac.
Qed.

End Stable.

Lemma truth_one : truth 1 = true.
Proof. unfold truth. destruct (Req_dec_T 1 0) as [Heq|_]; [lra|reflexivity]. Qed.

Lemma truth_zero : truth 0 = false.
Proof. unfold truth. destruct (Req_dec_T 0 0) as [_|Hne]; [reflexivity|lra]. Qed.

(** The states of [configured] differ in the answer of the probe only. *)
Lemma configured_agrees : agree (fun _ _ : bool => True).
Proof.
  intros o args l1 l2 _. simpl. split; [exact I|].
  intros Ho. rewrite Ho. reflexivity.
Qed.

(** [device] asks the library what the first statement of [setup] asks
    it, and keeps the answer. *)
Lemma device_is_the_probe {L : Type} `{!Library L} (w : world L) :
  snd (device w) = snd (call_ OpCudaIsAvailable [] w)
  /\ forall answer : list (list R),
       fst (call OpCudaIsAvailable [] w) = inr answer ->
       fst (device w) = inr (device_name (truth (hd 0 (concat answer)))).
Proof.
  unfold device, call_, call1, call, mbind, M_bind.
  destruct (lib_call OpCudaIsAvailable [] (lib_state w)) as [[e|rows] l]; simpl.
  - split; [reflexivity|]. intros answer Hanswer. discriminate Hanswer.
  - split; [reflexivity|]. intros answer Hanswer. injection Hanswer as <-.
    reflexivity.
Qed.



